(** * OData explorer: metadata parser, view-state store, search and diagram

    A shallow embedding of the TypeScript sources of the explorer

      - [src/parser.ts]                    (module [Parser], over the DOM model [Dom])
      - the store, [class Store]           (module [State])
      - the sidebar's [getMatchHint]       (module [Sidebar])
      - the input panel's [handleParse]    (module [Input])
      - the diagram's [buildGraph], [layoutNodes] (module [Diagram])

    followed by the properties of these functions.

    Conventions.  A JavaScript string is a [string] whose characters are
    UTF-16 code units below 256 (the Latin-1 range).  A JavaScript [number]
    that the code uses as a counter or an index is a [nat]; the pixel
    quantities of the diagram are exact rationals [Q] (every one of them is an
    integer or a half-integer, which a double represents exactly).  A
    [Set<string>] is a [gset string], a [Map<string, _>] is a [gmap string _];
    the one [Map] the code iterates over (the layout's [byDepth]) is an
    association list in insertion order. *)

From Stdlib Require Import String Ascii ZArith QArith Qminmax Lia Lqa Bool Sorted.
From stdpp Require Import gmap strings list fin_maps sorting.

Local Open Scope string_scope.

(** ** JavaScript string primitives *)

Module Js.

(** [String.prototype.toLowerCase] on code units below 256: A-Z and the
    Latin-1 capitals U+00C0..U+00DE (without the multiplication sign
    U+00D7) move up by 32. *)
Definition lowerChar (c : ascii) : ascii :=
  let n := nat_of_ascii c in
  if ((65 <=? n) && (n <=? 90)
      || (192 <=? n) && (n <=? 222) && negb (n =? 215))%nat
  then ascii_of_nat (n + 32) else c.

Fixpoint toLowerCase (s : string) : string :=
  match s with
  | EmptyString => EmptyString
  | String c s' => String (lowerChar c) (toLowerCase s')
  end.

(** White space removed by [trim]: TAB, LF, VT, FF, CR, SPACE, NBSP. *)
Definition isWhiteSpace (c : ascii) : bool :=
  let n := nat_of_ascii c in
  ((9 <=? n) && (n <=? 13) || (n =? 32) || (n =? 160))%nat.

Fixpoint trimStart (s : string) : string :=
  match s with
  | EmptyString => EmptyString
  | String c s' => if isWhiteSpace c then trimStart s' else s
  end.

Fixpoint trimEnd (s : string) : string :=
  match s with
  | EmptyString => EmptyString
  | String c s' =>
      match trimEnd s' with
      | EmptyString => if isWhiteSpace c then EmptyString else String c EmptyString
      | t => String c t
      end
  end.

Definition trim (s : string) : string := trimEnd (trimStart s).

(** [s.startsWith(p)] *)
Fixpoint startsWith (p s : string) : bool :=
  match p, s with
  | EmptyString, _ => true
  | String a p', String b s' => if Ascii.eqb a b then startsWith p' s' else false
  | String _ _, EmptyString => false
  end.

(** [s.includes(q)] *)
Fixpoint includes (q s : string) : bool :=
  startsWith q s
  || match s with
     | EmptyString => false
     | String _ s' => includes q s'
     end.

Fixpoint drop (n : nat) (s : string) : string :=
  match n, s with
  | O, _ => s
  | S n', String _ s' => drop n' s'
  | S _, EmptyString => EmptyString
  end.

(** [s.endsWith(p)] *)
Definition endsWith (p s : string) : bool :=
  (String.length p <=? String.length s)%nat
  && String.eqb (drop (String.length s - String.length p) s) p.

(** [s.split(sep)] for a one-character separator; never the empty list. *)
Fixpoint split (sep : ascii) (s : string) : list string :=
  match s with
  | EmptyString => [EmptyString]
  | String c s' =>
      if Ascii.eqb c sep then EmptyString :: split sep s'
      else match split sep s' with
           | seg :: rest => String c seg :: rest
           | [] => [String c EmptyString]
           end
  end.

(** [s.replace(pat, '')] for a string pattern: the first occurrence goes. *)
Fixpoint removeFirst (pat s : string) : string :=
  if startsWith pat s then drop (String.length pat) s
  else match s with
       | EmptyString => EmptyString
       | String c s' => String c (removeFirst pat s')
       end.

(** [s.replace(/^c_/, '')] *)
Definition stripComplexPrefix (s : string) : string :=
  if startsWith "c_" s then drop 2 s else s.

(** [x || d] for a string or null [x]: null and [''] are both falsy. *)
Definition orDefault (x : option string) (d : string) : string :=
  match x with
  | Some s => if String.eqb s "" then d else s
  | None => d
  end.

(** [x || undefined] *)
Definition orUndefined (x : option string) : option string :=
  match x with
  | Some s => if String.eqb s "" then None else Some s
  | None => None
  end.

(** The line terminators that [.] of a regular expression refuses
    (U+2028 and U+2029 lie outside the modelled range). *)
Definition isLineTerminator (c : ascii) : bool :=
  let n := nat_of_ascii c in ((n =? 10) || (n =? 13))%nat.

(** [.*\)] anchored at the start of [s], greedy: the text before the last
    [')'] of the first line of [s]. *)
Fixpoint upToLastParen (s : string) : option string :=
  match s with
  | EmptyString => None
  | String c s' =>
      if isLineTerminator c then None
      else match upToLastParen s' with
           | Some t => Some (String c t)
           | None => if Ascii.eqb c ")" then Some EmptyString else None
           end
  end.

(** [(.+)\)] anchored at the start of [s]: the capture group. *)
Definition captureGroup (s : string) : option string :=
  match s with
  | EmptyString => None
  | String c s' =>
      if isLineTerminator c then None
      else match upToLastParen s' with
           | Some t => Some (String c t)
           | None => None
           end
  end.

(** [s.match(/Collection\((.+)\)/)]: group 1 of the leftmost match. *)
Fixpoint matchCollection (s : string) : option string :=
  match (if startsWith "Collection(" s then captureGroup (drop 11 s) else None) with
  | Some t => Some t
  | None =>
      match s with
      | EmptyString => None
      | String _ s' => matchCollection s'
      end
  end.

Fixpoint noLineTerminator (s : string) : bool :=
  match s with
  | EmptyString => true
  | String c s' => negb (isLineTerminator c) && noLineTerminator s'
  end.

Fixpoint dropLast (s : string) : string :=
  match s with
  | EmptyString => EmptyString
  | String c EmptyString => EmptyString
  | String c s' => String c (dropLast s')
  end.

(** [s.match(/^Collection\((.+)\)$/)]: group 1.  The whole of [s] is one
    line, starts with [Collection(], ends with [')'] and has at least one
    character in between. *)
Definition matchCollectionAnchored (s : string) : option string :=
  if startsWith "Collection(" s then
    let body := drop 11 s in
    if endsWith ")" body && noLineTerminator body
       && negb (String.eqb (dropLast body) "")
    then Some (dropLast body) else None
  else None.

End Js.

(** ** The fragment of the DOM that the parser reads *)

Module Dom.

Record Attr := mkAttr {
  attr_namespaceURI : option string;
  attr_prefix : option string;
  attr_localName : string;
  attr_value : string;
}.

#[local] Set Warnings "-register-all".

(** An element with its child nodes in document order; a child is an
    element or a text node. *)
Inductive Element :=
| mkElement (namespaceURI : option string) (pfx : option string)
            (localName : string) (attributes : list Attr)
            (childNodes : list (Element + string)).

Definition namespaceURI (e : Element) : option string :=
  let 'mkElement ns _ _ _ _ := e in ns.
Definition pfx (e : Element) : option string :=
  let 'mkElement _ p _ _ _ := e in p.
Definition localName (e : Element) : string :=
  let 'mkElement _ _ l _ _ := e in l.
Definition attributes (e : Element) : list Attr :=
  let 'mkElement _ _ _ a _ := e in a.
Definition childNodes (e : Element) : list (Element + string) :=
  let 'mkElement _ _ _ _ k := e in k.

(** What [DOMParser.parseFromString] hands back. *)
Record Document := mkDocument { documentElement : option Element }.

Definition qualifiedName (p : option string) (l : string) : string :=
  match p with
  | Some p => p ++ ":" ++ l
  | None => l
  end.

Definition tagName (e : Element) : string := qualifiedName (pfx e) (localName e).

(** [e.children]: the element children. *)
Definition children (e : Element) : list Element :=
  List.flat_map (fun k => match k with inl c => [c] | inr _ => [] end) (childNodes e).

(** The element descendants of [e] in document order, [e] excluded. *)
Fixpoint descendants (e : Element) : list Element :=
  let 'mkElement _ _ _ _ kids := e in
  List.flat_map
    (fun k => match k with inl c => c :: descendants c | inr _ => [] end) kids.

(** [e.textContent] *)
Fixpoint textContent (e : Element) : string :=
  let 'mkElement _ _ _ _ kids := e in
  List.fold_right
    (fun k acc => match k with inl c => textContent c ++ acc | inr t => t ++ acc end)
    "" kids.

Definition getElementsByTagNameNS (e : Element) (ns name : string) : list Element :=
  List.filter
    (fun d => bool_decide (namespaceURI d = Some ns) && String.eqb (localName d) name)
    (descendants e).

(** In an XML document [getElementsByTagName] compares qualified names. *)
Definition getElementsByTagName (e : Element) (name : string) : list Element :=
  List.filter (fun d => String.eqb (tagName d) name) (descendants e).

Definition getAttribute (e : Element) (name : string) : option string :=
  attr_value <$>
    List.find (fun a => String.eqb (qualifiedName (attr_prefix a) (attr_localName a)) name)
              (attributes e).

Definition getAttributeNS (e : Element) (ns name : string) : option string :=
  attr_value <$>
    List.find (fun a => bool_decide (attr_namespaceURI a = Some ns)
                        && String.eqb (attr_localName a) name)
              (attributes e).

(** [doc.querySelector(name)] for a type selector: the first element of
    the document, root included, with that local name. *)
Definition querySelector (doc : Document) (name : string) : option Element :=
  match documentElement doc with
  | Some root =>
      List.find (fun d => String.eqb (localName d) name) (root :: descendants root)
  | None => None
  end.

End Dom.

(** ** Metadata records ([src/types.ts]) *)

(** [maxLength], [precision] and [scale] of a property, which the detail
    table prints and nothing else reads, are left out. *)
Record ODataProperty := mkProperty {
  prop_name : string;
  prop_type : string;
  prop_nullable : bool;
  prop_isKey : bool;
}.

Record ReferentialConstraint := mkConstraint {
  rc_property : string;
  rc_referencedProperty : string;
}.

Record ODataNavigationProperty := mkNavigationProperty {
  nav_name : string;
  nav_type : string;
  nav_targetEntity : string;
  nav_isCollection : bool;
  nav_partner : option string;
  nav_referentialConstraints : option (list ReferentialConstraint);
}.

Record ODataEntity := mkEntity {
  ent_name : string;
  ent_fullName : string;
  ent_namespace : string;
  ent_properties : list ODataProperty;
  ent_navigationProperties : list ODataNavigationProperty;
  ent_keyProperties : list string;
  ent_baseType : option string;
}.

Record ODataEnumMember := mkEnumMember {
  mem_name : string;
  mem_value : option string;
}.

Record ODataEnumType := mkEnumType {
  enum_name : string;
  enum_fullName : string;
  enum_namespace : string;
  enum_members : list ODataEnumMember;
  enum_underlyingType : option string;
  enum_isFlags : bool;
}.

Record ODataComplexType := mkComplexType {
  ct_name : string;
  ct_fullName : string;
  ct_namespace : string;
  ct_properties : list ODataProperty;
  ct_navigationProperties : list ODataNavigationProperty;
  ct_baseType : option string;
  ct_keyProperty : option string;
}.

Inductive StepKind := StepEntity | StepComplex.

Record NavigationPathStep := mkStep {
  step_kind : StepKind;
  step_typeName : string;
  step_propertyName : string;
  step_displayName : string;
}.

Record ODataSchema := mkSchema {
  schema_namespace : string;
  schema_alias : option string;
  schema_entities : list ODataEntity;
  schema_complexTypes : list ODataComplexType;
  schema_enumTypes : list ODataEnumType;
}.

Record ODataMetadata := mkMetadata {
  version : string;
  schemas : list ODataSchema;
  allEntities : list ODataEntity;
  allComplexTypes : list ODataComplexType;
  allEnumTypes : list ODataEnumType;
}.

Record AppState := mkAppState {
  metadata : option ODataMetadata;
  selectedEntity : option ODataEntity;
  searchQuery : string;
  error : option string;
  loading : bool;
  collapsedNamespaces : gset string;
  diagramRootEntity : option ODataEntity;
  diagramExpandedNodes : gset string;
  navigationPath : list NavigationPathStep;
}.

Record Relationship := mkRelationship {
  rel_sourceEntity : string;
  rel_targetEntity : string;
  rel_navProp : string;
  rel_isCollection : bool;
}.

(** What a function that may [throw] returns. *)
Inductive Result (A : Type) :=
| Ok (a : A)
| Throw (message : string).
Arguments Ok {A} a.
Arguments Throw {A} message.

(** ** The parser ([src/parser.ts]) *)

Module Parser.
Import Dom.

Definition EDMX_NS := "http://docs.oasis-open.org/odata/ns/edmx".
Definition EDM_NS := "http://docs.oasis-open.org/odata/ns/edm".

Definition findElement (parent : Element) (name : string) : option Element :=
  match head (getElementsByTagNameNS parent EDM_NS name) with
  | Some el => Some el
  | None =>
      match head (getElementsByTagNameNS parent EDMX_NS name) with
      | Some el => Some el
      | None =>
          match head (getElementsByTagName parent name) with
          | Some el => Some el
          | None => List.find (fun c => String.eqb (localName c) name) (children parent)
          end
      end
  end.

Definition findElements (parent : Element) (name : string) : list Element :=
  match getElementsByTagNameNS parent EDM_NS name with
  | (_ :: _) as results => results
  | [] =>
      match getElementsByTagNameNS parent EDMX_NS name with
      | (_ :: _) as results => results
      | [] => List.filter (fun c => String.eqb (localName c) name) (children parent)
      end
  end.

Definition parseProperty (propElement : Element) (keyProperties : list string)
  : ODataProperty :=
  let name := Js.orDefault (getAttribute propElement "Name") "Unknown" in
  let type := Js.orDefault (getAttribute propElement "Type") "Edm.String" in
  let nullableAttr := getAttribute propElement "Nullable" in
  let nullable := negb (bool_decide (nullableAttr = Some "false")) in
  {| prop_name := name;
     prop_type := type;
     prop_nullable := nullable;
     prop_isKey := bool_decide (name ∈ keyProperties) |}.

(** The part of [parseNavigationProperty] that works on the [Type]
    attribute alone: [isCollection] and [targetEntity]. *)
Definition isCollectionType (type : string) : bool :=
  Js.startsWith "Collection(" type.

Definition targetOfType (type : string) : string :=
  let targetEntity :=
    if isCollectionType type then
      match Js.matchCollection type with
      | Some inner => inner
      | None => type
      end
    else type in
  let parts := Js.split "." targetEntity in
  List.last parts "".

Definition parseNavigationProperty (navPropElement : Element)
  : ODataNavigationProperty :=
  let name := Js.orDefault (getAttribute navPropElement "Name") "Unknown" in
  let type := Js.orDefault (getAttribute navPropElement "Type") "" in
  let partner := Js.orUndefined (getAttribute navPropElement "Partner") in
  let isCollection := isCollectionType type in
  let targetEntity := targetOfType type in
  let constraintElements := findElements navPropElement "ReferentialConstraint" in
  let referentialConstraints :=
    List.map (fun el =>
                {| rc_property := Js.orDefault (getAttribute el "Property") "";
                   rc_referencedProperty :=
                     Js.orDefault (getAttribute el "ReferencedProperty") "" |})
             constraintElements in
  {| nav_name := name;
     nav_type := type;
     nav_targetEntity := targetEntity;
     nav_isCollection := isCollection;
     nav_partner := partner;
     nav_referentialConstraints :=
       match referentialConstraints with
       | [] => None
       | _ :: _ => Some referentialConstraints
       end |}.

Definition parseEntityType (entityElement : Element) (namespace : string)
  : ODataEntity :=
  let name := Js.orDefault (getAttribute entityElement "Name") "Unknown" in
  let baseType := Js.orUndefined (getAttribute entityElement "BaseType") in
  let keyProperties :=
    match findElement entityElement "Key" with
    | Some keyElement =>
        List.flat_map
          (fun ref => match Js.orUndefined (getAttribute ref "Name") with
                      | Some keyName => [keyName]
                      | None => []
                      end)
          (findElements keyElement "PropertyRef")
    | None => []
    end in
  let properties :=
    List.map (fun el => parseProperty el keyProperties)
             (findElements entityElement "Property") in
  let navigationProperties :=
    List.map parseNavigationProperty (findElements entityElement "NavigationProperty") in
  {| ent_name := name;
     ent_fullName := namespace ++ "." ++ name;
     ent_namespace := namespace;
     ent_properties := properties;
     ent_navigationProperties := navigationProperties;
     ent_keyProperties := keyProperties;
     ent_baseType := baseType |}.

Definition parseComplexType (complexElement : Element) (namespace : string)
  : ODataComplexType :=
  let name := Js.orDefault (getAttribute complexElement "Name") "Unknown" in
  let baseType := Js.orUndefined (getAttribute complexElement "BaseType") in
  let keyProperty :=
    match Js.orUndefined (getAttributeNS complexElement "https://www.elite.com/schemas" "Key") with
    | Some k => Some k
    | None => Js.orUndefined (getAttribute complexElement "E3E:Key")
    end in
  let properties :=
    List.map (fun el => parseProperty el (match keyProperty with Some k => [k] | None => [] end))
             (findElements complexElement "Property") in
  let navigationProperties :=
    List.map parseNavigationProperty (findElements complexElement "NavigationProperty") in
  {| ct_name := name;
     ct_fullName := namespace ++ "." ++ name;
     ct_namespace := namespace;
     ct_properties := properties;
     ct_navigationProperties := navigationProperties;
     ct_baseType := baseType;
     ct_keyProperty := keyProperty |}.

Definition parseEnumType (enumElement : Element) (namespace : string) : ODataEnumType :=
  let name := Js.orDefault (getAttribute enumElement "Name") "Unknown" in
  let underlyingType := Js.orUndefined (getAttribute enumElement "UnderlyingType") in
  let isFlags := bool_decide (getAttribute enumElement "IsFlags" = Some "true") in
  let members :=
    List.map (fun el =>
                {| mem_name := Js.orDefault (getAttribute el "Name") "Unknown";
                   mem_value := Js.orUndefined (getAttribute el "Value") |})
             (findElements enumElement "Member") in
  {| enum_name := name;
     enum_fullName := namespace ++ "." ++ name;
     enum_namespace := namespace;
     enum_members := members;
     enum_underlyingType := underlyingType;
     enum_isFlags := isFlags |}.

Definition parseSchema (schemaElement : Element) : ODataSchema :=
  let namespace := Js.orDefault (getAttribute schemaElement "Namespace") "Default" in
  let alias := Js.orUndefined (getAttribute schemaElement "Alias") in
  {| schema_namespace := namespace;
     schema_alias := alias;
     schema_entities :=
       List.map (fun el => parseEntityType el namespace)
                (findElements schemaElement "EntityType");
     schema_complexTypes :=
       List.map (fun el => parseComplexType el namespace)
                (findElements schemaElement "ComplexType");
     schema_enumTypes :=
       List.map (fun el => parseEnumType el namespace)
                (findElements schemaElement "EnumType") |}.

(** [parseODataMetadata], from the document that
    [new DOMParser().parseFromString(xmlString, 'application/xml')] returns. *)
Definition parseODataMetadata (doc : Document) : Result ODataMetadata :=
  match querySelector doc "parsererror" with
  | Some parseError => Throw ("XML Parse Error: " ++ textContent parseError)
  | None =>
      match documentElement doc with
      | None => Throw "Invalid OData metadata: Root element must be Edmx"
      | Some root =>
          if negb (Js.includes "edmx" (Js.toLowerCase (localName root))) then
            Throw "Invalid OData metadata: Root element must be Edmx"
          else
            let version := Js.orDefault (getAttribute root "Version") "4.0" in
            match findElement root "DataServices" with
            | None => Throw "Invalid OData metadata: Missing DataServices element"
            | Some dataServices =>
                let schemaElements := findElements dataServices "Schema" in
                let schemas := List.map parseSchema schemaElements in
                Ok {| version := version;
                      schemas := schemas;
                      allEntities := List.flat_map schema_entities schemas;
                      allComplexTypes := List.flat_map schema_complexTypes schemas;
                      allEnumTypes := List.flat_map schema_enumTypes schemas |}
            end
      end
  end.

Definition extractRelationships (metadata : ODataMetadata) : list Relationship :=
  let entityNames : gset string := list_to_set (List.map ent_name (allEntities metadata)) in
  foldl
    (fun relationships entity =>
       foldl
         (fun relationships navProp =>
            if decide (nav_targetEntity navProp ∈ entityNames) then
              (relationships ++
                [{| rel_sourceEntity := ent_name entity;
                    rel_targetEntity := nav_targetEntity navProp;
                    rel_navProp := nav_name navProp;
                    rel_isCollection := nav_isCollection navProp |}])%list
            else relationships)
         relationships (ent_navigationProperties entity))
    [] (allEntities metadata).

End Parser.

(** ** The view-state store ([class Store]) *)

Module State.

Definition initialState : AppState :=
  {| metadata := None;
     selectedEntity := None;
     searchQuery := "";
     error := None;
     loading := false;
     collapsedNamespaces := ∅;
     diagramRootEntity := None;
     diagramExpandedNodes := ∅;
     navigationPath := [] |}.

(** The store is its current state and what its listeners have been shown:
    [notify] calls every listener, which reads the state of that moment
    through [getState]. *)
Record Store := mkStore {
  state : AppState;
  notified : list AppState;
}.

Definition initialStore : Store := {| state := initialState; notified := [] |}.

Definition getState (s : Store) : AppState := state s.

Definition notify (s : Store) : Store :=
  {| state := state s; notified := (notified s ++ [state s])%list |}.

(** [this.state = {...this.state, ...}; this.notify()] *)
Definition assign (f : AppState -> AppState) (s : Store) : Store :=
  notify {| state := f (state s); notified := notified s |}.

Definition setMetadata (md : option ODataMetadata) : Store -> Store :=
  assign (fun st =>
    {| metadata := md;
       selectedEntity := None;
       searchQuery := searchQuery st;
       error := None;
       loading := loading st;
       collapsedNamespaces := ∅;
       diagramRootEntity := None;
       diagramExpandedNodes := ∅;
       navigationPath := navigationPath st |}).

Definition selectEntity (entity : option ODataEntity) : Store -> Store :=
  assign (fun st =>
    let diagramRoot :=
      match diagramRootEntity st with
      | Some r => Some r
      | None => entity
      end in
    let expandedNodes : gset string :=
      if (0 <? size (diagramExpandedNodes st))%nat then diagramExpandedNodes st
      else match entity with
           | Some e => {[ ent_name e ]}
           | None => ∅
           end in
    {| metadata := metadata st;
       selectedEntity := entity;
       searchQuery := searchQuery st;
       error := error st;
       loading := loading st;
       collapsedNamespaces := collapsedNamespaces st;
       diagramRootEntity := diagramRoot;
       diagramExpandedNodes := expandedNodes;
       navigationPath := [] |}).

Definition toggleDiagramNode (entityName : string) : Store -> Store :=
  assign (fun st =>
    let newExpanded : gset string :=
      if decide (entityName ∈ diagramExpandedNodes st)
      then diagramExpandedNodes st ∖ {[ entityName ]}
      else {[ entityName ]} ∪ diagramExpandedNodes st in
    {| metadata := metadata st;
       selectedEntity := selectedEntity st;
       searchQuery := searchQuery st;
       error := error st;
       loading := loading st;
       collapsedNamespaces := collapsedNamespaces st;
       diagramRootEntity := diagramRootEntity st;
       diagramExpandedNodes := newExpanded;
       navigationPath := navigationPath st |}).

Definition setSearchQuery (query : string) : Store -> Store :=
  assign (fun st =>
    {| metadata := metadata st;
       selectedEntity := selectedEntity st;
       searchQuery := query;
       error := error st;
       loading := loading st;
       collapsedNamespaces := collapsedNamespaces st;
       diagramRootEntity := diagramRootEntity st;
       diagramExpandedNodes := diagramExpandedNodes st;
       navigationPath := navigationPath st |}).

Definition setError (err : option string) : Store -> Store :=
  assign (fun st =>
    {| metadata := metadata st;
       selectedEntity := selectedEntity st;
       searchQuery := searchQuery st;
       error := err;
       loading := false;
       collapsedNamespaces := collapsedNamespaces st;
       diagramRootEntity := diagramRootEntity st;
       diagramExpandedNodes := diagramExpandedNodes st;
       navigationPath := navigationPath st |}).

Definition setLoading (l : bool) : Store -> Store :=
  assign (fun st =>
    {| metadata := metadata st;
       selectedEntity := selectedEntity st;
       searchQuery := searchQuery st;
       error := error st;
       loading := l;
       collapsedNamespaces := collapsedNamespaces st;
       diagramRootEntity := diagramRootEntity st;
       diagramExpandedNodes := diagramExpandedNodes st;
       navigationPath := navigationPath st |}).

(** The callback of [allEntities.filter] in [getFilteredEntities]. *)
Definition entityMatches (query : string) (entity : ODataEntity) : bool :=
  if Js.includes query (Js.toLowerCase (ent_name entity)) then true
  else if Js.includes query (Js.toLowerCase (ent_namespace entity)) then true
  else if Js.includes query (Js.toLowerCase (ent_fullName entity)) then true
  else if existsb (fun p => Js.includes query (Js.toLowerCase (prop_name p)))
                  (ent_properties entity) then true
  else if existsb (fun p => Js.includes query (Js.toLowerCase (prop_type p)))
                  (ent_properties entity) then true
  else if existsb (fun np => Js.includes query (Js.toLowerCase (nav_name np)))
                  (ent_navigationProperties entity) then true
  else if existsb (fun np => Js.includes query (Js.toLowerCase (nav_targetEntity np)))
                  (ent_navigationProperties entity) then true
  else if existsb (fun k => Js.includes query (Js.toLowerCase k))
                  (ent_keyProperties entity) then true
  else match ent_baseType entity with
       | Some b =>
           if String.eqb b "" then false
           else if Js.includes query (Js.toLowerCase b) then true else false
       | None => false
       end.

Definition getFilteredEntities (st : AppState) : list ODataEntity :=
  match metadata st with
  | None => []
  | Some md =>
      let query := Js.trim (Js.toLowerCase (searchQuery st)) in
      if String.eqb query "" then allEntities md
      else List.filter (entityMatches query) (allEntities md)
  end.

(** [navigateInto(propertyName, targetTypeName)] *)
Definition navigateInto (propertyName targetTypeName : string) (s : Store) : Store :=
  match metadata (state s) with
  | None => s
  | Some md =>
      match List.find
              (fun ct => String.eqb (ct_name ct) targetTypeName
                         || Js.endsWith ("." ++ targetTypeName) (ct_fullName ct))
              (allComplexTypes md) with
      | None => s
      | Some _ =>
          let newStep :=
            {| step_kind := StepComplex;
               step_typeName := targetTypeName;
               step_propertyName := propertyName;
               step_displayName := Js.stripComplexPrefix targetTypeName |} in
          assign (fun st =>
            {| metadata := metadata st;
               selectedEntity := selectedEntity st;
               searchQuery := searchQuery st;
               error := error st;
               loading := loading st;
               collapsedNamespaces := collapsedNamespaces st;
               diagramRootEntity := diagramRootEntity st;
               diagramExpandedNodes := diagramExpandedNodes st;
               navigationPath := (navigationPath st ++ [newStep])%list |}) s
      end
  end.

(** [isComplexTypeCollection(propertyType)]: the pair
    [(isCollection, typeName)]. *)
Definition isComplexTypeCollection (st : AppState) (propertyType : string)
  : bool * option string :=
  match Js.matchCollectionAnchored propertyType with
  | None => (false, None)
  | Some innerType =>
      match metadata st with
      | None => (true, None)
      | Some md =>
          let typeName :=
            let popped := List.last (Js.split "." innerType) "" in
            if String.eqb popped "" then innerType else popped in
          let isComplex :=
            existsb (fun ct => String.eqb (ct_name ct) typeName
                               || String.eqb (ct_fullName ct) innerType)
                    (allComplexTypes md) in
          (true, if isComplex then Some typeName else None)
      end
  end.

Definition startDiagramFrom (entity : ODataEntity) : Store -> Store :=
  assign (fun st =>
    {| metadata := metadata st;
       selectedEntity := Some entity;
       searchQuery := searchQuery st;
       error := error st;
       loading := loading st;
       collapsedNamespaces := collapsedNamespaces st;
       diagramRootEntity := Some entity;
       diagramExpandedNodes := {[ ent_name entity ]};
       navigationPath := [] |}).

(** [selectFromDiagram(entityName)]: the two early [return]s leave the
    store alone and notify nobody. *)
Definition selectFromDiagram (entityName : string) (s : Store) : Store :=
  match metadata (state s) with
  | None => s
  | Some md =>
      match List.find (fun e => String.eqb (ent_name e) entityName) (allEntities md) with
      | None => s
      | Some entity =>
          assign (fun st =>
            {| metadata := metadata st;
               selectedEntity := Some entity;
               searchQuery := searchQuery st;
               error := error st;
               loading := loading st;
               collapsedNamespaces := collapsedNamespaces st;
               diagramRootEntity := diagramRootEntity st;
               diagramExpandedNodes := {[ entityName ]} ∪ diagramExpandedNodes st;
               navigationPath := navigationPath st |}) s
      end
  end.

Definition resetDiagram : Store -> Store :=
  assign (fun st =>
    {| metadata := metadata st;
       selectedEntity := selectedEntity st;
       searchQuery := searchQuery st;
       error := error st;
       loading := loading st;
       collapsedNamespaces := collapsedNamespaces st;
       diagramRootEntity := diagramRootEntity st;
       diagramExpandedNodes :=
         match diagramRootEntity st with
         | Some root => {[ ent_name root ]}
         | None => ∅
         end;
       navigationPath := navigationPath st |}).

Definition toggleNamespaceCollapsed (namespace : string) : Store -> Store :=
  assign (fun st =>
    let newCollapsed : gset string :=
      if decide (namespace ∈ collapsedNamespaces st)
      then collapsedNamespaces st ∖ {[ namespace ]}
      else {[ namespace ]} ∪ collapsedNamespaces st in
    {| metadata := metadata st;
       selectedEntity := selectedEntity st;
       searchQuery := searchQuery st;
       error := error st;
       loading := loading st;
       collapsedNamespaces := newCollapsed;
       diagramRootEntity := diagramRootEntity st;
       diagramExpandedNodes := diagramExpandedNodes st;
       navigationPath := navigationPath st |}).

(** [if (!grouped.has(ns)) grouped.set(ns, []); grouped.get(ns)!.push(entity)]
    on a [Map] kept in insertion order. *)
Fixpoint pushToNamespace (grouped : list (string * list ODataEntity)) (ns : string)
    (entity : ODataEntity) : list (string * list ODataEntity) :=
  match grouped with
  | [] => [(ns, [entity])]
  | (k, members) :: others =>
      if String.eqb k ns then (k, (members ++ [entity])%list) :: others
      else (k, members) :: pushToNamespace others ns entity
  end.

Definition getEntitiesByNamespace (st : AppState) : list (string * list ODataEntity) :=
  foldl (fun grouped entity =>
           pushToNamespace grouped (Js.orDefault (Some (ent_namespace entity)) "Default")
                           entity)
        [] (getFilteredEntities st).

(** [navigateBack()]: [slice(0, -1)] drops the last step. *)
Definition navigateBack (s : Store) : Store :=
  match navigationPath (state s) with
  | [] => s
  | _ :: _ =>
      assign (fun st =>
        {| metadata := metadata st;
           selectedEntity := selectedEntity st;
           searchQuery := searchQuery st;
           error := error st;
           loading := loading st;
           collapsedNamespaces := collapsedNamespaces st;
           diagramRootEntity := diagramRootEntity st;
           diagramExpandedNodes := diagramExpandedNodes st;
           navigationPath := List.removelast (navigationPath st) |}) s
  end.

(** [navigateToIndex(index)] for an integer [index] (the breadcrumb passes
    the [parseInt] of a [data-index]). *)
Definition navigateToIndex (index : Z) (s : Store) : Store :=
  if (index <? -1)%Z then s
  else
    assign (fun st =>
      {| metadata := metadata st;
         selectedEntity := selectedEntity st;
         searchQuery := searchQuery st;
         error := error st;
         loading := loading st;
         collapsedNamespaces := collapsedNamespaces st;
         diagramRootEntity := diagramRootEntity st;
         diagramExpandedNodes := diagramExpandedNodes st;
         navigationPath :=
           if (index =? -1)%Z then []
           else take (Z.to_nat (index + 1)) (navigationPath st) |}) s.

(** [ct.name === name || ct.fullName.endsWith(`.${name}`)] *)
Definition complexTypeNamed (name : string) (ct : ODataComplexType) : bool :=
  String.eqb (ct_name ct) name || Js.endsWith ("." ++ name) (ct_fullName ct).

Inductive CurrentView :=
| EntityView (data : ODataEntity)
| ComplexView (data : ODataComplexType).

Definition getCurrentViewType (st : AppState) : option CurrentView :=
  match metadata st with
  | None => None
  | Some md =>
      let fromPath :=
        match last (navigationPath st) with
        | Some lastStep =>
            List.find (complexTypeNamed (step_typeName lastStep)) (allComplexTypes md)
        | None => None
        end in
      match fromPath with
      | Some complexType => Some (ComplexView complexType)
      | None =>
          match selectedEntity st with
          | Some entity => Some (EntityView entity)
          | None => None
          end
      end
  end.

Definition getComplexType (st : AppState) (name : string) : option ODataComplexType :=
  match metadata st with
  | None => None
  | Some md => List.find (complexTypeNamed name) (allComplexTypes md)
  end.

End State.

(** ** The sidebar's match hint *)

Module Sidebar.

(** The label of the navigation-target hint is U+2192 and a space, here in
    its UTF-8 bytes. *)
Definition getMatchHint (entity : ODataEntity) (query : string) : option string :=
  if String.eqb query "" then None
  else
    let q := Js.toLowerCase query in
    if Js.includes q (Js.toLowerCase (ent_name entity)) then None
    else
      match List.find (fun p => Js.includes q (Js.toLowerCase (prop_name p)))
                      (ent_properties entity) with
      | Some matchedProp => Some ("prop: " ++ prop_name matchedProp)
      | None =>
      match List.find (fun p => Js.includes q (Js.toLowerCase (prop_type p)))
                      (ent_properties entity) with
      | Some matchedType => Some ("type: " ++ Js.removeFirst "Edm." (prop_type matchedType))
      | None =>
      match List.find (fun np => Js.includes q (Js.toLowerCase (nav_name np)))
                      (ent_navigationProperties entity) with
      | Some matchedNav => Some ("nav: " ++ nav_name matchedNav)
      | None =>
      match List.find (fun np => Js.includes q (Js.toLowerCase (nav_targetEntity np)))
                      (ent_navigationProperties entity) with
      | Some matchedTarget => Some ("→ " ++ nav_targetEntity matchedTarget)
      | None =>
      if Js.includes q (Js.toLowerCase (ent_namespace entity))
      then Some ("ns: " ++ ent_namespace entity)
      else
        match List.find (fun k => Js.includes q (Js.toLowerCase k))
                        (ent_keyProperties entity) with
        | Some matchedKey =>
            if String.eqb matchedKey "" then None else Some ("key: " ++ matchedKey)
        | None => None
        end
      end end end end.


End Sidebar.

(** ** The input panel's [handleParse] *)

Module Input.
Import State.

Section WithDOMParser.

(** [new DOMParser().parseFromString(_, 'application/xml')], the
    browser's XML parser. *)
Variable parseFromString : string -> Dom.Document.

(** The timer callback is run right after it is scheduled. *)
Definition handleParse (xml : string) (s : Store) : Store :=
  if String.eqb (Js.trim xml) "" then setError (Some "Please provide XML content") s
  else
    let s := setLoading true s in
    let s := setError None s in
    match Parser.parseODataMetadata (parseFromString xml) with
    | Ok md => setLoading false (setMetadata (Some md) s)
    | Throw message => setError (Some message) s
    end.

End WithDOMParser.

End Input.

(** ** The relationship diagram ([buildGraph], [layoutNodes]) *)

Module Diagram.

Local Open Scope Q_scope.

Definition NODE_HEIGHT : Q := 28.
Definition NODE_PADDING : Q := 12.
Definition CHAR_WIDTH : Q := 7.
Definition LEVEL_HEIGHT : Q := 80.
Definition NODE_SPACING : Q := 20.

Definition calculateNodeWidth (name : string) : Q :=
  Qminmax.Qmax 60 (inject_Z (Z.of_nat (String.length name)) * CHAR_WIDTH + NODE_PADDING * 2).

Inductive NodeKind := KindEntity | KindComplex.

(** [entity?], [complexType?] and [kind] of a node are written together
    where a node is built and read together where links are built: one
    tagged field. *)
Inductive NodeData :=
| EntityData (entity : ODataEntity)
| ComplexData (complexType : ODataComplexType).

Record DiagramNode := mkNode {
  node_id : string;
  node_name : string;
  node_displayName : string;
  node_data : NodeData;
  node_isRoot : bool;
  node_isSelected : bool;
  node_isExpanded : bool;
  node_relationshipCount : nat;
  node_collectionCount : nat;
  node_depth : nat;
  node_width : Q;
  node_height : Q;
  node_x : Q;
  node_y : Q;
}.

Definition node_kind (n : DiagramNode) : NodeKind :=
  match node_data n with
  | EntityData _ => KindEntity
  | ComplexData _ => KindComplex
  end.

(** A node object is referred to by its position in the [nodes] array, to
    which it is pushed when it is made: two references are the same object
    exactly when the positions are equal. *)
Abbreviation NodeRef := nat (only parsing).

Record DiagramLink := mkLink {
  link_source : NodeRef;
  link_target : NodeRef;
  link_isCollection : bool;
  link_isNested : bool;
  link_navProperty : string;
}.

Inductive QueueItem :=
| EntityItem (entity : ODataEntity) (depth : nat)
| ComplexItem (complexType : ODataComplexType) (depth : nat) (parentProp : string).

Record Graph := mkGraph {
  nodes : list DiagramNode;
  links : list DiagramLink;
}.

(** The local variables of the traversal loop. *)
Record Traversal := mkTraversal {
  t_nodes : list DiagramNode;
  t_visited : gset string;
  t_nodeMap : gmap string NodeRef;
  t_queue : list QueueItem;
}.

(** [new Map(metadata.allEntities.map(e => [e.name, e]))]: a later entry
    of the same name replaces the earlier one. *)
Definition entityMapOf (metadata : ODataMetadata) : gmap string ODataEntity :=
  foldl (fun m e => <[ent_name e := e]> m) ∅ (allEntities metadata).

Definition complexTypeMapOf (metadata : ODataMetadata) : gmap string ODataComplexType :=
  foldl (fun m ct => <[ct_name ct := ct]> m) ∅ (allComplexTypes metadata).

(** [[a, b].sort().join('|')] *)
Definition linkKey (a b : string) : string :=
  if String.ltb b a then b ++ "|" ++ a else a ++ "|" ++ b.

Section BuildGraph.

(** The store that [store.isComplexTypeCollection] reads. *)
Variable store : AppState.
Variable rootEntity : ODataEntity.
Variable selectedEntity : option ODataEntity.
Variable expandedNodes : gset string.
Variable entityMap : gmap string ODataEntity.
Variable metadata : ODataMetadata.

Definition complexTypeMap : gmap string ODataComplexType := complexTypeMapOf metadata.

(** Pairs [(propName, typeName)]. *)
Definition getNestedCollections (props : list ODataProperty) : list (string * string) :=
  List.flat_map
    (fun prop =>
       match State.isComplexTypeCollection store (prop_type prop) with
       | (true, Some typeName) =>
           if String.eqb typeName "" then [] else [(prop_name prop, typeName)]
       | _ => []
       end)
    props.

(** [for (const nav of navigationProperties)] of the traversal, on the
    pair [(childCount, queue)]. *)
Fixpoint pushNavigationTargets (visited : gset string) (depth maxChildren : nat)
    (navs : list ODataNavigationProperty) (acc : nat * list QueueItem)
  : nat * list QueueItem :=
  match navs with
  | [] => acc
  | nav :: rest =>
      if (maxChildren <=? fst acc)%nat then acc
      else
        match entityMap !! nav_targetEntity nav with
        | Some targetEntity =>
            if decide (nav_targetEntity nav ∈ visited)
            then pushNavigationTargets visited depth maxChildren rest acc
            else pushNavigationTargets visited depth maxChildren rest
                   (S (fst acc), (snd acc ++ [EntityItem targetEntity (depth + 1)])%list)
        | None => pushNavigationTargets visited depth maxChildren rest acc
        end
  end.

(** [for (const nested of nestedCollections)] of the traversal. *)
Fixpoint pushNestedCollections (visited : gset string) (depth maxChildren : nat)
    (nestedCollections : list (string * string)) (acc : nat * list QueueItem)
  : nat * list QueueItem :=
  match nestedCollections with
  | [] => acc
  | (propName, typeName) :: rest =>
      if (maxChildren <=? fst acc)%nat then acc
      else
        match complexTypeMap !! typeName with
        | Some complexType =>
            if decide (typeName ∈ visited)
            then pushNestedCollections visited depth maxChildren rest acc
            else pushNestedCollections visited depth maxChildren rest
                   (S (fst acc),
                    (snd acc ++ [ComplexItem complexType (depth + 1) propName])%list)
        | None => pushNestedCollections visited depth maxChildren rest acc
        end
  end.

(** One turn of [while (queue.length > 0)] for the item just shifted off
    the queue; [t] holds the rest of the queue. *)
Definition visit (item : QueueItem) (t : Traversal) : Traversal :=
  match item with
  | EntityItem entity depth =>
      if decide (ent_name entity ∈ t_visited t) then t
      else
        let visited := {[ ent_name entity ]} ∪ t_visited t in
        let isRoot := String.eqb (ent_name entity) (ent_name rootEntity) in
        let isExpanded := bool_decide (ent_name entity ∈ expandedNodes) in
        let isSelected :=
          match selectedEntity with
          | Some sel => String.eqb (ent_name sel) (ent_name entity)
          | None => false
          end in
        let nestedCollections := getNestedCollections (ent_properties entity) in
        let node :=
          {| node_id := ent_name entity;
             node_name := ent_name entity;
             node_displayName := ent_name entity;
             node_data := EntityData entity;
             node_isRoot := isRoot;
             node_isSelected := isSelected;
             node_isExpanded := isExpanded;
             node_relationshipCount := length (ent_navigationProperties entity);
             node_collectionCount := length nestedCollections;
             node_depth := depth;
             node_width := calculateNodeWidth (ent_name entity);
             node_height := NODE_HEIGHT;
             node_x := 0;
             node_y := 0 |} in
        let nodes := (t_nodes t ++ [node])%list in
        let nodeMap := <[ent_name entity := length (t_nodes t)]> (t_nodeMap t) in
        let queue :=
          if isExpanded || isRoot then
            let maxChildren := if isRoot then 15%nat else 8%nat in
            snd (pushNestedCollections visited depth maxChildren nestedCollections
                   (pushNavigationTargets visited depth maxChildren
                      (ent_navigationProperties entity) (0%nat, t_queue t)))
          else t_queue t in
        {| t_nodes := nodes; t_visited := visited; t_nodeMap := nodeMap;
           t_queue := queue |}
  | ComplexItem complexType depth _ =>
      if decide (ct_name complexType ∈ t_visited t) then t
      else
        let visited := {[ ct_name complexType ]} ∪ t_visited t in
        let isExpanded := bool_decide (ct_name complexType ∈ expandedNodes) in
        let nestedCollections := getNestedCollections (ct_properties complexType) in
        let displayName := Js.stripComplexPrefix (ct_name complexType) in
        let node :=
          {| node_id := ct_name complexType;
             node_name := ct_name complexType;
             node_displayName := displayName;
             node_data := ComplexData complexType;
             node_isRoot := false;
             node_isSelected := false;
             node_isExpanded := isExpanded;
             node_relationshipCount := length (ct_navigationProperties complexType);
             node_collectionCount := length nestedCollections;
             node_depth := depth;
             node_width := calculateNodeWidth displayName;
             node_height := NODE_HEIGHT;
             node_x := 0;
             node_y := 0 |} in
        let nodes := (t_nodes t ++ [node])%list in
        let nodeMap := <[ct_name complexType := length (t_nodes t)]> (t_nodeMap t) in
        let queue :=
          if isExpanded then
            let maxChildren := 6%nat in
            snd (pushNavigationTargets visited depth maxChildren
                   (ct_navigationProperties complexType)
                   (pushNestedCollections visited depth maxChildren nestedCollections
                      (0%nat, t_queue t)))
          else t_queue t in
        {| t_nodes := nodes; t_visited := visited; t_nodeMap := nodeMap;
           t_queue := queue |}
  end.

(** [while (queue.length > 0) { const item = queue.shift()!; ... }];
    [None] when [fuel] turns do not empty the queue. *)
Fixpoint traverse (fuel : nat) (t : Traversal) : option Traversal :=
  match t_queue t with
  | [] => Some t
  | item :: rest =>
      match fuel with
      | O => None
      | S fuel' =>
          traverse fuel'
            (visit item {| t_nodes := t_nodes t; t_visited := t_visited t;
                           t_nodeMap := t_nodeMap t; t_queue := rest |})
      end
  end.

Definition initialTraversal : Traversal :=
  {| t_nodes := []; t_visited := ∅; t_nodeMap := ∅;
     t_queue := [EntityItem rootEntity 0] |}.

Definition nodeNavigationProperties (n : DiagramNode) : list ODataNavigationProperty :=
  match node_data n with
  | EntityData e => ent_navigationProperties e
  | ComplexData ct => ct_navigationProperties ct
  end.

Definition nodeProperties (n : DiagramNode) : list ODataProperty :=
  match node_data n with
  | EntityData e => ent_properties e
  | ComplexData ct => ct_properties ct
  end.

(** The body shared by the two inner loops of the link pass: look the
    target up, skip the node itself, skip a pair already linked. *)
Definition addLink (nodes : list DiagramNode) (nodeMap : gmap string NodeRef)
    (ref : NodeRef) (node : DiagramNode) (targetName : string)
    (isCollection isNested : bool) (label : string)
    (acc : gset string * list DiagramLink) : gset string * list DiagramLink :=
  match nodeMap !! targetName with
  | Some targetRef =>
      match nodes !! targetRef with
      | Some targetNode =>
          if (targetRef =? ref)%nat then acc
          else
            let key := linkKey (node_id node) (node_id targetNode) in
            if decide (key ∈ fst acc) then acc
            else ({[ key ]} ∪ fst acc,
                  (snd acc ++ [{| link_source := ref;
                                  link_target := targetRef;
                                  link_isCollection := isCollection;
                                  link_isNested := isNested;
                                  link_navProperty := label |}])%list)
      | None => acc
      end
  | None => acc
  end.

(** The body of [for (const node of nodes)] of the link pass. *)
Definition linksOfNode (nodes : list DiagramNode) (nodeMap : gmap string NodeRef)
    (acc : gset string * list DiagramLink) (entry : NodeRef * DiagramNode)
  : gset string * list DiagramLink :=
  let '(ref, node) := entry in
  if node_isExpanded node || node_isRoot node then
    let acc :=
      foldl (fun acc nav =>
               addLink nodes nodeMap ref node (nav_targetEntity nav)
                       (nav_isCollection nav) false (nav_name nav) acc)
            acc (nodeNavigationProperties node) in
    foldl (fun acc nested =>
             addLink nodes nodeMap ref node (snd nested) true true (fst nested) acc)
          acc (getNestedCollections (nodeProperties node))
  else acc.

Definition buildLinks (nodes : list DiagramNode) (nodeMap : gmap string NodeRef)
  : list DiagramLink :=
  snd (foldl (linksOfNode nodes nodeMap) (∅, []) (imap pair nodes)).

Definition buildGraph (fuel : nat) : option Graph :=
  match traverse fuel initialTraversal with
  | Some t => Some {| nodes := t_nodes t; links := buildLinks (t_nodes t) (t_nodeMap t) |}
  | None => None
  end.

End BuildGraph.

(** [byDepth.get(depth).push(node)], after [byDepth.set(depth, [])] when
    the depth is new: entries stay in insertion order. *)
Fixpoint pushAtDepth (byDepth : list (nat * list NodeRef)) (depth : nat) (ref : NodeRef)
  : list (nat * list NodeRef) :=
  match byDepth with
  | [] => [(depth, [ref])]
  | (d, level) :: others =>
      if (d =? depth)%nat then (d, (level ++ [ref])%list) :: others
      else (d, level) :: pushAtDepth others depth ref
  end.

Definition groupByDepth (nodes : list DiagramNode) : list (nat * list NodeRef) :=
  foldl (fun byDepth entry => pushAtDepth byDepth (node_depth (snd entry)) (fst entry))
        [] (imap pair nodes).

Definition widthOf (nodes : list DiagramNode) (ref : NodeRef) : Q :=
  match nodes !! ref with
  | Some n => node_width n
  | None => 0
  end.

(** [levelNodes.reduce((sum, n) => sum + n.width + NODE_SPACING, -NODE_SPACING)] *)
Definition totalWidth (nodes : list DiagramNode) (levelNodes : list NodeRef) : Q :=
  foldl (fun sum ref => sum + widthOf nodes ref + NODE_SPACING) (- NODE_SPACING) levelNodes.

(** [node.x = x; node.y = y] *)
Definition setPosition (node : DiagramNode) (x y : Q) : DiagramNode :=
  {| node_id := node_id node;
     node_name := node_name node;
     node_displayName := node_displayName node;
     node_data := node_data node;
     node_isRoot := node_isRoot node;
     node_isSelected := node_isSelected node;
     node_isExpanded := node_isExpanded node;
     node_relationshipCount := node_relationshipCount node;
     node_collectionCount := node_collectionCount node;
     node_depth := node_depth node;
     node_width := node_width node;
     node_height := node_height node;
     node_x := x;
     node_y := y |}.

(** [for (const node of levelNodes)]: writes [x] and [y] of each node of
    the level and moves the pen. *)
Fixpoint placeLevel (y : Q) (levelNodes : list NodeRef) (x : Q) (nodes : list DiagramNode)
  : list DiagramNode :=
  match levelNodes with
  | [] => nodes
  | ref :: rest =>
      match nodes !! ref with
      | Some node =>
          placeLevel y rest (x + node_width node + NODE_SPACING)
                     (<[ref := setPosition node (x + node_width node / 2) y]> nodes)
      | None => placeLevel y rest x nodes
      end
  end.

Definition layoutLevel (nodes : list DiagramNode) (entry : nat * list NodeRef)
  : list DiagramNode :=
  let '(depth, levelNodes) := entry in
  let total := totalWidth nodes levelNodes in
  let x := - total / 2 in
  let y := inject_Z (Z.of_nat depth) * LEVEL_HEIGHT in
  placeLevel y levelNodes x nodes.

Definition layoutNodes (nodes : list DiagramNode) : list DiagramNode :=
  foldl layoutLevel nodes (groupByDepth nodes).

(** Turns of the traversal loop that always suffice: every name is visited
    at most once, and a visit queues at most fifteen items. *)
Definition enoughFuel (metadata : ODataMetadata) : nat :=
  16 * (length (allEntities metadata) + length (allComplexTypes metadata) + 1) + 1.

(** [minX], [maxX], [minY], [maxY] of [getBounds]; [None] is the [Infinity]
    or [-Infinity] that the accumulator starts from. *)
Record Bounds := mkBounds {
  minX : option Q;
  maxX : option Q;
  minY : option Q;
  maxY : option Q;
}.

(** [Math.min(acc, v)] for an accumulator that starts at [Infinity]. *)
Definition mathMin (acc : option Q) (v : Q) : option Q :=
  match acc with
  | None => Some v
  | Some a => Some (Qminmax.Qmin a v)
  end.

(** [Math.max(acc, v)] for an accumulator that starts at [-Infinity]. *)
Definition mathMax (acc : option Q) (v : Q) : option Q :=
  match acc with
  | None => Some v
  | Some a => Some (Qminmax.Qmax a v)
  end.

Definition getBounds (nodes : list DiagramNode) : Bounds :=
  foldl (fun b node =>
           {| minX := mathMin (minX b) (node_x node - node_width node / 2);
              maxX := mathMax (maxX b) (node_x node + node_width node / 2);
              minY := mathMin (minY b) (node_y node - NODE_HEIGHT / 2);
              maxY := mathMax (maxY b) (node_y node + NODE_HEIGHT / 2) |})
        {| minX := None; maxX := None; minY := None; maxY := None |} nodes.

(** The graph that [render] draws for the state it reads from the store:
    nothing without metadata or without a diagram root, else what
    [renderGraph] gets from [buildGraph]. *)
Definition graphOfState (st : AppState) (fuel : nat) : option Graph :=
  match metadata st, diagramRootEntity st with
  | Some md, Some root =>
      buildGraph st root (selectedEntity st) (diagramExpandedNodes st) (entityMapOf md) md
                 fuel
  | _, _ => None
  end.

(** The [click] handler of a node [d] of the drawing. *)
Definition clickNode (d : DiagramNode) (s : State.Store) : State.Store :=
  match node_data d with
  | EntityData entity =>
      if node_isRoot d then State.selectEntity (Some entity) s
      else if node_isExpanded d then State.toggleDiagramNode (node_name d) s
      else State.selectFromDiagram (node_name d) s
  | ComplexData _ => State.toggleDiagramNode (node_name d) s
  end.

End Diagram.

(** ** Unique targets ([src/lib/relationships.ts]) *)

Module Relationships.

(** The loop of [getUniqueTargetEntities] on the pair [(seen, result)]. *)
Definition collectTargets (navProps : list ODataNavigationProperty)
  : gset string * list string :=
  foldl (fun acc nav =>
           if decide (nav_targetEntity nav ∈ fst acc) then acc
           else ({[ nav_targetEntity nav ]} ∪ fst acc,
                 (snd acc ++ [nav_targetEntity nav])%list))
        (∅, []) navProps.

(** [result.sort()] puts strings in the order of their code units; the
    sorted list of a list of strings is unique, and [merge_sort] computes
    it. *)
Definition getUniqueTargetEntities (navProps : list ODataNavigationProperty) : list string :=
  merge_sort String.le (snd (collectTargets navProps)).

End Relationships.

(** ** The split pane ([createSplitPane]) *)

Module SplitPane.
Local Open Scope Q_scope.

(** [Math.min(maxLeftWidth, Math.max(minLeftWidth, newPercent))] of the
    [mousemove] handler, for finite numbers. *)
Definition clampedPercent (minLeftWidth maxLeftWidth newPercent : Q) : Q :=
  Qminmax.Qmin maxLeftWidth (Qminmax.Qmax minLeftWidth newPercent).

End SplitPane.

(** * Properties *)

(** ** Vocabulary *)

Module Property.

(** [t] is the last dot-separated segment of [s]. *)
Definition noDot (t : string) : Prop := Js.includes "." t = false.
Definition LastDotSegment (s t : string) : Prop :=
  noDot t ∧ (s = t ∨ ∃ p, s = p ++ "." ++ t).

(** [q] occurs in [s]. *)
Definition Substring (q s : string) : Prop := ∃ a b, s = a ++ q ++ b.

(** [field] contains the lower-cased query [q], letter case ignored. *)
Definition ContainsCI (q field : string) : Prop := Substring q (Js.toLowerCase field).

(** One of the nine fields of [e] that are searched contains [q]. *)
Definition Matches (q : string) (e : ODataEntity) : Prop :=
  ContainsCI q (ent_name e)
  ∨ ContainsCI q (ent_namespace e)
  ∨ ContainsCI q (ent_fullName e)
  ∨ (∃ p, p ∈ ent_properties e ∧ ContainsCI q (prop_name p))
  ∨ (∃ p, p ∈ ent_properties e ∧ ContainsCI q (prop_type p))
  ∨ (∃ np, np ∈ ent_navigationProperties e ∧ ContainsCI q (nav_name np))
  ∨ (∃ np, np ∈ ent_navigationProperties e ∧ ContainsCI q (nav_targetEntity np))
  ∨ (∃ k, k ∈ ent_keyProperties e ∧ ContainsCI q k)
  ∨ (∃ b, ent_baseType e = Some b ∧ ContainsCI q b).

(** The three reasons for which [parseODataMetadata] throws. *)
Definition HasParserError (doc : Dom.Document) : Prop :=
  Dom.querySelector doc "parsererror" ≠ None.

Definition RootLacksEdmx (doc : Dom.Document) : Prop :=
  match Dom.documentElement doc with
  | Some root => Js.includes "edmx" (Js.toLowerCase (Dom.localName root)) = false
  | None => True
  end.

Definition NoDataServices (doc : Dom.Document) : Prop :=
  match Dom.documentElement doc with
  | Some root => Parser.findElement root "DataServices" = None
  | None => True
  end.

(** The categories a match hint can name, in priority order. *)
Inductive Category :=
| PropertyName | PropertyType | NavigationName | NavigationTarget | Namespace | KeyProperty.

Definition rank (c : Category) : nat :=
  match c with
  | PropertyName => 0
  | PropertyType => 1
  | NavigationName => 2
  | NavigationTarget => 3
  | Namespace => 4
  | KeyProperty => 5
  end.

Definition label (c : Category) : string :=
  match c with
  | PropertyName => "prop: "
  | PropertyType => "type: "
  | NavigationName => "nav: "
  | NavigationTarget => "→ "
  | Namespace => "ns: "
  | KeyProperty => "key: "
  end.

Definition CategoryMatches (q : string) (e : ODataEntity) (c : Category) : Prop :=
  match c with
  | PropertyName => ∃ p, p ∈ ent_properties e ∧ ContainsCI q (prop_name p)
  | PropertyType => ∃ p, p ∈ ent_properties e ∧ ContainsCI q (prop_type p)
  | NavigationName => ∃ np, np ∈ ent_navigationProperties e ∧ ContainsCI q (nav_name np)
  | NavigationTarget =>
      ∃ np, np ∈ ent_navigationProperties e ∧ ContainsCI q (nav_targetEntity np)
  | Namespace => ContainsCI q (ent_namespace e)
  | KeyProperty => ∃ k, k ∈ ent_keyProperties e ∧ ContainsCI q k
  end.
End Property.

(** ** Sample documents *)

(** A [NavigationProperty] element named [Orders] with the given [Type]. *)
Definition sampleNavElement (type : string) : Dom.Element :=
  Dom.mkElement (Some Parser.EDM_NS) None "NavigationProperty"
    [Dom.mkAttr None None "Name" "Orders"; Dom.mkAttr None None "Type" type] [].

(** An entity of the Northwind sample, cut down to its key property. *)
Definition sampleEntity (name : string) (navs : list ODataNavigationProperty)
    (baseType : option string) : ODataEntity :=
  {| ent_name := name;
     ent_fullName := "NorthwindModel." ++ name;
     ent_namespace := "NorthwindModel";
     ent_properties :=
       [{| prop_name := name ++ "ID"; prop_type := "Edm.Guid";
           prop_nullable := false; prop_isKey := true |}];
     ent_navigationProperties := navs;
     ent_keyProperties := [name ++ "ID"];
     ent_baseType := baseType |}.

Definition sampleNav (name type : string) : ODataNavigationProperty :=
  Parser.parseNavigationProperty
    (Dom.mkElement (Some Parser.EDM_NS) None "NavigationProperty"
       [Dom.mkAttr None None "Name" name; Dom.mkAttr None None "Type" type] []).

Definition sampleCustomer : ODataEntity :=
  sampleEntity "Customer" [sampleNav "Orders" "Collection(NorthwindModel.Order)"] None.
Definition sampleOrder : ODataEntity :=
  sampleEntity "Order" [sampleNav "Customer" "NorthwindModel.Customer"]
               (Some "NorthwindModel.Document").

Definition sampleSchema : ODataSchema :=
  {| schema_namespace := "NorthwindModel";
     schema_alias := None;
     schema_entities := [sampleCustomer; sampleOrder];
     schema_complexTypes := [];
     schema_enumTypes := [] |}.

Definition sampleMetadata : ODataMetadata :=
  {| version := "4.0";
     schemas := [sampleSchema];
     allEntities := [sampleCustomer; sampleOrder];
     allComplexTypes := [];
     allEnumTypes := [] |}.

(** The state after [md] is loaded and [query] is typed into the search box. *)
Definition withQuery (md : ODataMetadata) (query : string) : AppState :=
  State.state (State.setSearchQuery query (State.setMetadata (Some md) State.initialStore)).

(** The edge that [extractRelationships] makes of a navigation property. *)
Definition relationshipOf (e : ODataEntity) (n : ODataNavigationProperty) : Relationship :=
  {| rel_sourceEntity := ent_name e;
     rel_targetEntity := nav_targetEntity n;
     rel_navProp := nav_name n;
     rel_isCollection := nav_isCollection n |}.

(** The target of [n] is the name of an entity of [md]. *)
Definition resolves (md : ODataMetadata) (n : ODataNavigationProperty) : bool :=
  bool_decide (nav_targetEntity n ∈ List.map ent_name (allEntities md)).

(** A well-formed metadata document that has an element named
    [parsererror]. *)
Definition edmxWithParserErrorElement : string :=
  "<edmx:Edmx Version='4.0' xmlns:edmx='http://docs.oasis-open.org/odata/ns/edmx'>"
  ++ "<edmx:DataServices><parsererror/></edmx:DataServices></edmx:Edmx>".

(** The DOM of [edmxWithParserErrorElement], a well-formed document. *)
Definition edmxWithParserErrorElementDom : Dom.Document :=
  Dom.mkDocument (Some
    (Dom.mkElement (Some Parser.EDMX_NS) (Some "edmx") "Edmx"
       [Dom.mkAttr None None "Version" "4.0";
        Dom.mkAttr (Some "http://www.w3.org/2000/xmlns/") (Some "xmlns") "edmx"
                   Parser.EDMX_NS]
       [inl (Dom.mkElement (Some Parser.EDMX_NS) (Some "edmx") "DataServices" []
               [inl (Dom.mkElement None None "parsererror" [] [])])])).

(** What the browser returns for text that is not well-formed XML. *)
Definition parserErrorDocument : Dom.Document :=
  Dom.mkDocument (Some
    (Dom.mkElement (Some "http://www.mozilla.org/newlayout/xml/parsererror.xml") None
       "parsererror" [] [inr "XML Parsing Error: syntax error"])).

(** The DOM of the well-formed document [<Foo/>]. *)
Definition fooDocument : Dom.Document :=
  Dom.mkDocument (Some (Dom.mkElement None None "Foo" [] [])).

(** An XML parser that knows two documents and takes every other text for
    malformed. *)
Definition sampleParseFromString (xml : string) : Dom.Document :=
  if String.eqb xml edmxWithParserErrorElement then edmxWithParserErrorElementDom
  else if String.eqb xml "<Foo/>" then fooDocument
  else parserErrorDocument.

Definition sampleWellFormed (xml : string) : Prop :=
  xml = edmxWithParserErrorElement ∨ xml = "<Foo/>".

Module GraphProperty.
Import Diagram.

Definition itemName (item : QueueItem) : string :=
  match item with
  | EntityItem e _ => ent_name e
  | ComplexItem ct _ _ => ct_name ct
  end.

(** Every name the traversal can meet. *)
Definition universe (md : ODataMetadata) (rootEntity : ODataEntity) : gset string :=
  {[ ent_name rootEntity ]}
  ∪ list_to_set (List.map ent_name (allEntities md))
  ∪ list_to_set (List.map ct_name (allComplexTypes md)).

(** Turns of the loop still to come, at most. *)
Definition measure (U : gset string) (t : Traversal) : nat :=
  16 * size (U ∖ t_visited t) + length (t_queue t).

Definition shifted (t : Traversal) (rest : list QueueItem) : Traversal :=
  {| t_nodes := t_nodes t; t_visited := t_visited t; t_nodeMap := t_nodeMap t;
     t_queue := rest |}.

(** What [visit] establishes for the node it makes. *)
Record NodeOk (rootEntity : ODataEntity) (expandedNodes : gset string)
    (n : DiagramNode) : Prop := {
  ok_expanded : node_isExpanded n = bool_decide (node_id n ∈ expandedNodes);
  ok_root : node_isRoot n = true → node_id n = ent_name rootEntity;
  ok_width : node_width n = calculateNodeWidth (node_displayName n);
}.

Definition RootFirst (rootEntity : ODataEntity) (t : Traversal) : Prop :=
  match t_nodes t with
  | [] => t_queue t = [EntityItem rootEntity 0] ∧ t_visited t = ∅
  | r :: _ => node_id r = ent_name rootEntity ∧ node_depth r = 0%nat
              ∧ node_isRoot r = true
  end.

Record Invariant (U : gset string) (rootEntity : ODataEntity)
    (expandedNodes : gset string) (t : Traversal) : Prop := {
  inv_visited : t_visited t ⊆ U;
  inv_queue : Forall (fun item => itemName item ∈ U) (t_queue t);
  inv_nodup : NoDup (List.map node_id (t_nodes t));
  inv_ids : ∀ n, n ∈ t_nodes t → node_id n ∈ t_visited t;
  inv_root : RootFirst rootEntity t;
  inv_nodes : Forall (NodeOk rootEntity expandedNodes) (t_nodes t);
}.

(** The identifier behind a node reference. *)
Definition idOf (nodes : list DiagramNode) (ref : NodeRef) : string :=
  match nodes !! ref with
  | Some n => node_id n
  | None => ""
  end.

Definition linkEnds (nodes : list DiagramNode) (l : DiagramLink) : string * string :=
  (idOf nodes (link_source l), idOf nodes (link_target l)).

(** The same two identifiers, in either direction. *)
Definition SamePair (p q : string * string) : Prop :=
  (fst p = fst q ∧ snd p = snd q) ∨ (fst p = snd q ∧ snd p = fst q).

Definition keyOfLink (nodes : list DiagramNode) (l : DiagramLink) : string :=
  linkKey (idOf nodes (link_source l)) (idOf nodes (link_target l)).

Record LinksOk (nodes : list DiagramNode) (acc : gset string * list DiagramLink)
  : Prop := {
  links_keys : ∀ l, l ∈ snd acc → keyOfLink nodes l ∈ fst acc;
  links_nodup : NoDup (List.map (keyOfLink nodes) (snd acc));
  links_source : ∀ l, l ∈ snd acc →
    ∃ n, nodes !! link_source l = Some n ∧ node_isExpanded n || node_isRoot n = true;
  links_distinct : ∀ l, l ∈ snd acc → link_source l ≠ link_target l;
}.
End GraphProperty.

Definition sampleStore : AppState :=
  State.state (State.setMetadata (Some sampleMetadata) State.initialStore).

Module LayoutProperty.
Import Diagram.
Local Open Scope Q_scope.

Definition leftEdge (n : DiagramNode) : Q := node_x n - node_width n / 2.
Definition rightEdge (n : DiagramNode) : Q := node_x n + node_width n / 2.

(** A node without its coordinates, which is all that layout changes. *)
Definition shapeOf (n : DiagramNode) : DiagramNode := setPosition n 0 0.

(** The level [(depth, level)] has been laid out in [nodes]. *)
Record LevelPlaced (depth : nat) (level : list nat) (nodes : list DiagramNode)
  : Prop := {
  placed_y : ∀ r n, r ∈ level → nodes !! r = Some n →
                    node_y n = inject_Z (Z.of_nat depth) * LEVEL_HEIGHT;
  placed_order : ∀ a b na nb, a ∈ level → b ∈ level → (a < b)%nat →
                              nodes !! a = Some na → nodes !! b = Some nb →
                              rightEdge na + NODE_SPACING <= leftEdge nb;
}.

(** What [groupByDepth] returns for [nodes]. *)
Record GroupsOk (nodes : list DiagramNode) (byDepth : list (nat * list nat))
  : Prop := {
  groups_keys : NoDup (List.map fst byDepth);
  groups_sorted : ∀ d level, (d, level) ∈ byDepth → StronglySorted lt level;
  groups_depth : ∀ d level r, (d, level) ∈ byDepth → r ∈ level →
                              ∃ n, nodes !! r = Some n ∧ node_depth n = d;
  groups_cover : ∀ i n, nodes !! i = Some n →
                        ∃ level, (node_depth n, level) ∈ byDepth ∧ i ∈ level;
}.
End LayoutProperty.

Module StoreProperty.
Import State.

(** The stores that the public methods of the store lead to. *)
Inductive Reachable : Store → Prop :=
| reach_initial : Reachable initialStore
| reach_setMetadata md s : Reachable s → Reachable (setMetadata md s)
| reach_selectEntity e s : Reachable s → Reachable (selectEntity e s)
| reach_startDiagramFrom e s : Reachable s → Reachable (startDiagramFrom e s)
| reach_toggleDiagramNode n s : Reachable s → Reachable (toggleDiagramNode n s)
| reach_selectFromDiagram n s : Reachable s → Reachable (selectFromDiagram n s)
| reach_resetDiagram s : Reachable s → Reachable (resetDiagram s)
| reach_setSearchQuery q s : Reachable s → Reachable (setSearchQuery q s)
| reach_setError e s : Reachable s → Reachable (setError e s)
| reach_setLoading l s : Reachable s → Reachable (setLoading l s)
| reach_toggleNamespaceCollapsed n s : Reachable s → Reachable (toggleNamespaceCollapsed n s)
| reach_navigateInto p t s : Reachable s → Reachable (navigateInto p t s)
| reach_navigateBack s : Reachable s → Reachable (navigateBack s)
| reach_navigateToIndex i s : Reachable s → Reachable (navigateToIndex i s).

(** The listeners have been shown the state the store is in. *)
Definition InSync (s : Store) : Prop :=
  (notified s = [] ∧ state s = initialState) ∨ last (notified s) = Some (state s).

(** A breadcrumb step as [navigateInto] makes it. *)
Definition StepOk (step : NavigationPathStep) : Prop :=
  step_kind step = StepComplex
  ∧ step_displayName step = Js.stripComplexPrefix (step_typeName step).

(** The key under which [getEntitiesByNamespace] files an entity. *)
Definition namespaceKey (e : ODataEntity) : string :=
  if String.eqb (ent_namespace e) "" then "Default" else ent_namespace e.

(** The same state with another set of expanded nodes. *)
Definition withExpanded (st : AppState) (expanded : gset string) : AppState :=
  {| metadata := metadata st;
     selectedEntity := selectedEntity st;
     searchQuery := searchQuery st;
     error := error st;
     loading := loading st;
     collapsedNamespaces := collapsedNamespaces st;
     diagramRootEntity := diagramRootEntity st;
     diagramExpandedNodes := expanded;
     navigationPath := navigationPath st |}.

(** The same state with another navigation path. *)
Definition withPath (st : AppState) (path : list NavigationPathStep) : AppState :=
  {| metadata := metadata st;
     selectedEntity := selectedEntity st;
     searchQuery := searchQuery st;
     error := error st;
     loading := loading st;
     collapsedNamespaces := collapsedNamespaces st;
     diagramRootEntity := diagramRootEntity st;
     diagramExpandedNodes := diagramExpandedNodes st;
     navigationPath := path |}.
End StoreProperty.

Module ParseProperty.

(** What the parser guarantees of a property, given the key names of its
    owner. *)
Definition PropertyOk (keys : list string) (p : ODataProperty) : Prop :=
  prop_name p ≠ "" ∧ prop_type p ≠ ""
  ∧ (prop_isKey p = true ↔ prop_name p ∈ keys).

Definition NavigationOk (n : ODataNavigationProperty) : Prop :=
  nav_name n ≠ ""
  ∧ nav_partner n ≠ Some ""
  ∧ nav_referentialConstraints n ≠ Some []
  ∧ Property.noDot (nav_targetEntity n).

Definition EntityOk (e : ODataEntity) : Prop :=
  ent_name e ≠ "" ∧ ent_namespace e ≠ ""
  ∧ ent_fullName e = ent_namespace e ++ "." ++ ent_name e
  ∧ ent_baseType e ≠ Some ""
  ∧ Forall (fun k => k ≠ "") (ent_keyProperties e)
  ∧ Forall (PropertyOk (ent_keyProperties e)) (ent_properties e)
  ∧ Forall NavigationOk (ent_navigationProperties e).

Definition keysOf (ct : ODataComplexType) : list string :=
  match ct_keyProperty ct with
  | Some k => [k]
  | None => []
  end.

Definition ComplexTypeOk (ct : ODataComplexType) : Prop :=
  ct_name ct ≠ "" ∧ ct_namespace ct ≠ ""
  ∧ ct_fullName ct = ct_namespace ct ++ "." ++ ct_name ct
  ∧ ct_baseType ct ≠ Some ""
  ∧ ct_keyProperty ct ≠ Some ""
  ∧ Forall (PropertyOk (keysOf ct)) (ct_properties ct)
  ∧ Forall NavigationOk (ct_navigationProperties ct).

Definition EnumTypeOk (en : ODataEnumType) : Prop :=
  enum_name en ≠ "" ∧ enum_namespace en ≠ ""
  ∧ enum_fullName en = enum_namespace en ++ "." ++ enum_name en
  ∧ enum_underlyingType en ≠ Some ""
  ∧ Forall (fun m => mem_name m ≠ "" ∧ mem_value m ≠ Some "") (enum_members en).

Definition SchemaOk (s : ODataSchema) : Prop :=
  schema_namespace s ≠ "" ∧ schema_alias s ≠ Some ""
  ∧ Forall (fun e => EntityOk e ∧ ent_namespace e = schema_namespace s) (schema_entities s)
  ∧ Forall (fun ct => ComplexTypeOk ct ∧ ct_namespace ct = schema_namespace s)
           (schema_complexTypes s)
  ∧ Forall (fun en => EnumTypeOk en ∧ enum_namespace en = schema_namespace s)
           (schema_enumTypes s).

(** A complex type under a simple identifier, as CSDL names are. *)
Definition SimplyNamed (ct : ODataComplexType) : Prop :=
  ct_name ct ≠ "" ∧ Property.noDot (ct_name ct)
  ∧ ct_fullName ct = ct_namespace ct ++ "." ++ ct_name ct.

End ParseProperty.

Module ExplorationProperty.
Import Diagram GraphProperty.

Definition itemDepth (item : QueueItem) : nat :=
  match item with
  | EntityItem _ depth => depth
  | ComplexItem _ depth _ => depth
  end.

(** The node is drawn with its neighbours: [node.isExpanded || node.isRoot]. *)
Definition opens (n : DiagramNode) : bool := node_isExpanded n || node_isRoot n.

(** The names a node leads to: the targets of its navigation properties and
    the types of its nested collections. *)
Definition childNames (store : AppState) (n : DiagramNode) : list string :=
  (List.map nav_targetEntity (nodeNavigationProperties n)
   ++ List.map snd (getNestedCollections store (nodeProperties n)))%list.

(** [p] is the reason why [c] is in the graph. *)
Definition ParentOf (store : AppState) (p c : DiagramNode) : Prop :=
  opens p = true ∧ node_id c ∈ childNames store p ∧ node_depth c = S (node_depth p).

(** The [maxChildren] of the node's turn of the loop. *)
Definition maxChildrenOf (n : DiagramNode) : nat :=
  if node_isRoot n then 15
  else if node_isExpanded n then
         match node_data n with
         | EntityData _ => 8
         | ComplexData _ => 6
         end
       else 0.

Definition ItemDeclared (md : ODataMetadata) (rootEntity : ODataEntity)
    (item : QueueItem) : Prop :=
  match item with
  | EntityItem e _ => e = rootEntity ∨ e ∈ allEntities md
  | ComplexItem ct _ _ => ct ∈ allComplexTypes md
  end.

(** What a node says of the type it stands for. *)
Record NodeShows (store : AppState) (md : ODataMetadata) (rootEntity : ODataEntity)
    (selectedEntity : option ODataEntity) (n : DiagramNode) : Prop := {
  shows_name : node_name n = node_id n;
  shows_height : node_height n = NODE_HEIGHT;
  shows_relationships :
    node_relationshipCount n = length (nodeNavigationProperties n);
  shows_collections :
    node_collectionCount n = length (getNestedCollections store (nodeProperties n));
  shows_data :
    match node_data n with
    | EntityData e =>
        node_id n = ent_name e ∧ node_displayName n = ent_name e
        ∧ (e = rootEntity ∨ e ∈ allEntities md)
        ∧ node_isRoot n = String.eqb (ent_name e) (ent_name rootEntity)
        ∧ node_isSelected n
          = match selectedEntity with
            | Some sel => String.eqb (ent_name sel) (ent_name e)
            | None => false
            end
    | ComplexData ct =>
        node_id n = ct_name ct
        ∧ node_displayName n = Js.stripComplexPrefix (ct_name ct)
        ∧ ct ∈ allComplexTypes md
        ∧ node_isRoot n = false ∧ node_isSelected n = false
    end;
}.

(** Why an item is in the queue. *)
Definition QueuedBy (store : AppState) (nodes : list DiagramNode) (item : QueueItem)
  : Prop :=
  nodes = []
  ∨ ∃ p, p ∈ nodes ∧ opens p = true ∧ itemName item ∈ childNames store p
         ∧ itemDepth item = S (node_depth p).

Record Explored (store : AppState) (md : ODataMetadata) (rootEntity : ODataEntity)
    (selectedEntity : option ODataEntity) (t : Traversal) : Prop := {
  ex_shows : Forall (NodeShows store md rootEntity selectedEntity) (t_nodes t);
  ex_map : ∀ k i, t_nodeMap t !! k = Some i
                  ↔ ∃ n, t_nodes t !! i = Some n ∧ node_id n = k;
  ex_visited : ∀ k, k ∈ t_visited t ↔ k ∈ List.map node_id (t_nodes t);
  ex_levels : StronglySorted le (List.map node_depth (t_nodes t)
                                 ++ List.map itemDepth (t_queue t))%list;
  ex_window : ∀ a b, a ∈ t_queue t → b ∈ t_queue t → (itemDepth b ≤ S (itemDepth a))%nat;
  ex_parent : ∀ i c, t_nodes t !! i = Some c → (0 < i)%nat →
                ∃ j p, (j < i)%nat ∧ t_nodes t !! j = Some p ∧ ParentOf store p c;
  ex_queue : Forall (fun item => ItemDeclared md rootEntity item
                                 ∧ QueuedBy store (t_nodes t) item) (t_queue t);
  ex_count : (length (t_nodes t) + length (t_queue t)
              ≤ 1 + sum_list (maxChildrenOf <$> t_nodes t))%nat;
}.

(** The items that a node's turn of the loop appends to the queue. *)
Definition ChildrenOf (store : AppState) (md : ODataMetadata) (rootEntity : ODataEntity)
    (node : DiagramNode) (rest queue : list QueueItem) : Prop :=
  ∃ added,
    queue = (rest ++ added)%list
    ∧ (length added ≤ maxChildrenOf node)%nat
    ∧ Forall (fun item => itemDepth item = S (node_depth node)
                          ∧ (opens node = true ∧ itemName item ∈ childNames store node)
                          ∧ ItemDeclared md rootEntity item) added.

End ExplorationProperty.

Module LinkProperty.
Import Diagram GraphProperty ExplorationProperty.

(** Where a link comes from: a navigation property or a nested collection
    of its source. *)
Definition LinkJustified (store : AppState) (nodes : list DiagramNode) (l : DiagramLink)
  : Prop :=
  ∃ source target,
    nodes !! link_source l = Some source
    ∧ nodes !! link_target l = Some target
    ∧ link_source l ≠ link_target l
    ∧ opens source = true
    ∧ ((link_isNested l = false
        ∧ ∃ nav, nav ∈ nodeNavigationProperties source
                 ∧ nav_targetEntity nav = node_id target
                 ∧ link_isCollection l = nav_isCollection nav
                 ∧ link_navProperty l = nav_name nav)
       ∨ (link_isNested l = true ∧ link_isCollection l = true
          ∧ (link_navProperty l, node_id target)
            ∈ getNestedCollections store (nodeProperties source))).

(** The key under which the link pass files the pair of [node] and the node
    named [targetName], when there is such a node other than [node]. *)
Definition keyFor (nodes : list DiagramNode) (nodeMap : gmap string nat) (ref : nat)
    (node : DiagramNode) (targetName : string) : option string :=
  match nodeMap !! targetName with
  | Some targetRef =>
      match nodes !! targetRef with
      | Some targetNode =>
          if (targetRef =? ref)%nat then None
          else Some (linkKey (node_id node) (node_id targetNode))
      | None => None
      end
  | None => None
  end.

(** [nodeMap] sends each identifier to its node. *)
Definition MapOk (nodes : list DiagramNode) (nodeMap : gmap string nat) : Prop :=
  ∀ k i, nodeMap !! k = Some i ↔ ∃ n, nodes !! i = Some n ∧ node_id n = k.

Record LinksSound (store : AppState) (nodes : list DiagramNode)
    (acc : gset string * list DiagramLink) : Prop := {
  sound_links : Forall (LinkJustified store nodes) (snd acc);
  sound_keys : ∀ key, key ∈ fst acc → ∃ l, l ∈ snd acc ∧ keyOfLink nodes l = key;
}.

Definition noPipe (s : string) : Prop := Js.includes "|" s = false.

End LinkProperty.

Module RowProperty.
Import Diagram LayoutProperty.
Local Open Scope Q_scope.

(** The row of the nodes [level] is laid out around [x = 0] with gaps of
    [NODE_SPACING]. *)
Record RowCentred (level : list nat) (nodes : list DiagramNode) : Prop := {
  row_gap : ∀ k a b na nb,
    level !! k = Some a → level !! S k = Some b →
    nodes !! a = Some na → nodes !! b = Some nb →
    rightEdge na + NODE_SPACING == leftEdge nb;
  row_ends : ∀ a b na nb,
    head level = Some a → last level = Some b →
    nodes !! a = Some na → nodes !! b = Some nb →
    leftEdge na + rightEdge nb == 0;
}.

(** The sum that [totalWidth] folds, from the start value [s]. *)
Definition rowWidth (nodes : list DiagramNode) (s : Q) (level : list nat) : Q :=
  foldl (fun sum ref => sum + widthOf nodes ref + NODE_SPACING) s level.

End RowProperty.

Module BoundsProperty.
Import Diagram.
Local Open Scope Q_scope.

(** [b] is the least number below every [f n], attained by one of them. *)
Definition LeastOf (f : DiagramNode → Q) (nodes : list DiagramNode) (b : option Q) : Prop :=
  match nodes with
  | [] => b = None
  | _ :: _ => ∃ v, b = Some v ∧ (∀ n, n ∈ nodes → v <= f n) ∧ (∃ n, n ∈ nodes ∧ v = f n)
  end.

Definition GreatestOf (f : DiagramNode → Q) (nodes : list DiagramNode) (b : option Q)
  : Prop :=
  match nodes with
  | [] => b = None
  | _ :: _ => ∃ v, b = Some v ∧ (∀ n, n ∈ nodes → f n <= v) ∧ (∃ n, n ∈ nodes ∧ v = f n)
  end.

Definition topEdge (n : DiagramNode) : Q := node_y n - NODE_HEIGHT / 2.
Definition bottomEdge (n : DiagramNode) : Q := node_y n + NODE_HEIGHT / 2.

End BoundsProperty.

(** ** A sample shop *)

(** An element of the EDM namespace with plain attributes. *)
Definition edmElement (name : string) (attrs : list (string * string))
    (kids : list Dom.Element) : Dom.Element :=
  Dom.mkElement (Some Parser.EDM_NS) None name
    (List.map (fun a => Dom.mkAttr None None (fst a) (snd a)) attrs) (List.map inl kids).

(** A metadata document with two entity types and one complex type. *)
Definition shopEdmx : Dom.Document :=
  Dom.mkDocument (Some
    (Dom.mkElement (Some Parser.EDMX_NS) (Some "edmx") "Edmx"
       [Dom.mkAttr None None "Version" "4.01"]
       [inl (Dom.mkElement (Some Parser.EDMX_NS) (Some "edmx") "DataServices" []
          [inl (edmElement "Schema" [("Namespace", "Shop")]
             [edmElement "EntityType" [("Name", "Customer")]
                [edmElement "Key" [] [edmElement "PropertyRef" [("Name", "Id")] []];
                 edmElement "Property"
                   [("Name", "Id"); ("Type", "Edm.Guid"); ("Nullable", "false")] [];
                 edmElement "Property"
                   [("Name", "Addresses"); ("Type", "Collection(Shop.c_Address)")] [];
                 edmElement "NavigationProperty"
                   [("Name", "Orders"); ("Type", "Collection(Shop.Order)")] []];
              edmElement "EntityType" [("Name", "Order")]
                [edmElement "Property" [("Name", "Id")] [];
                 edmElement "NavigationProperty"
                   [("Name", "Customer"); ("Type", "Shop.Customer"); ("Partner", "Orders")]
                   [edmElement "ReferentialConstraint"
                      [("Property", "CustomerId"); ("ReferencedProperty", "Id")] []]];
              edmElement "ComplexType" [("Name", "c_Address")]
                [edmElement "Property" [("Name", "City"); ("Type", "Edm.String")] []]])])])).

Definition shopMetadata : ODataMetadata :=
  match Parser.parseODataMetadata shopEdmx with
  | Ok md => md
  | Throw _ => sampleMetadata
  end.

Definition shopCustomer : ODataEntity := List.nth 0 (allEntities shopMetadata) sampleCustomer.

(** The store after the shop is loaded, and after [Customer] is then
    clicked in the sidebar. *)
Definition shopStore : State.Store := State.setMetadata (Some shopMetadata) State.initialStore.
Definition shopDiagram : State.Store := State.startDiagramFrom shopCustomer shopStore.

(** ** Proofs *)

Import Diagram GraphProperty LayoutProperty.

#[local] Set Warnings "-clear-no-such-hyp".

Lemma append_cons (x : ascii) (a b : string) : String x a ++ b = String x (a ++ b).
Proof. reflexivity. Qed.

Lemma append_nil_l (a : string) : "" ++ a = a.
Proof. reflexivity. Qed.

Lemma append_assoc (a b c : string) : (a ++ b) ++ c = a ++ (b ++ c).
Proof.
  induction a as [|x a IH]; [reflexivity |]. by rewrite !append_cons, IH.
Qed.

Lemma append_nil_r (a : string) : a ++ "" = a.
Proof.
  induction a as [|x a IH]; [reflexivity |]. by rewrite append_cons, IH.
Qed.

Lemma length_append (a b : string) :
  String.length (a ++ b) = (String.length a + String.length b)%nat.
Proof.
  induction a as [|x a IH]; [reflexivity |]. rewrite append_cons. simpl. by rewrite IH.
Qed.

Lemma startsWith_spec (p s : string) :
  Js.startsWith p s = true ↔ ∃ r, s = p ++ r.
Proof.
  revert s. induction p as [|a p IH]; intros s; simpl.
  - split; [intros _; by exists s | done].
  - destruct s as [|b s].
    + split; [done | intros [r Hr]; discriminate].
    + destruct (Ascii.eqb_spec a b) as [->|Hne].
      * rewrite IH. split; intros [r Hr]; exists r;
          [by rewrite append_cons, Hr | rewrite append_cons in Hr; by injection Hr].
      * split; [done | intros [r Hr]; rewrite append_cons in Hr; injection Hr; congruence].
Qed.

Lemma startsWith_app (p r : string) : Js.startsWith p (p ++ r) = true.
Proof. apply startsWith_spec. by exists r. Qed.


Lemma includes_spec (q s : string) : Js.includes q s = true ↔ Property.Substring q s.
Proof.
  unfold Property.Substring. induction s as [|c s IH].
  - simpl. rewrite orb_false_r, startsWith_spec. split.
    + intros [r Hr]. by exists "", r.
    + intros (a & b & Hab). destruct a; [by exists b | by rewrite append_cons in Hab].
  - cbn [Js.includes]. rewrite orb_true_iff, IH, startsWith_spec. split.
    + intros [[r Hr] | (a & b & Hab)].
      * by exists "", r.
      * exists (String c a), b. by rewrite append_cons, Hab.
    + intros (a & b & Hab). destruct a as [|x a].
      * left. by exists b.
      * right. exists a, b. rewrite append_cons in Hab. by injection Hab.
Qed.

Lemma split_nonempty (sep : ascii) (s : string) : Js.split sep s ≠ [].
Proof.
  destruct s as [|c s]; simpl; [done |].
  destruct (Ascii.eqb c sep); [done |]. by destruct (Js.split sep s).
Qed.

Lemma noDot_cons (c : ascii) (s : string) :
  Property.noDot (String c s) ↔ c ≠ "."%char ∧ Property.noDot s.
Proof.
  unfold Property.noDot. cbn [Js.includes Js.startsWith].
  destruct (Ascii.eqb_spec "." c) as [<-|Hne]; simpl.
  - split; [done | by intros [? _]].
  - split; [intros H; split; [congruence | done] | by intros [_ ?]].
Qed.

Lemma split_unfold (s : string) :
  (Property.noDot s ∧ Js.split "." s = [s])
  ∨ (∃ seg s2, Property.noDot seg ∧ s = seg ++ "." ++ s2
               ∧ Js.split "." s = seg :: Js.split "." s2).
Proof.
  induction s as [|c s IH].
  - left. by split.
  - simpl. destruct (Ascii.eqb_spec c ".") as [->|Hne].
    + right. exists "", s. by split.
    + destruct IH as [[Hnd Hs] | (seg & s2 & Hnd & Hs & Hsp)].
      * left. rewrite Hs. split; [by apply noDot_cons | done].
      * right. exists (String c seg), s2. rewrite Hsp.
        split; [by apply noDot_cons |]. split; [by rewrite append_cons, Hs | done].
Qed.

Lemma last_split_segment (s : string) :
  Property.LastDotSegment s (List.last (Js.split "." s) "").
Proof.
  remember (String.length s) as n eqn:Hn. revert s Hn.
  induction n as [n IH] using lt_wf_ind. intros s Hn.
  destruct (split_unfold s) as [[Hnd Hs] | (seg & s2 & Hnd & Hs & Hsp)].
  - rewrite Hs. simpl. split; [done | by left].
  - rewrite Hsp.
    assert (Hlast : List.last (seg :: Js.split "." s2) "" = List.last (Js.split "." s2) "").
    { pose proof (split_nonempty "." s2). simpl. by destruct (Js.split "." s2). }
    rewrite Hlast.
    assert (Hlen : (String.length s2 < n)%nat).
    { subst n s. rewrite !length_append. simpl. lia. }
    destruct (IH _ Hlen s2 eq_refl) as [Ht Hcase]. split; [done |].
    right. destruct Hcase as [Heq | [p Hp]].
    + exists seg. by rewrite Hs, <- Heq.
    + exists (seg ++ "." ++ p). rewrite Hs, Hp at 1. by rewrite !append_assoc.
Qed.

(** *** The regular expressions of the parser *)

Lemma upToLastParen_app (X : string) :
  Js.noLineTerminator X = true → Js.upToLastParen (X ++ ")") = Some X.
Proof.
  induction X as [|c X IH]; intros Hnl; [reflexivity |].
  simpl in Hnl. apply andb_true_iff in Hnl as [Hc HX].
  rewrite append_cons. simpl. apply negb_true_iff in Hc. rewrite Hc.
  by rewrite (IH HX).
Qed.

Lemma matchCollection_wrapped (X : string) :
  X ≠ "" → Js.noLineTerminator X = true →
  Js.matchCollection ("Collection(" ++ X ++ ")") = Some X.
Proof.
  intros Hne Hnl. destruct X as [|c X]; [done |].
  simpl in Hnl. apply andb_true_iff in Hnl as [Hc HX]. apply negb_true_iff in Hc.
  change (Js.matchCollection ("Collection(" ++ String c X ++ ")"))
    with (match Js.captureGroup (String c (X ++ ")")) with
          | Some t => Some t
          | None => Js.matchCollection ("ollection(" ++ String c X ++ ")")
          end).
  unfold Js.captureGroup. by rewrite Hc, (upToLastParen_app X HX).
Qed.

(** Claim C4, as amended.  A parsed navigation property keeps the raw [Type]
    string in [type].  When the raw string is [Collection(X)] for a non-empty [X]
    on one line, [isCollection] is true and [targetEntity] is the last
    dot-separated segment of [X].  More generally, when the raw string begins
    with [Collection(], [isCollection] is true and [targetEntity] is the last
    dot-separated segment of what [/Collection\((.+)\)/] captures, or of the raw
    string itself when the expression does not match (as for [Collection()]).
    When the raw string does not begin with [Collection(], [isCollection] is
    false and [targetEntity] is the last dot-separated segment of the raw
    string. *)
Theorem navigation_target_resolution (el : Dom.Element) :
  let N := Parser.parseNavigationProperty el in
  let raw := Js.orDefault (Dom.getAttribute el "Type") "" in
  nav_type N = raw
  ∧ (∀ X, X ≠ "" → Js.noLineTerminator X = true → raw = "Collection(" ++ X ++ ")" →
          nav_isCollection N = true ∧ Property.LastDotSegment X (nav_targetEntity N))
  ∧ (Js.startsWith "Collection(" raw = true →
       nav_isCollection N = true
       ∧ (∀ X, Js.matchCollection raw = Some X → Property.LastDotSegment X (nav_targetEntity N))
       ∧ (Js.matchCollection raw = None → Property.LastDotSegment raw (nav_targetEntity N)))
  ∧ (Js.startsWith "Collection(" raw = false →
       nav_isCollection N = false ∧ Property.LastDotSegment raw (nav_targetEntity N)).
Proof.
  intros N raw. subst N. cbn [Parser.parseNavigationProperty nav_type nav_isCollection
                               nav_targetEntity]. fold raw.
  unfold Parser.targetOfType, Parser.isCollectionType.
  split; [reflexivity |]. split; [| split].
  - intros X Hne Hnl Hraw.
    assert (Hsw : Js.startsWith "Collection(" raw = true)
      by (rewrite Hraw; apply startsWith_app).
    rewrite Hsw, Hraw, (matchCollection_wrapped X Hne Hnl).
    split; [done | apply last_split_segment].
  - intros Hsw. rewrite Hsw. split; [done |]. split.
    + intros X HX. rewrite HX. apply last_split_segment.
    + intros HX. rewrite HX. apply last_split_segment.
  - intros Hsw. rewrite Hsw. split; [done | apply last_split_segment].
Qed.

Lemma navigation_target_resolution_witness :
  let N := Parser.parseNavigationProperty (sampleNavElement "Collection(NorthwindModel.Order)") in
  (nav_isCollection N = true ∧ Property.LastDotSegment "NorthwindModel.Order" (nav_targetEntity N))
  ∧ nav_targetEntity N = "Order".
Proof.
  split; [| reflexivity].
  apply (navigation_target_resolution (sampleNavElement "Collection(NorthwindModel.Order)"));
    [discriminate | reflexivity | reflexivity].
Defined.

Lemma navigation_target_empty_collection :
  ¬ (∀ (el : Dom.Element) (X : string),
       let N := Parser.parseNavigationProperty el in
       nav_type N = "Collection(" ++ X ++ ")" →
       nav_isCollection N = true ∧ Property.LastDotSegment X (nav_targetEntity N)).
Proof.
  intros H. destruct (H (sampleNavElement "Collection()") "" eq_refl) as [_ [_ Hseg]].
  destruct Hseg as [Heq | [p Hp]]; [discriminate |].
  destruct p; discriminate.
Qed.

(** *** Search *)

Lemma lowerChar_whiteSpace (c : ascii) :
  Js.isWhiteSpace (Js.lowerChar c) = Js.isWhiteSpace c.
Proof. destruct c as [[] [] [] [] [] [] [] []]; reflexivity. Qed.

Lemma toLowerCase_trimStart (s : string) :
  Js.trimStart (Js.toLowerCase s) = Js.toLowerCase (Js.trimStart s).
Proof.
  induction s as [|c s IH]; [reflexivity |]. simpl.
  rewrite lowerChar_whiteSpace. by destruct (Js.isWhiteSpace c).
Qed.

Lemma toLowerCase_trimEnd (s : string) :
  Js.trimEnd (Js.toLowerCase s) = Js.toLowerCase (Js.trimEnd s).
Proof.
  induction s as [|c s IH]; [reflexivity |]. simpl. rewrite IH.
  destruct (Js.trimEnd s) as [|d t]; simpl; [| reflexivity].
  rewrite lowerChar_whiteSpace. by destruct (Js.isWhiteSpace c).
Qed.

Lemma toLowerCase_trim (s : string) :
  Js.trim (Js.toLowerCase s) = Js.toLowerCase (Js.trim s).
Proof. unfold Js.trim. by rewrite toLowerCase_trimStart, toLowerCase_trimEnd. Qed.

Lemma substring_of_empty (q : string) : q ≠ "" → ¬ Property.Substring q "".
Proof.
  intros Hq (a & b & Hab). destruct a; [| discriminate].
  destruct q; [done | discriminate].
Qed.

Lemma existsb_includes {A : Type} (f : A → string) (q : string) (l : list A) :
  existsb (fun x => Js.includes q (f x)) l = true ↔ ∃ x, x ∈ l ∧ Property.Substring q (f x).
Proof.
  rewrite existsb_exists. split; intros (x & Hx & Hq); exists x.
  - split; [by apply list_elem_of_In | by apply includes_spec].
  - split; [by apply list_elem_of_In | by apply includes_spec].
Qed.

Lemma entityMatches_spec (q : string) (e : ODataEntity) :
  q ≠ "" → State.entityMatches q e = true ↔ Property.Matches q e.
Proof.
  intros Hq. unfold State.entityMatches, Property.Matches.
  set (base := match ent_baseType e with Some _ => _ | None => false end).
  assert (Hbase : base = true ↔ ∃ b, ent_baseType e = Some b ∧ Property.ContainsCI q b).
  { subst base. unfold Property.ContainsCI. destruct (ent_baseType e) as [b|].
    - destruct (String.eqb_spec b "") as [->|Hb].
      + split; [done |]. intros (b' & [= <-] & Hsub). by apply substring_of_empty in Hsub.
      + destruct (Js.includes q (Js.toLowerCase b)) eqn:Hinc.
        * split; [| done]. intros _. exists b. split; [done | by apply includes_spec].
        * split; [done |]. intros (b' & [= <-] & Hsub).
          apply includes_spec in Hsub. congruence.
    - split; [done |]. by intros (b' & ? & _). }
  rewrite <- Hbase. unfold Property.ContainsCI.
  rewrite <- !(existsb_includes _ q), <- !includes_spec.
  repeat match goal with
         | |- context [if ?b then true else _] => destruct b
         end; intuition congruence.
Qed.

Lemma filter_sublist {A : Type} (f : A → bool) (l : list A) :
  sublist (List.filter f l) l.
Proof.
  induction l as [|x l IH]; simpl; [constructor |].
  destruct (f x); by constructor.
Qed.

(** Claim C5.  With metadata loaded, the filter works on the query trimmed and
    lower-cased (in either order).  When that is empty the result is
    [allEntities] itself; otherwise it is [allEntities] filtered, in the original
    order, by a test that holds exactly for the entities of which the name, the
    namespace, the full name, a property name, a property type, a
    navigation-property name, a navigation-property target, a key-property name
    or the base type contains the query, letter case ignored.  In both cases the
    result is a subsequence of [allEntities]. *)
Theorem filter_contract (st : AppState) (md : ODataMetadata) :
  metadata st = Some md →
  let q := Js.toLowerCase (Js.trim (searchQuery st)) in
  q = Js.trim (Js.toLowerCase (searchQuery st))
  ∧ (q = "" → State.getFilteredEntities st = allEntities md)
  ∧ (q ≠ "" →
       ∃ keep : ODataEntity → bool,
         (∀ e, keep e = true ↔ Property.Matches q e)
         ∧ State.getFilteredEntities st = List.filter keep (allEntities md))
  ∧ sublist (State.getFilteredEntities st) (allEntities md).
Proof.
  intros Hmd q. subst q. rewrite <- toLowerCase_trim.
  unfold State.getFilteredEntities. rewrite Hmd.
  set (q := Js.trim (Js.toLowerCase (searchQuery st))).
  split; [reflexivity |]. destruct (String.eqb_spec q "") as [Hq|Hq].
  - split; [done |]. split; [done | reflexivity].
  - split; [done |]. split.
    + intros _. exists (State.entityMatches q). split; [| reflexivity].
      intros e. by apply entityMatches_spec.
    + apply filter_sublist.
Qed.

Lemma filter_contract_witness :
  Js.toLowerCase (Js.trim "  GUID ") = "guid"
  ∧ ∃ keep : ODataEntity → bool,
      (∀ e, keep e = true ↔ Property.Matches "guid" e)
      ∧ State.getFilteredEntities (withQuery sampleMetadata "  GUID ")
        = List.filter keep (allEntities sampleMetadata).
Proof.
  split; [reflexivity |].
  apply (filter_contract (withQuery sampleMetadata "  GUID ") sampleMetadata eq_refl).
  discriminate.
Defined.

(** *** Match hints *)

Lemma find_includes_some {A : Type} (f : A → string) (q : string) (l : list A) (x : A) :
  List.find (fun x => Js.includes q (f x)) l = Some x → x ∈ l ∧ Property.Substring q (f x).
Proof.
  intros H. apply find_some in H as [Hin Hq].
  split; [by apply list_elem_of_In | by apply includes_spec].
Qed.

Lemma find_includes_none {A : Type} (f : A → string) (q : string) (l : list A) :
  List.find (fun x => Js.includes q (f x)) l = None →
  ¬ ∃ x, x ∈ l ∧ Property.Substring q (f x).
Proof.
  intros H (x & Hin & Hq). apply list_elem_of_In in Hin.
  apply includes_spec in Hq. pose proof (find_none _ _ H x Hin) as Hx.
  simpl in Hx. congruence.
Qed.

Lemma toLowerCase_nonempty (s : string) : s ≠ "" → Js.toLowerCase s ≠ "".
Proof. by destruct s. Qed.

Ltac earlier_category Hfirst c tac :=
  exfalso; apply (Hfirst c); [simpl; lia | tac].

(** Claim C6.  For a non-empty query, [getMatchHint] gives no hint when the
    entity's own name contains the query, letter case ignored.  Otherwise the
    hint is the one of the first category that matches in the order property
    name, property type, navigation name, navigation target, namespace, key
    property: it starts with the label of that category; and there is no hint
    when no category matches. *)
Theorem match_hint_priority (e : ODataEntity) (query : string) :
  query ≠ "" →
  let q := Js.toLowerCase query in
  (Property.ContainsCI q (ent_name e) → Sidebar.getMatchHint e query = None)
  ∧ (¬ Property.ContainsCI q (ent_name e) →
       (∀ c, Property.CategoryMatches q e c →
             (∀ c', (Property.rank c' < Property.rank c)%nat → ¬ Property.CategoryMatches q e c') →
             ∃ payload, Sidebar.getMatchHint e query = Some (Property.label c ++ payload))
       ∧ ((∀ c, ¬ Property.CategoryMatches q e c) → Sidebar.getMatchHint e query = None)).
Proof.
  intros Hquery q. unfold Sidebar.getMatchHint. fold q.
  destruct (String.eqb_spec query "") as [|_]; [done |].
  assert (Hq : q ≠ "") by by apply toLowerCase_nonempty.
  unfold Property.ContainsCI at 1 2. rewrite <- !includes_spec.
  destruct (Js.includes q (Js.toLowerCase (ent_name e))); [by split |].
  split; [done |]. intros _.
  destruct (List.find _ (ent_properties e)) as [p1|] eqn:H1.
  { apply find_includes_some in H1. split.
    - intros c Hc Hfirst. destruct c; try (eexists; reflexivity);
        earlier_category Hfirst Property.PropertyName ltac:(idtac; by exists p1).
    - intros Hnone. exfalso. apply (Hnone Property.PropertyName). by exists p1. }
  apply find_includes_none in H1.
  destruct (List.find _ (ent_properties e)) as [p2|] eqn:H2.
  { apply find_includes_some in H2. split.
    - intros c Hc Hfirst. destruct c; try (eexists; reflexivity); try (by destruct H1);
        earlier_category Hfirst Property.PropertyType ltac:(idtac; by exists p2).
    - intros Hnone. exfalso. apply (Hnone Property.PropertyType). by exists p2. }
  apply find_includes_none in H2.
  destruct (List.find _ (ent_navigationProperties e)) as [n3|] eqn:H3.
  { apply find_includes_some in H3. split.
    - intros c Hc Hfirst.
      destruct c; try (eexists; reflexivity); try (by destruct H1); try (by destruct H2);
        earlier_category Hfirst Property.NavigationName ltac:(idtac; by exists n3).
    - intros Hnone. exfalso. apply (Hnone Property.NavigationName). by exists n3. }
  apply find_includes_none in H3.
  destruct (List.find _ (ent_navigationProperties e)) as [n4|] eqn:H4.
  { apply find_includes_some in H4. split.
    - intros c Hc Hfirst.
      destruct c; try (eexists; reflexivity); try (by destruct H1); try (by destruct H2);
        try (by destruct H3);
        earlier_category Hfirst Property.NavigationTarget ltac:(idtac; by exists n4).
    - intros Hnone. exfalso. apply (Hnone Property.NavigationTarget). by exists n4. }
  apply find_includes_none in H4.
  destruct (Js.includes q (Js.toLowerCase (ent_namespace e))) eqn:H5.
  { apply includes_spec in H5. split.
    - intros c Hc Hfirst.
      destruct c; try (eexists; reflexivity); try (by destruct H1); try (by destruct H2);
        try (by destruct H3); try (by destruct H4);
        earlier_category Hfirst Property.Namespace ltac:(idtac; done).
    - intros Hnone. exfalso. by apply (Hnone Property.Namespace). }
  assert (H5' : ¬ Property.Substring q (Js.toLowerCase (ent_namespace e))).
  { intros Hs. apply includes_spec in Hs. congruence. }
  destruct (List.find _ (ent_keyProperties e)) as [k6|] eqn:H6.
  { apply (find_includes_some Js.toLowerCase) in H6 as [Hin6 Hq6].
    destruct (String.eqb_spec k6 "") as [->|_].
    { by apply substring_of_empty in Hq6. }
    split.
    - intros c Hc Hfirst.
      destruct c; try (eexists; reflexivity); try (by destruct H1); try (by destruct H2);
        try (by destruct H3); try (by destruct H4); by destruct H5'.
    - intros Hnone. exfalso. apply (Hnone Property.KeyProperty). by exists k6. }
  apply (find_includes_none Js.toLowerCase) in H6.
  split; [| done].
  intros c Hc _. exfalso. destruct c; simpl in Hc; tauto.
Qed.

Lemma match_hint_priority_witness :
  (∃ payload,
     Sidebar.getMatchHint sampleOrder "GUID" = Some (Property.label Property.PropertyType ++ payload))
  ∧ Sidebar.getMatchHint sampleOrder "GUID" = Some "type: Guid".
Proof.
  split; [| reflexivity].
  assert (Hname : ¬ Property.ContainsCI (Js.toLowerCase "GUID") (ent_name sampleOrder)).
  { intros H. by apply includes_spec in H. }
  destruct (match_hint_priority sampleOrder "GUID") as [_ Hhint]; [discriminate |].
  destruct (Hhint Hname) as [Hfirst _]. apply (Hfirst Property.PropertyType).
  - exists {| prop_name := "OrderID"; prop_type := "Edm.Guid";
              prop_nullable := false; prop_isKey := true |}.
    split; [apply list_elem_of_here | by apply includes_spec].
  - intros c' Hrank Hc'. destruct c'; simpl in Hrank; try lia.
    destruct Hc' as (p & Hp & Hsub).
    apply includes_spec in Hsub. apply list_elem_of_In in Hp.
    destruct Hp as [<- | []]. discriminate.
Defined.

(** Claim C10.  There are a metadata document, a non-empty query and an entity
    of the filtered result whose name does not contain the query and for which
    [getMatchHint] gives no hint: once because only the full name matches, once
    because only the base type matches.  The hint never depends on [fullName]
    or [baseType]. *)
Theorem search_result_without_hint :
  (∃ md query e,
     query ≠ ""
     ∧ e ∈ State.getFilteredEntities (withQuery md query)
     ∧ ¬ Property.ContainsCI (Js.toLowerCase query) (ent_name e)
     ∧ Property.ContainsCI (Js.toLowerCase query) (ent_fullName e)
     ∧ Sidebar.getMatchHint e query = None)
  ∧ (∃ md query e b,
       query ≠ ""
       ∧ e ∈ State.getFilteredEntities (withQuery md query)
       ∧ ¬ Property.ContainsCI (Js.toLowerCase query) (ent_name e)
       ∧ ent_baseType e = Some b ∧ Property.ContainsCI (Js.toLowerCase query) b
       ∧ Sidebar.getMatchHint e query = None)
  ∧ (∀ e query fullName baseType,
       Sidebar.getMatchHint
         {| ent_name := ent_name e; ent_fullName := fullName;
            ent_namespace := ent_namespace e; ent_properties := ent_properties e;
            ent_navigationProperties := ent_navigationProperties e;
            ent_keyProperties := ent_keyProperties e; ent_baseType := baseType |} query
       = Sidebar.getMatchHint e query).
Proof.
  split; [| split].
  - exists sampleMetadata, "l.O", sampleOrder.
    split; [discriminate |]. split; [apply list_elem_of_In; vm_compute; tauto |].
    split; [intros H; by apply includes_spec in H |].
    split; [by apply includes_spec | reflexivity].
  - exists sampleMetadata, "Document", sampleOrder, "NorthwindModel.Document".
    split; [discriminate |]. split; [apply list_elem_of_In; vm_compute; tauto |].
    split; [intros H; by apply includes_spec in H |].
    split; [reflexivity |]. split; [by apply includes_spec | reflexivity].
  - reflexivity.
Qed.

(** *** The load-metadata transition *)

(** Claim C2, as amended.  [setMetadata] stores the given metadata and resets
    [selectedEntity], [error], [collapsedNamespaces], [diagramRootEntity] and
    [diagramExpandedNodes] to none or empty; the search query and the loading
    flag keep the values they had. *)
Theorem load_metadata_resets (md : option ODataMetadata) (s : State.Store) :
  let st := State.state s in
  let st' := State.state (State.setMetadata md s) in
  metadata st' = md
  ∧ selectedEntity st' = None
  ∧ error st' = None
  ∧ collapsedNamespaces st' = ∅
  ∧ diagramRootEntity st' = None
  ∧ diagramExpandedNodes st' = ∅
  ∧ searchQuery st' = searchQuery st
  ∧ loading st' = loading st.
Proof. repeat split. Qed.

Lemma load_metadata_keeps_path (md : option ODataMetadata) (s : State.Store) :
  navigationPath (State.state (State.setMetadata md s)) = navigationPath (State.state s).
Proof. reflexivity. Qed.

Lemma load_metadata_notifies (md : option ODataMetadata) (s : State.Store) :
  State.notified (State.setMetadata md s)
  = (State.notified s ++ [State.state (State.setMetadata md s)])%list.
Proof. reflexivity. Qed.

Lemma load_metadata_not_hard_reset :
  ¬ (∀ (md : option ODataMetadata) (s : State.Store),
       let st' := State.state (State.setMetadata md s) in
       searchQuery st' = searchQuery State.initialState
       ∧ navigationPath st' = navigationPath State.initialState).
Proof.
  intros H.
  destruct (H (Some sampleMetadata)
              (State.setSearchQuery "order"
                 (State.setMetadata (Some sampleMetadata) State.initialStore)))
    as [Hquery _].
  discriminate Hquery.
Qed.

(** *** Relationships *)

Lemma extract_inner (names : gset string) (e : ODataEntity)
    (navs : list ODataNavigationProperty) (acc : list Relationship) :
  foldl (fun rels n =>
           if decide (nav_targetEntity n ∈ names)
           then (rels ++ [relationshipOf e n])%list else rels) acc navs
  = (acc ++ List.map (relationshipOf e)
               (List.filter (fun n => bool_decide (nav_targetEntity n ∈ names)) navs))%list.
Proof.
  revert acc. induction navs as [|n navs IH]; intros acc; simpl.
  - by rewrite app_nil_r.
  - rewrite IH. destruct (decide (nav_targetEntity n ∈ names)) as [Hin|Hin].
    + rewrite (bool_decide_eq_true_2 _ Hin). simpl. by rewrite <- app_assoc.
    + by rewrite (bool_decide_eq_false_2 _ Hin).
Qed.

Lemma extract_outer (names : gset string) (es : list ODataEntity)
    (acc : list Relationship) :
  foldl (fun rels e =>
           foldl (fun rels n =>
                    if decide (nav_targetEntity n ∈ names)
                    then (rels ++ [relationshipOf e n])%list else rels)
                 rels (ent_navigationProperties e)) acc es
  = (acc ++ List.flat_map
              (fun e => List.map (relationshipOf e)
                          (List.filter (fun n => bool_decide (nav_targetEntity n ∈ names))
                                       (ent_navigationProperties e))) es)%list.
Proof.
  revert acc. induction es as [|e es IH]; intros acc; simpl.
  - by rewrite app_nil_r.
  - by rewrite IH, extract_inner, <- app_assoc.
Qed.

Lemma extractRelationships_flat (md : ODataMetadata) :
  Parser.extractRelationships md
  = List.flat_map
      (fun e => List.map (relationshipOf e)
                         (List.filter (resolves md) (ent_navigationProperties e)))
      (allEntities md).
Proof.
  unfold Parser.extractRelationships.
  set (names := list_to_set (List.map ent_name (allEntities md)) : gset string).
  assert (Hres : ∀ n, bool_decide (nav_targetEntity n ∈ names) = resolves md n).
  { intros n. unfold resolves. apply bool_decide_ext. subst names.
    by rewrite elem_of_list_to_set. }
  etransitivity; [apply (extract_outer names) |]. simpl.
  apply flat_map_ext. intros e. f_equal. apply filter_ext. intros n. apply Hres.
Qed.

(** Claim C8.  Every edge of [extractRelationships] has the name of an entity
    of [allEntities] as its [targetEntity].  The edges are, entity by entity and
    in order, one edge for each navigation property whose target is such a name:
    nothing is merged, and two entities that point at each other give two
    edges. *)
Theorem relationships_resolve_without_dedup (md : ODataMetadata) :
  let rels := Parser.extractRelationships md in
  (∀ r, r ∈ rels → ∃ e, e ∈ allEntities md ∧ ent_name e = rel_targetEntity r)
  ∧ rels = List.flat_map
             (fun e => List.map (relationshipOf e)
                         (List.filter (resolves md) (ent_navigationProperties e)))
             (allEntities md)
  ∧ (∀ A B nAB nBA,
       allEntities md = [A; B] →
       ent_navigationProperties A = [nAB] → ent_navigationProperties B = [nBA] →
       nav_targetEntity nAB = ent_name B → nav_targetEntity nBA = ent_name A →
       rels = [relationshipOf A nAB; relationshipOf B nBA]).
Proof.
  intros rels. subst rels. rewrite extractRelationships_flat. split; [| split].
  - intros r Hr. apply list_elem_of_In, in_flat_map in Hr as (e & _ & Hr).
    apply in_map_iff in Hr as (n & <- & Hn). apply filter_In in Hn as [_ Hn].
    unfold resolves in Hn. apply bool_decide_eq_true_1 in Hn.
    apply list_elem_of_In, in_map_iff in Hn as (e' & He' & Hin).
    exists e'. split; [by apply list_elem_of_In | done].
  - reflexivity.
  - intros A B nAB nBA Hall HA HB HtA HtB. rewrite Hall. simpl.
    rewrite HA, HB. simpl. unfold resolves. rewrite Hall. simpl. rewrite HtA, HtB.
    rewrite !bool_decide_eq_true_2 by set_solver. reflexivity.
Qed.

Lemma relationships_resolve_without_dedup_witness :
  Parser.extractRelationships sampleMetadata
  = [relationshipOf sampleCustomer (sampleNav "Orders" "Collection(NorthwindModel.Order)");
     relationshipOf sampleOrder (sampleNav "Customer" "NorthwindModel.Customer")].
Proof.
  by apply (relationships_resolve_without_dedup sampleMetadata).
Defined.

(** *** Parse failures *)

Lemma parse_throws_iff (doc : Dom.Document) :
  (∃ msg, Parser.parseODataMetadata doc = Throw msg)
  ↔ Property.HasParserError doc ∨ Property.RootLacksEdmx doc ∨ Property.NoDataServices doc.
Proof.
  unfold Parser.parseODataMetadata, Property.HasParserError, Property.RootLacksEdmx,
    Property.NoDataServices.
  destruct (Dom.querySelector doc "parsererror") as [pe|].
  { split; [by left | by eexists]. }
  destruct (Dom.documentElement doc) as [root|].
  2: { split; [by right; left | by eexists]. }
  destruct (Js.includes "edmx" (Js.toLowerCase (Dom.localName root))); simpl.
  2: { split; [by right; left | by eexists]. }
  destruct (Parser.findElement root "DataServices") as [ds|].
  - split; [by intros [msg ?] | intros [? | [? | ?]]; done].
  - split; [by right; right | by eexists].
Qed.

Lemma parse_message_nonempty (doc : Dom.Document) (msg : string) :
  Parser.parseODataMetadata doc = Throw msg → msg ≠ "".
Proof.
  unfold Parser.parseODataMetadata.
  destruct (Dom.querySelector doc "parsererror") as [pe|].
  { by intros [= <-]. }
  destruct (Dom.documentElement doc) as [root|]; [| by intros [= <-]].
  destruct (negb _); [by intros [= <-] |].
  destruct (Parser.findElement root "DataServices"); [done | by intros [= <-]].
Qed.

(** Claim C3, as amended.  [parseODataMetadata] throws exactly when the document
    that the XML parser returns has a [parsererror] element, or its root's local
    name does not contain [edmx] (letter case ignored), or no [DataServices]
    element is found under the root.  A text that is not well-formed XML is in
    the first case, since the XML parser reports it with a [parsererror]
    element.  Whenever the parse throws, [handleParse] leaves the store's
    metadata as it was, sets a non-empty error message (the parser's own, for a
    non-blank input) and notifies the listeners of that state. *)
Theorem parse_failure_conditions
    (parseFromString : string → Dom.Document) (wellFormed : string → Prop) :
  (∀ xml, ¬ wellFormed xml → Property.HasParserError (parseFromString xml)) →
  ∀ (xml : string) (s : State.Store),
    let doc := parseFromString xml in
    ((∃ msg, Parser.parseODataMetadata doc = Throw msg)
     ↔ Property.HasParserError doc ∨ Property.RootLacksEdmx doc ∨ Property.NoDataServices doc)
    ∧ (¬ wellFormed xml → ∃ msg, Parser.parseODataMetadata doc = Throw msg)
    ∧ (∀ msg, Parser.parseODataMetadata doc = Throw msg →
         let s' := Input.handleParse parseFromString xml s in
         metadata (State.state s') = metadata (State.state s)
         ∧ (∃ shown, shown ≠ "" ∧ error (State.state s') = Some shown
                     ∧ (Js.trim xml ≠ "" → shown = msg))
         ∧ last (State.notified s') = Some (State.state s')).
Proof.
  intros Hplatform xml s doc. split; [apply parse_throws_iff |]. split.
  - intros Hwf. apply parse_throws_iff. left. by apply Hplatform.
  - intros msg Hmsg. unfold Input.handleParse. fold doc. rewrite Hmsg.
    destruct (String.eqb_spec (Js.trim xml) "") as [Hblank|Hblank].
    + split; [reflexivity |]. split.
      * exists "Please provide XML content". by repeat split.
      * unfold State.setError, State.assign, State.notify. simpl. apply last_snoc.
    + split; [reflexivity |]. split.
      * exists msg. split; [by eapply parse_message_nonempty |]. by split.
      * unfold State.setError, State.assign, State.notify. simpl. apply last_snoc.
Qed.

Lemma sample_platform (xml : string) :
  ¬ sampleWellFormed xml → Property.HasParserError (sampleParseFromString xml).
Proof.
  unfold sampleWellFormed, sampleParseFromString. intros Hwf.
  destruct (String.eqb_spec xml edmxWithParserErrorElement); [tauto |].
  destruct (String.eqb_spec xml "<Foo/>"); [tauto |]. discriminate.
Qed.

Lemma parse_failure_conditions_witness :
  let s := State.setMetadata (Some sampleMetadata) State.initialStore in
  let s' := Input.handleParse sampleParseFromString "<Foo/>" s in
  Parser.parseODataMetadata (sampleParseFromString "<Foo/>")
  = Throw "Invalid OData metadata: Root element must be Edmx"
  ∧ metadata (State.state s') = Some sampleMetadata
  ∧ (∃ msg, Parser.parseODataMetadata (sampleParseFromString "<Edmx") = Throw msg).
Proof.
  split; [reflexivity |]. split.
  - destruct (parse_failure_conditions sampleParseFromString sampleWellFormed sample_platform
                "<Foo/>" (State.setMetadata (Some sampleMetadata) State.initialStore))
      as (_ & _ & Hstore).
    by destruct (Hstore _ eq_refl) as [-> _].
  - destruct (parse_failure_conditions sampleParseFromString sampleWellFormed sample_platform
                "<Edmx" State.initialStore) as (_ & Hmalformed & _).
    apply Hmalformed. intros [H | H]; discriminate H.
Defined.

Lemma parse_rejects_wellformed_document :
  ¬ (∀ (parseFromString : string → Dom.Document) (wellFormed : string → Prop),
       (∀ xml, ¬ wellFormed xml → Property.HasParserError (parseFromString xml)) →
       ∀ xml,
         (∃ msg, Parser.parseODataMetadata (parseFromString xml) = Throw msg)
         ↔ ¬ wellFormed xml
           ∨ Property.RootLacksEdmx (parseFromString xml)
           ∨ Property.NoDataServices (parseFromString xml)).
Proof.
  intros H.
  destruct (H sampleParseFromString sampleWellFormed sample_platform
              edmxWithParserErrorElement) as [Hfails _].
  destruct Hfails as [Hwf | [Hroot | Hds]].
  - by eexists.
  - apply Hwf. by left.
  - discriminate Hroot.
  - discriminate Hds.
Qed.

Lemma foldl_insert_lookup {A : Type} (key : A → string) (l : list A)
    (m : gmap string A) (k : string) (a : A) :
  foldl (fun m a => <[key a := a]> m) m l !! k = Some a →
  (key a = k ∧ a ∈ l) ∨ m !! k = Some a.
Proof.
  revert m. induction l as [|x l IH]; intros m; simpl; [by right |].
  intros H. apply IH in H as [[Hk Hin] | H].
  - left. split; [done | by right].
  - destruct (decide (key x = k)) as [Hx|Hx].
    + rewrite <- Hx, lookup_insert_eq in H. injection H as <-. left.
      split; [done | by left].
    + rewrite lookup_insert_ne in H by done. by right.
Qed.

Lemma entityMapOf_lookup (md : ODataMetadata) (k : string) (e : ODataEntity) :
  entityMapOf md !! k = Some e → ent_name e = k ∧ e ∈ allEntities md.
Proof.
  intros H. apply foldl_insert_lookup in H as [H | H]; [done |].
  by rewrite lookup_empty in H.
Qed.

Lemma complexTypeMapOf_lookup (md : ODataMetadata) (k : string) (ct : ODataComplexType) :
  complexTypeMapOf md !! k = Some ct → ct_name ct = k ∧ ct ∈ allComplexTypes md.
Proof.
  intros H. apply foldl_insert_lookup in H as [H | H]; [done |].
  by rewrite lookup_empty in H.
Qed.

Lemma size_list_to_set_le (l : list string) :
  (size (list_to_set l : gset string) ≤ length l)%nat.
Proof.
  induction l as [|x l IH]; [by rewrite list_to_set_nil, size_empty |].
  rewrite list_to_set_cons, size_union_alt, size_singleton. simpl.
  assert (Hsub : list_to_set l ∖ {[x]} ⊆ (list_to_set l : gset string)) by set_solver.
  apply subseteq_size in Hsub. lia.
Qed.

Lemma size_universe (md : ODataMetadata) (rootEntity : ODataEntity) :
  (16 * size (universe md rootEntity) + 1 ≤ enoughFuel md)%nat.
Proof.
  unfold universe, enoughFuel.
  pose proof (size_list_to_set_le (List.map ent_name (allEntities md))) as HE.
  pose proof (size_list_to_set_le (List.map ct_name (allComplexTypes md))) as HC.
  rewrite !length_map in *.
  set (E := list_to_set (List.map ent_name (allEntities md)) : gset string) in *.
  set (C := list_to_set (List.map ct_name (allComplexTypes md)) : gset string) in *.
  assert (HU : (size ({[ent_name rootEntity]} ∪ E ∪ C) ≤ 1 + size E + size C)%nat).
  { rewrite (size_union_alt _ C), (size_union_alt _ E), size_singleton.
    assert (HC' : (size (C ∖ ({[ent_name rootEntity]} ∪ E)) ≤ size C)%nat)
      by (apply subseteq_size; set_solver).
    assert (HE' : (size (E ∖ {[ent_name rootEntity]}) ≤ size E)%nat)
      by (apply subseteq_size; set_solver).
    lia. }
  lia.
Qed.

Section Traversal.
Variable store : AppState.
Variable rootEntity : ODataEntity.
Variable selectedEntity : option ODataEntity.
Variable expandedNodes : gset string.
Variable md : ODataMetadata.

Let U := universe md rootEntity.
Let entityMap := entityMapOf md.

Lemma entity_in_universe (k : string) (e : ODataEntity) :
  entityMap !! k = Some e → ent_name e ∈ U.
Proof.
  intros H. apply entityMapOf_lookup in H as [_ Hin]. subst U. unfold universe.
  apply elem_of_union_l, elem_of_union_r, elem_of_list_to_set, list_elem_of_In, in_map.
  by apply list_elem_of_In.
Qed.

Lemma complexType_in_universe (k : string) (ct : ODataComplexType) :
  complexTypeMap md !! k = Some ct → ct_name ct ∈ U.
Proof.
  intros H. apply complexTypeMapOf_lookup in H as [_ Hin]. subst U. unfold universe.
  apply elem_of_union_r, elem_of_list_to_set, list_elem_of_In, in_map.
  by apply list_elem_of_In.
Qed.

Lemma push_nothing (maxChildren : nat) (acc : nat * list QueueItem) :
  ∃ added : list QueueItem,
    snd acc = (snd acc ++ added)%list
    ∧ fst acc = (fst acc + length added)%nat
    ∧ Forall (fun item => itemName item ∈ U) added
    ∧ ((fst acc ≤ maxChildren)%nat → (fst acc + length added ≤ maxChildren)%nat).
Proof.
  exists []. rewrite app_nil_r. simpl. split; [done |]. split; [lia |].
  split; [constructor | lia].
Qed.

Lemma pushNavigationTargets_spec (visited : gset string) (depth maxChildren : nat)
    (navs : list ODataNavigationProperty) (acc : nat * list QueueItem) :
  ∃ added,
    snd (pushNavigationTargets entityMap visited depth maxChildren navs acc)
    = (snd acc ++ added)%list
    ∧ fst (pushNavigationTargets entityMap visited depth maxChildren navs acc)
      = (fst acc + length added)%nat
    ∧ Forall (fun item => itemName item ∈ U) added
    ∧ ((fst acc ≤ maxChildren)%nat →
       (fst acc + length added ≤ maxChildren)%nat).
Proof.
  revert acc. induction navs as [|nav navs IH]; intros acc; simpl.
  { by apply push_nothing. }
  destruct (Nat.leb_spec maxChildren (fst acc)) as [Hfull|Hroom].
  { by apply push_nothing. }
  destruct (entityMap !! nav_targetEntity nav) as [target|] eqn:Hlookup; [| apply IH].
  destruct (decide (nav_targetEntity nav ∈ visited)); [apply IH |].
  destruct (IH (S (fst acc), (snd acc ++ [EntityItem target (depth + 1)])%list))
    as (added & Hq & Hc & HU & Hmax).
  exists (EntityItem target (depth + 1) :: added). simpl in *.
  rewrite Hq, Hc, <- app_assoc. split; [done |]. split; [lia |].
  split; [| lia]. constructor; [| done]. simpl. by eapply entity_in_universe.
Qed.

Lemma pushNestedCollections_spec (visited : gset string) (depth maxChildren : nat)
    (nested : list (string * string)) (acc : nat * list QueueItem) :
  ∃ added,
    snd (pushNestedCollections md visited depth maxChildren nested acc)
    = (snd acc ++ added)%list
    ∧ fst (pushNestedCollections md visited depth maxChildren nested acc)
      = (fst acc + length added)%nat
    ∧ Forall (fun item => itemName item ∈ U) added
    ∧ ((fst acc ≤ maxChildren)%nat →
       (fst acc + length added ≤ maxChildren)%nat).
Proof.
  revert acc. induction nested as [|[propName typeName] nested IH]; intros acc; simpl.
  { by apply push_nothing. }
  destruct (Nat.leb_spec maxChildren (fst acc)) as [Hfull|Hroom].
  { by apply push_nothing. }
  destruct (complexTypeMap md !! typeName) as [ct|] eqn:Hlookup; [| apply IH].
  destruct (decide (typeName ∈ visited)); [apply IH |].
  destruct (IH (S (fst acc), (snd acc ++ [ComplexItem ct (depth + 1) propName])%list))
    as (added & Hq & Hc & HU & Hmax).
  exists (ComplexItem ct (depth + 1) propName :: added). simpl in *.
  rewrite Hq, Hc, <- app_assoc. split; [done |]. split; [lia |].
  split; [| lia]. constructor; [| done]. simpl. by eapply complexType_in_universe.
Qed.

Lemma entity_children_spec (visited : gset string) (depth maxChildren : nat)
    (e : ODataEntity) (nested : list (string * string)) (rest : list QueueItem) :
  (maxChildren ≤ 15)%nat →
  ∃ added,
    snd (pushNestedCollections md visited depth maxChildren nested
           (pushNavigationTargets entityMap visited depth maxChildren
              (ent_navigationProperties e) (0%nat, rest)))
    = (rest ++ added)%list
    ∧ (length added ≤ 15)%nat
    ∧ Forall (fun item => itemName item ∈ U) added.
Proof.
  intros Hmax.
  destruct (pushNavigationTargets_spec visited depth maxChildren
              (ent_navigationProperties e) (0%nat, rest)) as (a1 & Hq1 & Hc1 & HU1 & Hb1).
  destruct (pushNestedCollections_spec visited depth maxChildren nested
              (pushNavigationTargets entityMap visited depth maxChildren
                 (ent_navigationProperties e) (0%nat, rest)))
    as (a2 & Hq2 & Hc2 & HU2 & Hb2).
  exists (a1 ++ a2)%list. rewrite Hq2, Hq1, <- app_assoc. simpl in *.
  split; [done |]. split; [| by apply Forall_app].
  rewrite length_app. rewrite Hc1 in Hb2. lia.
Qed.

Lemma complex_children_spec (visited : gset string) (depth maxChildren : nat)
    (ct : ODataComplexType) (nested : list (string * string)) (rest : list QueueItem) :
  (maxChildren ≤ 15)%nat →
  ∃ added,
    snd (pushNavigationTargets entityMap visited depth maxChildren
           (ct_navigationProperties ct)
           (pushNestedCollections md visited depth maxChildren nested (0%nat, rest)))
    = (rest ++ added)%list
    ∧ (length added ≤ 15)%nat
    ∧ Forall (fun item => itemName item ∈ U) added.
Proof.
  intros Hmax.
  destruct (pushNestedCollections_spec visited depth maxChildren nested (0%nat, rest))
    as (a1 & Hq1 & Hc1 & HU1 & Hb1).
  destruct (pushNavigationTargets_spec visited depth maxChildren
              (ct_navigationProperties ct)
              (pushNestedCollections md visited depth maxChildren nested (0%nat, rest)))
    as (a2 & Hq2 & Hc2 & HU2 & Hb2).
  exists (a1 ++ a2)%list. rewrite Hq2, Hq1, <- app_assoc. simpl in *.
  split; [done |]. split; [| by apply Forall_app].
  rewrite length_app. rewrite Hc1 in Hb2. lia.
Qed.

Lemma visited_grows (V : gset string) (x : string) :
  V ⊆ U → x ∈ U → x ∉ V →
  {[x]} ∪ V ⊆ U ∧ (size (U ∖ ({[x]} ∪ V)) < size (U ∖ V))%nat.
Proof.
  intros HV Hx HxV. split; [set_solver |].
  apply subset_size. split; [set_solver |].
  intros Hsub. assert (Hin : x ∈ U ∖ V) by set_solver.
  apply Hsub in Hin. set_solver.
Qed.

Abbreviation visit := (Diagram.visit store rootEntity selectedEntity expandedNodes entityMap md).
Abbreviation traverse := (Diagram.traverse store rootEntity selectedEntity expandedNodes entityMap md).
Abbreviation Inv := (Invariant U rootEntity expandedNodes).

Lemma visit_invariant (t : Traversal) (item : QueueItem) (rest : list QueueItem) :
  Inv t → t_queue t = item :: rest →
  Inv (visit item (shifted t rest))
  ∧ (measure U (visit item (shifted t rest)) < measure U t)%nat.
Proof.
  intros [HV HQ HND Hids Hroot Hnodes] Hqueue.
  rewrite Hqueue in HQ. apply Forall_cons in HQ as [Hitem Hrest].
  assert (Hskip : itemName item ∈ t_visited t →
                  Inv (shifted t rest) ∧ (measure U (shifted t rest) < measure U t)%nat).
  { intros Hseen. split.
    - split; try done. unfold RootFirst in *. simpl.
      destruct (t_nodes t); [| done]. destruct Hroot as [_ Hempty].
      rewrite Hempty in Hseen. set_solver.
    - unfold measure. rewrite Hqueue. simpl. lia. }
  destruct item as [e depth | ct depth parentProp]; simpl in Hitem, Hskip; unfold visit.
  - cbn [shifted t_visited t_nodes t_queue t_nodeMap].
    destruct (decide (ent_name e ∈ t_visited t)) as [Hseen|Hnew]; [by apply Hskip |].
    destruct (visited_grows (t_visited t) (ent_name e) HV Hitem Hnew) as [HV' Hsize].
    match goal with
    | |- context [mkTraversal _ _ _ ?q] => set (queue := q)
    end.
    assert (Hadded : ∃ added, queue = (rest ++ added)%list ∧ (length added ≤ 15)%nat
                              ∧ Forall (fun item => itemName item ∈ U) added).
    { subst queue. destruct (_ || _).
      - apply entity_children_spec. destruct (String.eqb _ _); lia.
      - exists []. rewrite app_nil_r. split; [done |]. split; [simpl; lia | constructor]. }
    destruct Hadded as (added & -> & Hlen & HUadded). split.
    + split; cbn [t_visited t_nodes t_queue t_nodeMap].
      * done.
      * by apply Forall_app.
      * rewrite map_app. apply NoDup_app. split; [done |]. split; [| apply NoDup_singleton].
        simpl. intros x Hx Hx'. apply list_elem_of_singleton in Hx'. subst x.
        apply list_elem_of_In, in_map_iff in Hx as (n & Hn & Hin).
        apply Hnew. rewrite <- Hn. by apply Hids, list_elem_of_In.
      * intros n Hn. apply elem_of_app in Hn as [Hn | Hn].
        -- apply elem_of_union_r. by apply Hids.
        -- apply list_elem_of_singleton in Hn. subst n. simpl. set_solver.
      * unfold RootFirst in *. cbn [t_visited t_nodes t_queue t_nodeMap].
        destruct (t_nodes t) as [|r ns]; [| done].
        destruct Hroot as [Hq0 _]. rewrite Hqueue in Hq0. injection Hq0 as -> -> ->.
        simpl. by rewrite String.eqb_refl.
      * apply Forall_app. split; [done |]. constructor; [| constructor].
        split; simpl; [done | | done]. by intros ?%String.eqb_eq.
    + unfold measure. cbn [t_visited t_nodes t_queue t_nodeMap].
      rewrite Hqueue, length_app. simpl. lia.
  - cbn [shifted t_visited t_nodes t_queue t_nodeMap].
    destruct (decide (ct_name ct ∈ t_visited t)) as [Hseen|Hnew]; [by apply Hskip |].
    destruct (visited_grows (t_visited t) (ct_name ct) HV Hitem Hnew) as [HV' Hsize].
    match goal with
    | |- context [mkTraversal _ _ _ ?q] => set (queue := q)
    end.
    assert (Hadded : ∃ added, queue = (rest ++ added)%list ∧ (length added ≤ 15)%nat
                              ∧ Forall (fun item => itemName item ∈ U) added).
    { subst queue. destruct (bool_decide _).
      - apply complex_children_spec. lia.
      - exists []. rewrite app_nil_r. split; [done |]. split; [simpl; lia | constructor]. }
    destruct Hadded as (added & -> & Hlen & HUadded). split.
    + split; cbn [t_visited t_nodes t_queue t_nodeMap].
      * done.
      * by apply Forall_app.
      * rewrite map_app. apply NoDup_app. split; [done |]. split; [| apply NoDup_singleton].
        simpl. intros x Hx Hx'. apply list_elem_of_singleton in Hx'. subst x.
        apply list_elem_of_In, in_map_iff in Hx as (n & Hn & Hin).
        apply Hnew. rewrite <- Hn. by apply Hids, list_elem_of_In.
      * intros n Hn. apply elem_of_app in Hn as [Hn | Hn].
        -- apply elem_of_union_r. by apply Hids.
        -- apply list_elem_of_singleton in Hn. subst n. simpl. set_solver.
      * unfold RootFirst in *. cbn [t_visited t_nodes t_queue t_nodeMap].
        destruct (t_nodes t) as [|r ns]; [| done].
        destruct Hroot as [Hq0 _]. rewrite Hqueue in Hq0. discriminate.
      * apply Forall_app. split; [done |]. constructor; [| constructor].
        by split.
    + unfold measure. cbn [t_visited t_nodes t_queue t_nodeMap].
      rewrite Hqueue, length_app. simpl. lia.
Qed.

Lemma traverse_invariant (fuel : nat) (t t' : Traversal) :
  Inv t → traverse fuel t = Some t' → Inv t' ∧ t_queue t' = [].
Proof.
  revert t. induction fuel as [|fuel IH]; intros t Ht; simpl.
  - destruct (t_queue t) eqn:Hq; [| done]. by intros [= <-].
  - destruct (t_queue t) as [|item rest] eqn:Hq; [by intros [= <-] |].
    apply IH. by apply visit_invariant.
Qed.

Lemma traverse_terminates (fuel : nat) (t : Traversal) :
  Inv t → (measure U t ≤ fuel)%nat → ∃ t', traverse fuel t = Some t'.
Proof.
  revert t. induction fuel as [|fuel IH]; intros t Ht Hfuel; simpl.
  - destruct (t_queue t) eqn:Hq; [by eexists |].
    unfold measure in Hfuel. rewrite Hq in Hfuel. simpl in Hfuel. lia.
  - destruct (t_queue t) as [|item rest] eqn:Hq; [by eexists |].
    destruct (visit_invariant t item rest Ht Hq) as [Hinv Hless].
    fold (shifted t rest). apply IH; [done | lia].
Qed.

Lemma traverse_more_fuel (fuel fuel' : nat) (t t' : Traversal) :
  traverse fuel t = Some t' → (fuel ≤ fuel')%nat → traverse fuel' t = Some t'.
Proof.
  revert fuel' t. induction fuel as [|fuel IH]; intros fuel' t; simpl.
  - destruct (t_queue t) eqn:Hq; [| done]. intros [= <-] _.
    destruct fuel'; simpl; by rewrite Hq.
  - destruct (t_queue t) as [|item rest] eqn:Hq.
    + intros [= <-] _. destruct fuel'; simpl; by rewrite Hq.
    + intros Hrun Hle. destruct fuel' as [|fuel']; [lia |]. simpl. rewrite Hq.
      apply IH; [done | lia].
Qed.

Lemma initial_invariant :
  Inv (initialTraversal rootEntity)
  ∧ (measure U (initialTraversal rootEntity) ≤ enoughFuel md)%nat.
Proof.
  split.
  - split; simpl.
    + set_solver.
    + constructor; [| constructor]. simpl. subst U. unfold universe. set_solver.
    + constructor.
    + intros n Hn. by apply elem_of_nil in Hn.
    + by split.
    + constructor.
  - unfold measure. simpl. rewrite difference_empty_L.
    pose proof (size_universe md rootEntity). subst U. lia.
Qed.

(** The link pass. *)

Lemma addLink_ok (nodes : list DiagramNode) (nodeMap : gmap string NodeRef)
    (ref : NodeRef) (node : DiagramNode) (targetName label : string)
    (isCollection isNested : bool) (acc : gset string * list DiagramLink) :
  nodes !! ref = Some node → node_isExpanded node || node_isRoot node = true →
  LinksOk nodes acc →
  LinksOk nodes (addLink nodes nodeMap ref node targetName isCollection isNested label acc).
Proof.
  intros Href Hflag Hacc. unfold addLink.
  destruct (nodeMap !! targetName) as [targetRef|]; [| done].
  destruct (nodes !! targetRef) as [targetNode|] eqn:Htarget; [| done].
  destruct (Nat.eqb_spec targetRef ref) as [|Hne]; [done |].
  destruct (decide (_ ∈ fst acc)) as [|Hfresh]; [done |].
  destruct Hacc as [Hkeys Hnodup Hsrc Hdist].
  set (l := mkLink ref targetRef isCollection isNested label).
  assert (Hkey : keyOfLink nodes l = linkKey (node_id node) (node_id targetNode)).
  { unfold keyOfLink, idOf, l. simpl. by rewrite Href, Htarget. }
  split; simpl.
  - intros l' Hl'. apply elem_of_app in Hl' as [Hl' | Hl'].
    + apply elem_of_union_r. by apply Hkeys.
    + apply list_elem_of_singleton in Hl'. subst l'. rewrite Hkey. set_solver.
  - rewrite map_app. apply NoDup_app. split; [done |]. split; [| apply NoDup_singleton].
    simpl. intros k Hk Hk'. apply list_elem_of_singleton in Hk'. subst k.
    apply list_elem_of_In, in_map_iff in Hk as (l' & Hl' & Hin).
    apply Hfresh. rewrite <- Hkey, <- Hl'. by apply Hkeys, list_elem_of_In.
  - intros l' Hl'. apply elem_of_app in Hl' as [Hl' | Hl']; [by apply Hsrc |].
    apply list_elem_of_singleton in Hl'. subst l'. by exists node.
  - intros l' Hl'. apply elem_of_app in Hl' as [Hl' | Hl']; [by apply Hdist |].
    apply list_elem_of_singleton in Hl'. subst l'. simpl. congruence.
Qed.

Lemma foldl_preserves {A B : Type} (P : A → Prop) (f : A → B → A) (l : list B) (a : A) :
  (∀ a b, P a → P (f a b)) → P a → P (foldl f a l).
Proof.
  intros Hf. revert a. induction l as [|b l IH]; intros a Ha; simpl; [done |].
  by apply IH, Hf.
Qed.

Lemma linksOfNode_ok (nodes : list DiagramNode) (nodeMap : gmap string NodeRef)
    (ref : NodeRef) (node : DiagramNode) (acc : gset string * list DiagramLink) :
  nodes !! ref = Some node → LinksOk nodes acc →
  LinksOk nodes (linksOfNode store nodes nodeMap acc (ref, node)).
Proof.
  intros Href Hacc. unfold linksOfNode.
  destruct (node_isExpanded node || node_isRoot node) eqn:Hflag; [| done].
  apply foldl_preserves; [intros; by apply addLink_ok |].
  apply foldl_preserves; [intros; by apply addLink_ok | done].
Qed.

Lemma buildLinks_ok (nodes : list DiagramNode) (nodeMap : gmap string NodeRef) :
  ∃ keys, LinksOk nodes (keys, buildLinks store nodes nodeMap).
Proof.
  unfold buildLinks.
  set (entries := imap pair nodes).
  assert (Hentries : ∀ entry, entry ∈ entries → nodes !! fst entry = Some (snd entry)).
  { intros [i n] Hin. subst entries. apply elem_of_lookup_imap in Hin as (j & m & Heq & Hm).
    by injection Heq as -> ->. }
  assert (Hgen : ∀ acc, LinksOk nodes acc →
                        LinksOk nodes (foldl (linksOfNode store nodes nodeMap) acc entries)).
  { induction entries as [|[i n] entries IH]; intros acc Hacc; simpl; [done |].
    apply IH.
    - intros entry Hin. apply Hentries. by right.
    - apply linksOfNode_ok; [| done]. apply (Hentries (i, n)). by left. }
  eexists (fst (foldl _ _ entries)). rewrite <- surjective_pairing. apply Hgen.
  split; simpl; [by intros l ?%elem_of_nil | constructor | by intros l ?%elem_of_nil
                | by intros l ?%elem_of_nil].
Qed.
End Traversal.

Lemma linkKey_comm (a b : string) : linkKey a b = linkKey b a.
Proof.
  unfold linkKey, String.ltb. rewrite (String.compare_antisym a b).
  destruct (String.compare b a) eqn:Hcmp; simpl; try reflexivity.
  apply String.compare_eq_iff in Hcmp. by subst.
Qed.

Lemma buildGraph_invariant (store : AppState) (rootEntity : ODataEntity)
    (selectedEntity : option ODataEntity) (expandedNodes : gset string)
    (md : ODataMetadata) (fuel : nat) (g : Graph) :
  buildGraph store rootEntity selectedEntity expandedNodes (entityMapOf md) md fuel = Some g →
  ∃ t, Invariant (universe md rootEntity) rootEntity expandedNodes t
       ∧ t_queue t = [] ∧ nodes g = t_nodes t
       ∧ links g = buildLinks store (t_nodes t) (t_nodeMap t).
Proof.
  unfold buildGraph. destruct (traverse _ _ _ _ _ _ fuel _) as [t|] eqn:Hrun; [| done].
  intros [= <-]. exists t.
  destruct (traverse_invariant store rootEntity selectedEntity expandedNodes md fuel _ t
              (proj1 (initial_invariant rootEntity expandedNodes md)) Hrun) as [Hinv Hq].
  split; [done |]. split; [done |]. by split.
Qed.

(** Claim C1.  For every store, root entity, selected entity, set of expanded
    identifiers and metadata document, the traversal of [buildGraph] ends: with
    [enoughFuel] turns or more it returns one and the same graph.  No identifier
    occurs twice among its nodes, and the node of the root entity is there, first,
    with depth 0 and [isRoot] true; no other node has the root's identifier. *)
Theorem traversal_terminates_without_duplicates (store : AppState)
    (rootEntity : ODataEntity) (selectedEntity : option ODataEntity)
    (expandedNodes : gset string) (md : ODataMetadata) :
  ∃ g,
    (∀ fuel, (enoughFuel md ≤ fuel)%nat →
       buildGraph store rootEntity selectedEntity expandedNodes (entityMapOf md) md fuel
       = Some g)
    ∧ NoDup (List.map node_id (nodes g))
    ∧ (∃ r, nodes g !! 0%nat = Some r
            ∧ node_id r = ent_name rootEntity
            ∧ node_depth r = 0%nat
            ∧ node_isRoot r = true)
    ∧ (∀ i n, nodes g !! i = Some n → node_id n = ent_name rootEntity → i = 0%nat).
Proof.
  destruct (initial_invariant rootEntity expandedNodes md) as [Hinit Hmeasure].
  destruct (traverse_terminates store rootEntity selectedEntity expandedNodes md
              (enoughFuel md) _ Hinit Hmeasure) as [t Hrun].
  destruct (traverse_invariant store rootEntity selectedEntity expandedNodes md _ _ t
              Hinit Hrun) as [[_ _ Hnodup Hids Hroot _] Hq].
  exists {| nodes := t_nodes t;
            links := buildLinks store (t_nodes t) (t_nodeMap t) |}.
  assert (Hfirst : ∃ r, t_nodes t !! 0%nat = Some r
                        ∧ node_id r = ent_name rootEntity
                        ∧ node_depth r = 0%nat ∧ node_isRoot r = true).
  { unfold RootFirst in Hroot. destruct (t_nodes t) as [|r ns].
    - destruct Hroot as [Hq0 _]. by rewrite Hq in Hq0.
    - by exists r. }
  split; [| split; [done | split; [done |]]].
  - intros fuel Hfuel. unfold buildGraph.
    by rewrite (traverse_more_fuel _ _ _ _ _ _ _ _ _ Hrun Hfuel).
  - simpl. intros i n Hi Hn. destruct Hfirst as (r & Hr & Hrid & _).
    apply (NoDup_lookup _ i 0%nat (ent_name rootEntity) Hnodup).
    + by rewrite list_lookup_fmap, Hi, <- Hn.
    + by rewrite list_lookup_fmap, Hr, <- Hrid.
Qed.

Lemma traversal_terminates_without_duplicates_witness :
  ∃ g,
    buildGraph sampleStore sampleCustomer (Some sampleOrder) {[ "Customer"; "Order" ]}
               (entityMapOf sampleMetadata) sampleMetadata (enoughFuel sampleMetadata)
    = Some g
    ∧ NoDup (List.map node_id (nodes g)).
Proof.
  destruct (traversal_terminates_without_duplicates sampleStore sampleCustomer
              (Some sampleOrder) {[ "Customer"; "Order" ]} sampleMetadata)
    as (g & Hrun & Hnodup & _).
  exists g. split; [apply Hrun; lia | exact Hnodup].
Defined.

(** A reciprocal pair of navigation properties: Customer to Order and back. *)
Lemma cyclic_partner_links_example :
  option_map (fun g => List.map (fun n => (node_id n, node_depth n, node_isRoot n)) (nodes g))
    (buildGraph sampleStore sampleCustomer None {[ "Customer"; "Order" ]}
                (entityMapOf sampleMetadata) sampleMetadata 4)
  = Some [("Customer", 0%nat, true); ("Order", 1%nat, false)].
Proof. vm_compute. reflexivity. Qed.

(** Claim C7.  In a graph that [buildGraph] returns, a node that is not the
    root and whose identifier is not in [expandedNodes] is the source of no
    link, and no two links of the list join the same two identifiers, in
    either direction. *)
Theorem links_from_expanded_nodes_once_per_pair (store : AppState)
    (rootEntity : ODataEntity) (selectedEntity : option ODataEntity)
    (expandedNodes : gset string) (md : ODataMetadata) (fuel : nat) (g : Graph) :
  buildGraph store rootEntity selectedEntity expandedNodes (entityMapOf md) md fuel = Some g →
  (∀ i n, nodes g !! i = Some n →
          node_isRoot n = false ∨ node_id n ≠ ent_name rootEntity →
          node_id n ∉ expandedNodes →
          ∀ l, l ∈ links g → link_source l ≠ i)
  ∧ (∀ i j l1 l2, i ≠ j → links g !! i = Some l1 → links g !! j = Some l2 →
                  ¬ SamePair (linkEnds (nodes g) l1) (linkEnds (nodes g) l2)).
Proof.
  intros Hg. apply buildGraph_invariant in Hg as (t & Hinv & _ & Hnodes & Hlinks).
  destruct (buildLinks_ok store (t_nodes t) (t_nodeMap t)) as [keys Hok].
  rewrite Hnodes, Hlinks. destruct Hok as [_ Hnodup Hsrc _]. simpl in *. split.
  - intros i n Hi Hroot Hexp l Hl Hsource.
    destruct (Hsrc l Hl) as (n' & Hn' & Hflag). rewrite Hsource, Hi in Hn'.
    injection Hn' as <-.
    assert (Hok : NodeOk rootEntity expandedNodes n).
    { destruct Hinv as [_ _ _ _ _ Hall]. rewrite Forall_forall in Hall.
      apply Hall. by eapply list_elem_of_lookup_2. }
    destruct Hok as [Hexpanded Hisroot _].
    rewrite Hexpanded, (bool_decide_eq_false_2 _ Hexp) in Hflag. simpl in Hflag.
    destruct Hroot as [Hroot | Hroot]; [congruence | by apply Hroot, Hisroot].
  - intros i j l1 l2 Hij H1 H2 Hsame.
    apply Hij. apply (NoDup_lookup _ i j (keyOfLink (t_nodes t) l1) Hnodup).
    + by rewrite list_lookup_fmap, H1.
    + rewrite list_lookup_fmap, H2. simpl. f_equal. unfold keyOfLink.
      destruct Hsame as [[Ha Hb] | [Ha Hb]]; simpl in Ha, Hb.
      * by rewrite Ha, Hb.
      * by rewrite Ha, Hb, linkKey_comm.
Qed.

Lemma links_from_expanded_nodes_once_per_pair_witness :
  ∃ g,
    buildGraph sampleStore sampleCustomer None {[ "Customer"; "Order" ]}
               (entityMapOf sampleMetadata) sampleMetadata 4 = Some g
    ∧ length (links g) = 1%nat
    ∧ (∀ i j l1 l2, i ≠ j → links g !! i = Some l1 → links g !! j = Some l2 →
                    ¬ SamePair (linkEnds (nodes g) l1) (linkEnds (nodes g) l2)).
Proof.
  eexists. split; [vm_compute; reflexivity |]. split; [reflexivity |].
  eapply (links_from_expanded_nodes_once_per_pair sampleStore sampleCustomer None
            {[ "Customer"; "Order" ]} sampleMetadata 4).
  vm_compute. reflexivity.
Defined.

Local Open Scope Q_scope.

Ltac qlra := unfold Qdiv in *; change (/ 2)%Q with (1 # 2)%Q in *; lra.

Lemma shapeOf_setPosition (n : DiagramNode) (x y : Q) :
  shapeOf (setPosition n x y) = shapeOf n.
Proof. reflexivity. Qed.

Lemma shape_fields (n n' : DiagramNode) :
  shapeOf n' = shapeOf n →
  node_width n' = node_width n ∧ node_depth n' = node_depth n
  ∧ node_displayName n' = node_displayName n ∧ node_id n' = node_id n.
Proof.
  intros H.
  change (node_width (shapeOf n') = node_width (shapeOf n)
          ∧ node_depth (shapeOf n') = node_depth (shapeOf n)
          ∧ node_displayName (shapeOf n') = node_displayName (shapeOf n)
          ∧ node_id (shapeOf n') = node_id (shapeOf n)).
  by rewrite H.
Qed.

Lemma shape_lookup (cur orig : list DiagramNode) (i : nat) (n : DiagramNode) :
  List.map shapeOf cur = List.map shapeOf orig → orig !! i = Some n →
  ∃ n', cur !! i = Some n' ∧ shapeOf n' = shapeOf n.
Proof.
  intros Hshape Hi.
  assert (H : List.map shapeOf cur !! i = Some (shapeOf n))
    by (rewrite Hshape; apply (list_lookup_fmap_Some_2 shapeOf); done).
  apply list_lookup_fmap_Some_1 in H as (n' & ? & ?). by exists n'.
Qed.

Lemma shape_insert (cur : list DiagramNode) (r : nat) (node : DiagramNode) (x y : Q) :
  cur !! r = Some node →
  List.map shapeOf (<[r := setPosition node x y]> cur) = List.map shapeOf cur.
Proof.
  intros Hr. change (List.map shapeOf) with (fmap (M := list) shapeOf).
  rewrite list_fmap_insert, shapeOf_setPosition.
  apply list_insert_id. by rewrite list_lookup_fmap, Hr.
Qed.

Lemma placeLevel_spec (y : Q) (level : list nat) (x : Q) (cur : list DiagramNode) :
  StronglySorted lt level →
  Forall (fun r => (r < length cur)%nat) level →
  Forall (fun n => 0 <= node_width n) cur →
  let out := placeLevel y level x cur in
  List.map shapeOf out = List.map shapeOf cur
  ∧ (∀ i, i ∉ level → out !! i = cur !! i)
  ∧ (∀ r n, r ∈ level → out !! r = Some n → node_y n = y ∧ x <= leftEdge n)
  ∧ (∀ a b na nb, a ∈ level → b ∈ level → (a < b)%nat →
                  out !! a = Some na → out !! b = Some nb →
                  rightEdge na + NODE_SPACING <= leftEdge nb).
Proof.
  revert x cur. induction level as [|r rest IH]; intros x cur Hsorted Hrange Hwidth; simpl.
  { split; [done |]. split; [done |].
    split; [intros r n Hr; by apply elem_of_nil in Hr |].
    intros a b na nb Ha. by apply elem_of_nil in Ha. }
  apply StronglySorted_inv in Hsorted as [Hsorted Hlt].
  apply Forall_cons in Hrange as [Hr Hrange].
  destruct (lookup_lt_is_Some_2 cur r Hr) as [node Hnode]. rewrite Hnode.
  set (moved := setPosition node (x + node_width node / 2) y).
  set (cur' := <[r := moved]> cur).
  assert (Hshape : List.map shapeOf cur' = List.map shapeOf cur) by by apply shape_insert.
  assert (Hw : 0 <= node_width node).
  { rewrite Forall_forall in Hwidth. apply Hwidth. by eapply list_elem_of_lookup_2. }
  assert (Hrange' : Forall (fun r => (r < length cur')%nat) rest).
  { subst cur'. by rewrite length_insert. }
  assert (Hwidth' : Forall (fun n => 0 <= node_width n) cur').
  { subst cur'. apply Forall_insert; done. }
  destruct (IH (x + node_width node + NODE_SPACING) cur' Hsorted Hrange' Hwidth')
    as (IHshape & IHframe & IHlevel & IHorder).
  assert (Hnotin : r ∉ rest).
  { intros Hin. rewrite Forall_forall in Hlt. apply Hlt in Hin. lia. }
  assert (Hmoved : placeLevel y rest (x + node_width node + NODE_SPACING) cur' !! r
                   = Some moved).
  { rewrite (IHframe r Hnotin). subst cur'. by apply list_lookup_insert_eq. }
  split; [by rewrite IHshape |]. split; [| split].
  - intros i Hi. apply not_elem_of_cons in Hi as [Hne Hi].
    rewrite (IHframe i Hi). subst cur'. by apply list_lookup_insert_ne.
  - intros r0 n Hr0 Hn. apply elem_of_cons in Hr0 as [-> | Hr0].
    + rewrite Hmoved in Hn. injection Hn as <-. split; [done |].
      unfold leftEdge, moved, NODE_SPACING in *. simpl. qlra.
    + destruct (IHlevel r0 n Hr0 Hn) as [Hy Hx]. split; [done |].
      unfold NODE_SPACING in *. qlra.
  - intros a b na nb Ha Hb Hab Hna Hnb.
    apply elem_of_cons in Ha as [-> | Ha]; apply elem_of_cons in Hb as [-> | Hb].
    + lia.
    + rewrite Hmoved in Hna. injection Hna as <-.
      destruct (IHlevel b nb Hb Hnb) as [_ Hx].
      unfold rightEdge, moved, NODE_SPACING in *. simpl. qlra.
    + rewrite Forall_forall in Hlt. apply Hlt in Ha. lia.
    + exact (IHorder a b na nb Ha Hb Hab Hna Hnb).
Qed.

(** Grouping by depth. *)

Lemma pushAtDepth_key (byDepth : list (nat * list nat)) (d r k : nat) :
  k ∈ List.map fst (pushAtDepth byDepth d r) → k = d ∨ k ∈ List.map fst byDepth.
Proof.
  induction byDepth as [|[d0 l0] rest IH]; simpl; intros Hk.
  - apply list_elem_of_singleton in Hk. by left.
  - destruct (Nat.eqb_spec d0 d) as [->|Hne]; simpl in Hk; [by right |].
    apply elem_of_cons in Hk as [-> | Hk]; [right; by left |].
    destruct (IH Hk) as [? | ?]; [by left | right; by right].
Qed.

Lemma pushAtDepth_keys (byDepth : list (nat * list nat)) (d r : nat) :
  NoDup (List.map fst byDepth) → NoDup (List.map fst (pushAtDepth byDepth d r)).
Proof.
  induction byDepth as [|[d0 l0] rest IH]; simpl; intros Hnodup.
  - apply NoDup_singleton.
  - apply NoDup_cons in Hnodup as [Hfresh Hnodup].
    destruct (Nat.eqb_spec d0 d) as [->|Hne]; simpl.
    + by apply NoDup_cons.
    + apply NoDup_cons. split; [| by apply IH].
      intros Hin. apply pushAtDepth_key in Hin as [? | ?]; [by apply Hne | by apply Hfresh].
Qed.

Lemma pushAtDepth_entries (byDepth : list (nat * list nat)) (d r d' : nat)
    (level' : list nat) :
  (d', level') ∈ pushAtDepth byDepth d r →
  (d', level') ∈ byDepth
  ∨ (d' = d ∧ ((∃ level, (d, level) ∈ byDepth ∧ level' = (level ++ [r])%list)
               ∨ level' = [r])).
Proof.
  induction byDepth as [|[d0 l0] rest IH]; simpl; intros Hin.
  - apply list_elem_of_singleton in Hin. injection Hin as -> ->. right. split; [done | by right].
  - destruct (Nat.eqb_spec d0 d) as [->|Hne].
    + apply elem_of_cons in Hin as [Hin | Hin].
      * injection Hin as -> ->. right. split; [done |]. left. exists l0. split; [by left | done].
      * left. by right.
    + apply elem_of_cons in Hin as [Hin | Hin].
      * left. rewrite Hin. by left.
      * destruct (IH Hin) as [Hold | [-> [(level & Hl & ->) | ->]]].
        -- left. by right.
        -- right. split; [done |]. left. exists level. split; [by right | done].
        -- right. split; [done | by right].
Qed.

Lemma pushAtDepth_grows (byDepth : list (nat * list nat)) (d r d' : nat)
    (level : list nat) :
  (d', level) ∈ byDepth →
  ∃ level', (d', level') ∈ pushAtDepth byDepth d r ∧ ∀ i, i ∈ level → i ∈ level'.
Proof.
  induction byDepth as [|[d0 l0] rest IH]; simpl; intros Hin.
  - by apply elem_of_nil in Hin.
  - destruct (Nat.eqb_spec d0 d) as [->|Hne].
    + apply elem_of_cons in Hin as [Hin | Hin].
      * injection Hin as -> ->. exists (l0 ++ [r])%list. split; [by left |].
        intros i Hi. apply elem_of_app. by left.
      * exists level. split; [by right | done].
    + apply elem_of_cons in Hin as [Hin | Hin].
      * exists level. split; [rewrite Hin; by left | done].
      * destruct (IH Hin) as (level' & Hl' & Hsub). exists level'. split; [by right | done].
Qed.

Lemma pushAtDepth_has (byDepth : list (nat * list nat)) (d r : nat) :
  ∃ level, (d, level) ∈ pushAtDepth byDepth d r ∧ r ∈ level.
Proof.
  induction byDepth as [|[d0 l0] rest IH]; simpl.
  - exists [r]. split; by left.
  - destruct (Nat.eqb_spec d0 d) as [->|Hne].
    + exists (l0 ++ [r])%list. split; [by left |]. apply elem_of_app. right. by left.
    + destruct IH as (level & Hl & Hr). exists level. split; [by right | done].
Qed.

Lemma groupByDepth_snoc (nodes : list DiagramNode) (n : DiagramNode) :
  groupByDepth (nodes ++ [n])
  = pushAtDepth (groupByDepth nodes) (node_depth n) (length nodes).
Proof.
  unfold groupByDepth. rewrite imap_app, foldl_app. simpl.
  by rewrite Nat.add_0_r.
Qed.

Lemma groupByDepth_ok (nodes : list DiagramNode) : GroupsOk nodes (groupByDepth nodes).
Proof.
  induction nodes as [|n nodes IH] using rev_ind.
  { split; simpl.
    - constructor.
    - intros d level Hin. by apply elem_of_nil in Hin.
    - intros d level r Hin. by apply elem_of_nil in Hin.
    - intros i n Hi. by rewrite lookup_nil in Hi. }
  rewrite groupByDepth_snoc. destruct IH as [Hkeys Hsorted Hdepth Hcover].
  assert (Hbound : ∀ d level r, (d, level) ∈ groupByDepth nodes → r ∈ level →
                                (r < length nodes)%nat).
  { intros d level r Hin Hr. destruct (Hdepth d level r Hin Hr) as (m & Hm & _).
    by eapply lookup_lt_Some. }
  split.
  - by apply pushAtDepth_keys.
  - intros d level Hin.
    apply pushAtDepth_entries in Hin as [Hold | [-> [(l0 & Hl0 & ->) | ->]]].
    + by eapply Hsorted.
    + apply StronglySorted_app_2; [| by eapply Hsorted | by repeat constructor].
      intros a b Ha Hb. apply list_elem_of_singleton in Hb. subst b.
      by eapply Hbound.
    + by repeat constructor.
  - intros d level r Hin Hr.
    apply pushAtDepth_entries in Hin as [Hold | [-> [(l0 & Hl0 & ->) | ->]]].
    + destruct (Hdepth d level r Hold Hr) as (m & Hm & Hd). exists m.
      split; [by apply lookup_app_l_Some | done].
    + apply elem_of_app in Hr as [Hr | Hr].
      * destruct (Hdepth _ l0 r Hl0 Hr) as (m & Hm & Hd). exists m.
        split; [by apply lookup_app_l_Some | done].
      * apply list_elem_of_singleton in Hr. subst r. exists n.
        split; [by rewrite list_lookup_middle | done].
    + apply list_elem_of_singleton in Hr. subst r. exists n.
      split; [by rewrite list_lookup_middle | done].
  - intros i m Hi. destruct (decide (i < length nodes)%nat) as [Hlt | Hge].
    + rewrite lookup_app_l in Hi by done.
      destruct (Hcover i m Hi) as (level & Hl & Hin).
      destruct (pushAtDepth_grows _ (node_depth n) (length nodes) _ _ Hl)
        as (level' & Hl' & Hsub).
      exists level'. split; [done | by apply Hsub].
    + assert (i = length nodes) as ->.
      { apply lookup_lt_Some in Hi. rewrite length_app in Hi. simpl in Hi. lia. }
      rewrite list_lookup_middle in Hi by done. injection Hi as <-.
      apply pushAtDepth_has.
Qed.

(** Laying the levels out. *)

Lemma layout_levels (orig : list DiagramNode) (byDepth : list (nat * list nat))
    (cur : list DiagramNode) :
  NoDup (List.map fst byDepth) →
  (∀ d level, (d, level) ∈ byDepth → StronglySorted lt level) →
  (∀ d level r, (d, level) ∈ byDepth → r ∈ level →
                ∃ n, orig !! r = Some n ∧ node_depth n = d) →
  Forall (fun n => 0 <= node_width n) orig →
  List.map shapeOf cur = List.map shapeOf orig →
  let out := foldl layoutLevel cur byDepth in
  List.map shapeOf out = List.map shapeOf orig
  ∧ (∀ i, (∀ d level, (d, level) ∈ byDepth → i ∉ level) → out !! i = cur !! i)
  ∧ (∀ d level, (d, level) ∈ byDepth → LevelPlaced d level out).
Proof.
  revert cur. induction byDepth as [|[d level] rest IH];
    intros cur Hkeys Hsorted Hdepth Hwidth Hshape; simpl.
  { split; [done |]. split; [done |]. intros d level Hin. by apply elem_of_nil in Hin. }
  apply NoDup_cons in Hkeys as [Hfresh Hkeys].
  set (y := inject_Z (Z.of_nat d) * LEVEL_HEIGHT).
  set (x0 := - totalWidth cur level / 2).
  assert (Hlen : length cur = length orig).
  { by rewrite <- (length_map shapeOf cur), Hshape, length_map. }
  assert (Hrange : Forall (fun r => (r < length cur)%nat) level).
  { apply Forall_forall. intros r Hr.
    destruct (Hdepth d level r ltac:(by left) Hr) as (n & Hn & _).
    rewrite Hlen. by eapply lookup_lt_Some. }
  assert (Hwidth' : Forall (fun n => 0 <= node_width n) cur).
  { apply Forall_forall. intros n' Hn'. apply list_elem_of_lookup in Hn' as [i Hi].
    assert (Hlt : (i < length orig)%nat) by (rewrite <- Hlen; by eapply lookup_lt_Some).
    destruct (lookup_lt_is_Some_2 _ _ Hlt) as [n Hn].
    destruct (shape_lookup cur orig i n Hshape Hn) as (n'' & Hn'' & Hsh).
    rewrite Hi in Hn''. injection Hn'' as <-.
    destruct (shape_fields _ _ Hsh) as [-> _].
    rewrite Forall_forall in Hwidth. apply Hwidth. by eapply list_elem_of_lookup_2. }
  destruct (placeLevel_spec y level x0 cur (Hsorted d level ltac:(by left)) Hrange Hwidth')
    as (Pshape & Pframe & Plevel & Porder).
  set (cur' := placeLevel y level x0 cur) in *.
  destruct (IH cur' Hkeys) as (IHshape & IHframe & IHplaced).
  { intros d' level' Hin. apply (Hsorted d' level'). by right. }
  { intros d' level' r Hin. apply (Hdepth d' level' r). by right. }
  { done. }
  { by rewrite Pshape. }
  assert (Hkept : ∀ r, r ∈ level → foldl layoutLevel cur' rest !! r = cur' !! r).
  { intros r Hr. apply IHframe. intros d' level' Hin Hr'.
    destruct (Hdepth d level r ltac:(by left) Hr) as (n & Hn & Hd).
    destruct (Hdepth d' level' r ltac:(by right) Hr') as (n' & Hn' & Hd').
    rewrite Hn in Hn'. injection Hn' as <-. apply Hfresh.
    apply list_elem_of_In, in_map_iff. exists (d', level').
    split; [simpl; congruence | by apply list_elem_of_In]. }
  split; [done |]. split; [| intros d' level' Hin].
  - intros i Hi. rewrite IHframe.
    + apply Pframe. apply (Hi d level). by left.
    + intros d' level' Hin. apply (Hi d' level'). by right.
  - apply elem_of_cons in Hin as [Hin | Hin]; [| by apply IHplaced].
    injection Hin as -> ->. split.
    + intros r n Hr Hn. rewrite (Hkept r Hr) in Hn. by destruct (Plevel r n Hr Hn).
    + intros a b na nb Ha Hb Hab Hna Hnb.
      rewrite (Hkept a Ha) in Hna. rewrite (Hkept b Hb) in Hnb.
      exact (Porder a b na nb Ha Hb Hab Hna Hnb).
Qed.

Lemma unique_level (byDepth : list (nat * list nat)) (d : nat) (l1 l2 : list nat) :
  NoDup (List.map fst byDepth) → (d, l1) ∈ byDepth → (d, l2) ∈ byDepth → l1 = l2.
Proof.
  induction byDepth as [|[d0 l0] rest IH]; simpl; intros Hkeys H1 H2.
  - by apply elem_of_nil in H1.
  - apply NoDup_cons in Hkeys as [Hfresh Hkeys].
    assert (Hkey : ∀ l, (d0, l) ∈ rest → False).
    { intros l Hl. apply Hfresh, list_elem_of_In, in_map_iff. exists (d0, l).
      split; [done | by apply list_elem_of_In]. }
    apply elem_of_cons in H1 as [H1 | H1]; apply elem_of_cons in H2 as [H2 | H2].
    + congruence.
    + injection H1 as -> ->. by destruct (Hkey l2).
    + injection H2 as -> ->. by destruct (Hkey l1).
    + by apply IH.
Qed.

Lemma layoutNodes_spec (orig : list DiagramNode) :
  Forall (fun n => 0 <= node_width n) orig →
  List.map shapeOf (layoutNodes orig) = List.map shapeOf orig
  ∧ (∀ i j ni nj, (i < j)%nat →
       layoutNodes orig !! i = Some ni → layoutNodes orig !! j = Some nj →
       node_depth ni = node_depth nj →
       rightEdge ni + NODE_SPACING <= leftEdge nj)
  ∧ (∀ i n, layoutNodes orig !! i = Some n →
            node_y n = inject_Z (Z.of_nat (node_depth n)) * LEVEL_HEIGHT).
Proof.
  intros Hwidth. destruct (groupByDepth_ok orig) as [Hkeys Hsorted Hdepth Hcover].
  destruct (layout_levels orig (groupByDepth orig) orig Hkeys Hsorted Hdepth Hwidth eq_refl)
    as (Hshape & _ & Hplaced).
  fold (layoutNodes orig) in Hshape, Hplaced.
  assert (Horig : ∀ i n, layoutNodes orig !! i = Some n →
                         ∃ level, (node_depth n, level) ∈ groupByDepth orig ∧ i ∈ level).
  { intros i n Hi.
    assert (Hlt : (i < length orig)%nat).
    { rewrite <- (length_map shapeOf orig), <- Hshape, length_map. by eapply lookup_lt_Some. }
    destruct (lookup_lt_is_Some_2 _ _ Hlt) as [n0 Hn0].
    destruct (shape_lookup _ orig i n0 Hshape Hn0) as (n' & Hn' & Hsh).
    rewrite Hi in Hn'. injection Hn' as <-.
    destruct (shape_fields _ _ Hsh) as (_ & -> & _). by apply Hcover. }
  split; [done |]. split.
  - intros i j ni nj Hij Hi Hj Hsame.
    destruct (Horig i ni Hi) as (li & Hli & Hini).
    destruct (Horig j nj Hj) as (lj & Hlj & Hinj).
    rewrite Hsame in Hli.
    assert (li = lj) as ->.
    { by eapply unique_level. }
    destruct (Hplaced _ _ Hlj) as [_ Horder].
    exact (Horder i j ni nj Hini Hinj Hij Hi Hj).
  - intros i n Hi. destruct (Horig i n Hi) as (l & Hl & Hin).
    destruct (Hplaced _ _ Hl) as [Hy _]. exact (Hy i n Hin Hi).
Qed.

Lemma calculateNodeWidth_min (name : string) : 60 <= calculateNodeWidth name.
Proof. apply Qminmax.Q.le_max_l. Qed.

(** Claim C9.  Layout keeps the nodes that [buildGraph] returns in their order
    and changes only their coordinates.  Afterwards, of two nodes at the same
    depth the one that comes first in the list lies wholly to the left of the
    other: its right edge [x + width / 2] is below the left edge
    [x - width / 2] of the other.  The [y] of every node is its depth times 80,
    and its width is the larger of 60 and seven times the length of its display
    name plus twice 12. *)
Theorem layout_rows_do_not_overlap (store : AppState) (rootEntity : ODataEntity)
    (selectedEntity : option ODataEntity) (expandedNodes : gset string)
    (md : ODataMetadata) (fuel : nat) (g : Graph) :
  buildGraph store rootEntity selectedEntity expandedNodes (entityMapOf md) md fuel = Some g →
  let placed := layoutNodes (nodes g) in
  List.map shapeOf placed = List.map shapeOf (nodes g)
  ∧ (∀ i j ni nj, (i < j)%nat → placed !! i = Some ni → placed !! j = Some nj →
       node_depth ni = node_depth nj →
       node_x ni + node_width ni / 2 < node_x nj - node_width nj / 2)
  ∧ (∀ n, n ∈ placed →
       node_y n == inject_Z (Z.of_nat (node_depth n)) * 80
       ∧ node_width n
         == Qminmax.Qmax 60
              (inject_Z (Z.of_nat (String.length (node_displayName n))) * 7 + 2 * 12)).
Proof.
  intros Hg placed. apply buildGraph_invariant in Hg as (t & Hinv & _ & Hnodes & _).
  destruct Hinv as [_ _ _ _ _ Hok]. rewrite <- Hnodes in Hok.
  assert (Hwidth : Forall (fun n => 0 <= node_width n) (nodes g)).
  { eapply Forall_impl; [exact Hok |]. intros n [_ _ Hw]. rewrite Hw.
    pose proof (calculateNodeWidth_min (node_displayName n)). lra. }
  destruct (layoutNodes_spec (nodes g) Hwidth) as (Hshape & Horder & Hy).
  fold placed in Hshape, Horder, Hy. split; [done |]. split.
  - intros i j ni nj Hij Hi Hj Hsame.
    pose proof (Horder i j ni nj Hij Hi Hj Hsame) as Hgap.
    unfold rightEdge, leftEdge, NODE_SPACING in Hgap. lra.
  - intros n Hn. apply list_elem_of_lookup in Hn as [i Hi]. split.
    + rewrite (Hy i n Hi). reflexivity.
    + assert (Hlt : (i < length (nodes g))%nat).
      { rewrite <- (length_map shapeOf (nodes g)), <- Hshape, length_map.
        by eapply lookup_lt_Some. }
      destruct (lookup_lt_is_Some_2 _ _ Hlt) as [n0 Hn0].
      destruct (shape_lookup _ _ i n0 Hshape Hn0) as (n' & Hn' & Hsh).
      rewrite Hi in Hn'. injection Hn' as <-.
      destruct (shape_fields _ _ Hsh) as (-> & _ & -> & _).
      rewrite Forall_forall in Hok. destruct (Hok n0) as [_ _ ->].
      { by eapply list_elem_of_lookup_2. }
      unfold calculateNodeWidth, CHAR_WIDTH, NODE_PADDING.
      apply Qminmax.Q.max_compat; [reflexivity | ring].
Qed.

Lemma layout_rows_do_not_overlap_witness :
  ∃ g,
    buildGraph sampleStore sampleCustomer None {[ "Customer" ]}
               (entityMapOf sampleMetadata) sampleMetadata 4 = Some g
    ∧ List.map (fun n => (node_id n, Qred (node_x n), Qred (node_y n), Qred (node_width n)))
               (layoutNodes (nodes g))
      = [("Customer", 0, 0, 80); ("Order", 0, 80, 60)]
    ∧ ∀ n, n ∈ layoutNodes (nodes g) →
           node_y n == inject_Z (Z.of_nat (node_depth n)) * 80
           ∧ node_width n
             == Qminmax.Qmax 60
                  (inject_Z (Z.of_nat (String.length (node_displayName n))) * 7 + 2 * 12).
Proof.
  eexists. split; [vm_compute; reflexivity |]. split; [vm_compute; reflexivity |].
  eapply (layout_rows_do_not_overlap sampleStore sampleCustomer None {[ "Customer" ]}
            sampleMetadata 4).
  vm_compute. reflexivity.
Defined.

(** ** Further properties of the store, the parser and the diagram *)

Local Close Scope Q_scope.
Import State StoreProperty ParseProperty ExplorationProperty LinkProperty RowProperty
  BoundsProperty SplitPane.

(** *** The store *)

Lemma state_eta (st : AppState) :
  st = {| metadata := metadata st; selectedEntity := selectedEntity st;
          searchQuery := searchQuery st; error := error st; loading := loading st;
          collapsedNamespaces := collapsedNamespaces st;
          diagramRootEntity := diagramRootEntity st;
          diagramExpandedNodes := diagramExpandedNodes st;
          navigationPath := navigationPath st |}.
Proof. by destruct st. Qed.

Lemma toggle_twice (x : string) (X : gset string) :
  (if decide (x ∈ (if decide (x ∈ X) then X ∖ {[x]} else {[x]} ∪ X))
   then (if decide (x ∈ X) then X ∖ {[x]} else {[x]} ∪ X) ∖ {[x]}
   else {[x]} ∪ (if decide (x ∈ X) then X ∖ {[x]} else {[x]} ∪ X)) = X.
Proof.
  destruct (decide (x ∈ X)) as [Hin | Hout].
  - rewrite decide_False by set_solver. apply set_eq. intros y.
    destruct (decide (y = x)) as [-> | Hne]; set_solver.
  - rewrite decide_True by set_solver. set_solver.
Qed.

(** Property X1.  [toggleDiagramNode name] flips whether [name] is among the
    expanded diagram nodes and touches nothing else: every other name keeps
    its membership, every other field of the state keeps its value, and a
    second toggle of the same name brings the state back. *)
Theorem toggle_diagram_node_flips (name : string) (s : Store) :
  let st := state s in
  let s1 := toggleDiagramNode name s in
  (name ∈ diagramExpandedNodes (state s1) ↔ name ∉ diagramExpandedNodes st)
  ∧ (∀ other, other ≠ name →
       (other ∈ diagramExpandedNodes (state s1) ↔ other ∈ diagramExpandedNodes st))
  ∧ state s1 = withExpanded st (diagramExpandedNodes (state s1))
  ∧ state (toggleDiagramNode name s1) = st.
Proof.
  intros st s1. subst st s1. unfold toggleDiagramNode, assign, notify. simpl.
  split; [| split; [| split]].
  - destruct (decide (name ∈ _)); set_solver.
  - intros other Hne. destruct (decide (name ∈ _)); set_solver.
  - reflexivity.
  - rewrite toggle_twice. symmetry. apply state_eta.
Qed.

Lemma toggle_diagram_node_flips_witness :
  "Order" ∈ diagramExpandedNodes (state (toggleDiagramNode "Order" shopDiagram))
  ∧ "Customer" ∈ diagramExpandedNodes (state (toggleDiagramNode "Order" shopDiagram)).
Proof.
  destruct (toggle_diagram_node_flips "Order" shopDiagram) as (Hflip & Hother & _).
  split.
  - apply Hflip. by vm_compute.
  - apply (Hother "Customer"); [done |]. by vm_compute.
Defined.

(** Property X2.  [toggleNamespaceCollapsed namespace] flips whether the
    namespace is collapsed in the sidebar; other namespaces, the expanded
    diagram nodes and the filtered entity list are as before, and a second
    toggle brings the state back. *)
Theorem toggle_namespace_flips (namespace : string) (s : Store) :
  let st := state s in
  let s1 := toggleNamespaceCollapsed namespace s in
  (namespace ∈ collapsedNamespaces (state s1) ↔ namespace ∉ collapsedNamespaces st)
  ∧ (∀ other, other ≠ namespace →
       (other ∈ collapsedNamespaces (state s1) ↔ other ∈ collapsedNamespaces st))
  ∧ diagramExpandedNodes (state s1) = diagramExpandedNodes st
  ∧ getFilteredEntities (state s1) = getFilteredEntities st
  ∧ state (toggleNamespaceCollapsed namespace s1) = st.
Proof.
  intros st s1. subst st s1. unfold toggleNamespaceCollapsed, assign, notify. simpl.
  split; [| split; [| split; [| split]]].
  - destruct (decide (namespace ∈ _)); set_solver.
  - intros other Hne. destruct (decide (namespace ∈ _)); set_solver.
  - reflexivity.
  - reflexivity.
  - rewrite toggle_twice. symmetry. apply state_eta.
Qed.

Lemma toggle_namespace_flips_witness :
  "Shop" ∈ collapsedNamespaces (state (toggleNamespaceCollapsed "Shop" shopStore)).
Proof.
  destruct (toggle_namespace_flips "Shop" shopStore) as (Hflip & _).
  apply Hflip. apply not_elem_of_empty.
Defined.

(** Property X3.  On a store without diagram root and without expanded nodes
    (as after a load), [selectEntity a] makes [a] the selection, the diagram
    root and the only expanded node.  A later [selectEntity b] changes the
    selection to [b] and clears the navigation path, but the root stays [a]
    and the expanded set stays [{a}]. *)
Theorem select_entity_keeps_first_root (a b : ODataEntity) (s : Store) :
  diagramRootEntity (state s) = None → diagramExpandedNodes (state s) = ∅ →
  let s1 := selectEntity (Some a) s in
  let s2 := selectEntity (Some b) s1 in
  selectedEntity (state s1) = Some a
  ∧ diagramRootEntity (state s1) = Some a
  ∧ diagramExpandedNodes (state s1) = {[ ent_name a ]}
  ∧ selectedEntity (state s2) = Some b
  ∧ diagramRootEntity (state s2) = Some a
  ∧ diagramExpandedNodes (state s2) = {[ ent_name a ]}
  ∧ navigationPath (state s2) = [].
Proof.
  intros Hroot Hexp s1 s2.
  assert (H1 : selectedEntity (state s1) = Some a
               ∧ diagramRootEntity (state s1) = Some a
               ∧ diagramExpandedNodes (state s1) = {[ ent_name a ]}).
  { subst s1. unfold selectEntity, assign, notify.
    cbn [state selectedEntity diagramRootEntity diagramExpandedNodes].
    by rewrite Hroot, Hexp, size_empty. }
  destruct H1 as (Hsel & Hr & He). split; [done |]. split; [done |]. split; [done |].
  subst s2. unfold selectEntity at 1 2 3 4. unfold assign, notify.
  cbn [state selectedEntity diagramRootEntity diagramExpandedNodes navigationPath].
  rewrite Hr, He, size_singleton. done.
Qed.

Lemma select_entity_keeps_first_root_witness :
  let s2 := selectEntity (Some sampleOrder)
              (selectEntity (Some sampleCustomer)
                 (setMetadata (Some sampleMetadata) initialStore)) in
  selectedEntity (state s2) = Some sampleOrder
  ∧ diagramRootEntity (state s2) = Some sampleCustomer.
Proof.
  destruct (select_entity_keeps_first_root sampleCustomer sampleOrder
              (setMetadata (Some sampleMetadata) initialStore) eq_refl eq_refl)
    as (_ & _ & _ & Hsel & Hroot & _).
  by split.
Defined.

Lemma toggles_keep_root (names : list string) (s : Store) :
  state (foldl (fun s n => toggleDiagramNode n s) s names)
  = withExpanded (state s)
      (diagramExpandedNodes (state (foldl (fun s n => toggleDiagramNode n s) s names))).
Proof.
  revert s. induction names as [|n names IH]; intros s; simpl.
  - apply state_eta.
  - rewrite IH at 1. unfold toggleDiagramNode at 2, assign, notify, withExpanded.
    by cbn.
Qed.

(** Property X4.  [startDiagramFrom entity] selects [entity], makes it the
    root and the only expanded node.  However many nodes are toggled
    afterwards, [resetDiagram] gives that state again, and resetting twice is
    resetting once. *)
Theorem reset_diagram_undoes_toggles (entity : ODataEntity) (names : list string)
    (s : Store) :
  let fresh := startDiagramFrom entity s in
  let toggled := foldl (fun s n => toggleDiagramNode n s) fresh names in
  state (resetDiagram toggled) = state fresh
  ∧ state (resetDiagram (resetDiagram toggled)) = state (resetDiagram toggled)
  ∧ diagramExpandedNodes (state fresh) = {[ ent_name entity ]}
  ∧ diagramRootEntity (state fresh) = Some entity
  ∧ selectedEntity (state fresh) = Some entity.
Proof.
  intros fresh toggled.
  assert (Hreset : state (resetDiagram toggled) = state fresh).
  { unfold resetDiagram, assign, notify. cbn [state].
    subst toggled. rewrite (toggles_keep_root names fresh). by cbn. }
  split; [done |]. split; [| done].
  unfold resetDiagram at 1. unfold assign, notify. cbn [state]. rewrite Hreset.
  by cbn.
Qed.

(** Property X5.  [selectFromDiagram entityName] leaves the store as it is,
    listeners not called, when no entity of the loaded metadata has that name.
    When one has, the selection becomes an entity of the metadata with that
    name, the name is added to the expanded nodes, the diagram root and the
    navigation path are kept, and the listeners are called once. *)
Theorem select_from_diagram_cases (entityName : string) (s : Store) :
  ((∀ md e, metadata (state s) = Some md → e ∈ allEntities md → ent_name e ≠ entityName) →
   selectFromDiagram entityName s = s)
  ∧ (∀ md e, metadata (state s) = Some md → e ∈ allEntities md → ent_name e = entityName →
       let s' := selectFromDiagram entityName s in
       (∃ e', selectedEntity (state s') = Some e' ∧ ent_name e' = entityName
              ∧ e' ∈ allEntities md)
       ∧ diagramExpandedNodes (state s') = {[ entityName ]} ∪ diagramExpandedNodes (state s)
       ∧ diagramRootEntity (state s') = diagramRootEntity (state s)
       ∧ navigationPath (state s') = navigationPath (state s)
       ∧ notified s' = (notified s ++ [state s'])%list).
Proof.
  unfold selectFromDiagram. split.
  - intros Hnone. destruct (metadata (state s)) as [md|] eqn:Hmd; [| done].
    destruct (List.find _ _) as [e|] eqn:Hfind; [| done].
    apply find_some in Hfind as [Hin Heq]. apply String.eqb_eq in Heq.
    destruct (Hnone md e eq_refl); [by apply list_elem_of_In | done].
  - intros md e Hmd Hin Hname. rewrite Hmd.
    destruct (List.find _ _) as [e'|] eqn:Hfind.
    + apply find_some in Hfind as [Hin' Heq]. apply String.eqb_eq in Heq. simpl.
      split; [| done]. exists e'. split; [done |]. split; [done | by apply list_elem_of_In].
    + apply list_elem_of_In in Hin. pose proof (find_none _ _ Hfind e Hin) as Hno.
      simpl in Hno. apply String.eqb_neq in Hno. done.
Qed.

Lemma select_from_diagram_cases_witness :
  let s := startDiagramFrom sampleCustomer (setMetadata (Some sampleMetadata) initialStore) in
  diagramExpandedNodes (state (selectFromDiagram "Order" s)) = {[ "Order" ]} ∪ {[ "Customer" ]}
  ∧ selectFromDiagram "Supplier" s = s.
Proof.
  pose (s := startDiagramFrom sampleCustomer (setMetadata (Some sampleMetadata) initialStore)).
  destruct (select_from_diagram_cases "Order" s) as [_ Hfound].
  destruct (select_from_diagram_cases "Supplier" s) as [Hmissing _].
  split.
  - destruct (Hfound sampleMetadata sampleOrder eq_refl) as (_ & Hexp & _);
      [apply list_elem_of_In; right; left; reflexivity | reflexivity | exact Hexp].
  - apply Hmissing. intros md e [= <-] Hin.
    apply list_elem_of_In in Hin. destruct Hin as [<- | [<- | []]]; discriminate.
Defined.

(** Property X6.  [navigateInto propertyName typeName] does nothing when
    [getComplexType typeName] finds no complex type.  When it finds one, the
    path grows by one step that carries the two names, only the path changes,
    [getCurrentViewType] shows that complex type, and [navigateBack] restores
    the state from before, after two notifications in all.  On an empty path
    [navigateBack] does nothing. *)
Theorem navigate_into_then_back (propertyName typeName : string) (s : Store) :
  let s1 := navigateInto propertyName typeName s in
  match getComplexType (state s) typeName with
  | None => s1 = s
  | Some complexType =>
      navigationPath (state s1)
      = (navigationPath (state s)
         ++ [{| step_kind := StepComplex;
                step_typeName := typeName;
                step_propertyName := propertyName;
                step_displayName := Js.stripComplexPrefix typeName |}])%list
      ∧ state s1 = withPath (state s) (navigationPath (state s1))
      ∧ getCurrentViewType (state s1) = Some (ComplexView complexType)
      ∧ state (navigateBack s1) = state s
      ∧ notified (navigateBack s1) = (notified s ++ [state s1; state s])%list
  end
  ∧ (navigationPath (state s) = [] → navigateBack s = s).
Proof.
  intros s1. split; [| by unfold navigateBack; intros ->].
  subst s1. unfold getComplexType, navigateInto.
  destruct (metadata (state s)) as [md|] eqn:Hmd; [| done].
  fold (complexTypeNamed typeName).
  destruct (List.find _ _) as [ct|] eqn:Hfind; [| done].
  set (step := {| step_kind := StepComplex; step_typeName := typeName;
                  step_propertyName := propertyName;
                  step_displayName := Js.stripComplexPrefix typeName |}).
  unfold assign, notify. cbn [state notified navigationPath].
  split; [done |]. split; [done |]. split.
  { unfold getCurrentViewType. cbn [metadata navigationPath selectedEntity].
    rewrite Hmd, last_snoc. cbn [step_typeName step]. by rewrite Hfind. }
  unfold navigateBack. cbn [state notified navigationPath].
  destruct (navigationPath (state s) ++ [step])%list as [|x l] eqn:Hpath.
  { by destruct (navigationPath (state s)). }
  rewrite <- Hpath. unfold assign, notify.
  cbn [state notified navigationPath metadata selectedEntity searchQuery error loading
       collapsedNamespaces diagramRootEntity diagramExpandedNodes].
  rewrite List.removelast_last. split.
  - symmetry. apply state_eta.
  - rewrite <- app_assoc. simpl. do 3 f_equal. symmetry. apply state_eta.
Qed.

Lemma navigate_into_then_back_witness :
  state (navigateBack (navigateInto "Addresses" "c_Address" shopDiagram)) = state shopDiagram
  ∧ navigateBack shopDiagram = shopDiagram.
Proof.
  destruct (navigate_into_then_back "Addresses" "c_Address" shopDiagram) as [Hinto Hback].
  split; [| by apply Hback].
  change (getComplexType (state shopDiagram) "c_Address")
    with (Some (List.nth 0 (allComplexTypes shopMetadata)
                  (Parser.parseComplexType (edmElement "ComplexType" [] []) "")))
    in Hinto.
  by destruct Hinto as (_ & _ & _ & Hstate & _).
Defined.

(** Property X7.  [navigateToIndex index] does nothing for an index below
    [-1].  Otherwise it keeps the first [index + 1] steps of the path and
    nothing else changes: [-1] clears the path, an index at or past the last
    step keeps it whole, the step at [index], when there is one, becomes the
    last, and doing it twice is doing it once. *)
Theorem navigate_to_index_truncates (index : Z) (s : Store) :
  let s' := navigateToIndex index s in
  let path := navigationPath (state s) in
  ((index < -1)%Z → s' = s)
  ∧ ((-1 ≤ index)%Z →
       navigationPath (state s') = take (Z.to_nat (index + 1)) path
       ∧ state s' = withPath (state s) (navigationPath (state s'))
       ∧ notified s' = (notified s ++ [state s'])%list
       ∧ (∀ i step, index = Z.of_nat i → path !! i = Some step →
            last (navigationPath (state s')) = Some step)
       ∧ state (navigateToIndex index s') = state s').
Proof.
  intros s' path. subst s' path. unfold navigateToIndex. split.
  - intros Hlt. by rewrite (proj2 (Z.ltb_lt _ _) Hlt).
  - intros Hge. rewrite (proj2 (Z.ltb_ge _ _) Hge).
    unfold assign, notify. cbn [state notified navigationPath].
    assert (Hpath : (if (index =? -1)%Z then []
                     else take (Z.to_nat (index + 1)) (navigationPath (state s)))
                    = take (Z.to_nat (index + 1)) (navigationPath (state s))).
    { destruct (Z.eqb_spec index (-1)) as [-> |]; [done | done]. }
    rewrite Hpath. split; [done |]. split; [done |]. split; [done |]. split.
    + intros i step -> Hi. replace (Z.to_nat (Z.of_nat i + 1)) with (S i) by lia.
      rewrite (take_S_r _ _ _ Hi). apply last_snoc.
    + unfold withPath.
      cbn [metadata selectedEntity searchQuery error loading collapsedNamespaces
           diagramRootEntity diagramExpandedNodes navigationPath].
      f_equal. destruct (index =? -1)%Z; [done |]. by rewrite take_take, Nat.min_id.
Qed.

Lemma navigate_to_index_truncates_witness :
  let step n := {| step_kind := StepComplex; step_typeName := n;
                   step_propertyName := "Items"; step_displayName := n |} in
  let s := mkStore (withPath initialState [step "A"; step "B"; step "C"]) [] in
  navigateToIndex (-2) s = s
  ∧ navigationPath (state (navigateToIndex 1 s)) = [step "A"; step "B"]
  ∧ navigationPath (state (navigateToIndex 7 s)) = [step "A"; step "B"; step "C"].
Proof.
  intros step s.
  destruct (navigate_to_index_truncates (-2) s) as [Hnoop _].
  destruct (navigate_to_index_truncates 1 s) as [_ Hone].
  destruct (navigate_to_index_truncates 7 s) as [_ Hseven].
  split; [apply Hnoop; lia |]. split.
  - destruct Hone as [-> _]; [lia | reflexivity].
  - destruct Hseven as [-> _]; [lia | reflexivity].
Defined.

(** Property X8.  With metadata loaded, the view after [selectEntity] or
    [startDiagramFrom] of an entity is that entity, and no view is left after
    [selectEntity] of nothing.  [selectFromDiagram] keeps the path, so a
    complex type that is being viewed stays in view whatever entity is
    selected through it. *)
Theorem current_view_after_selection (e : ODataEntity) (name : string) (s : Store) :
  metadata (state s) ≠ None →
  getCurrentViewType (state (selectEntity (Some e) s)) = Some (EntityView e)
  ∧ getCurrentViewType (state (startDiagramFrom e s)) = Some (EntityView e)
  ∧ getCurrentViewType (state (selectEntity None s)) = None
  ∧ (∀ ct, getCurrentViewType (state s) = Some (ComplexView ct) →
       getCurrentViewType (state (selectFromDiagram name s)) = Some (ComplexView ct)).
Proof.
  intros Hmd. destruct (metadata (state s)) as [md|] eqn:Hmeta; [clear Hmd | done].
  unfold getCurrentViewType, selectEntity, startDiagramFrom, assign, notify.
  cbn [state metadata navigationPath selectedEntity]. rewrite Hmeta. cbn [last].
  split; [done |]. split; [done |]. split; [done |].
  intros ct Hview. unfold selectFromDiagram. rewrite Hmeta.
  destruct (List.find _ (allEntities md)) as [found|]; unfold assign, notify;
    cbn [state metadata navigationPath selectedEntity]; rewrite ?Hmeta.
  - destruct (last (navigationPath (state s))) as [lastStep|]; [| by destruct (selectedEntity (state s))].
    destruct (List.find _ (allComplexTypes md)); [done | by destruct (selectedEntity (state s))].
  - done.
Qed.

Lemma current_view_after_selection_witness :
  getCurrentViewType
    (state (selectEntity (Some sampleOrder) (setMetadata (Some sampleMetadata) initialStore)))
  = Some (EntityView sampleOrder).
Proof.
  by destruct (current_view_after_selection sampleOrder "Order"
                 (setMetadata (Some sampleMetadata) initialStore)) as [-> _].
Defined.

(** Every assignment ends with a notification. *)
Lemma assign_in_sync (f : AppState → AppState) (s : Store) : InSync (assign f s).
Proof. right. unfold assign, notify. simpl. apply last_snoc. Qed.

Lemma Forall_removelast {A : Type} (P : A → Prop) (l : list A) :
  Forall P l → Forall P (List.removelast l).
Proof.
  induction 1 as [|a l Ha Hl IH]; [constructor |].
  destruct l as [|b rest]; [constructor | by constructor].
Qed.

(** Property X9.  Whatever sequence of store methods has run, the listeners
    have been shown the current state (or nothing has happened yet), and every
    step of the navigation path is a complex-type step whose display name is
    its type name without a leading [c_]. *)
Theorem reachable_store_invariants (s : Store) :
  Reachable s →
  InSync s ∧ Forall StepOk (navigationPath (state s)).
Proof.
  induction 1 as [| md s _ [_ IH] | e s _ [_ IH] | e s _ [_ IH] | n s _ [_ IH]
                  | n s _ [IHs IH] | s _ [_ IH] | q s _ [_ IH] | e s _ [_ IH]
                  | l s _ [_ IH] | n s _ [_ IH] | p t s _ [IHs IH] | s _ [IHs IH]
                  | i s _ [IHs IH]];
    try (split; [apply assign_in_sync | by simpl]).
  - split; [by left | constructor].
  - unfold selectFromDiagram. destruct (metadata (state s)) as [md|]; [| done].
    destruct (List.find _ _); [| done]. split; [apply assign_in_sync | done].
  - unfold navigateInto. destruct (metadata (state s)) as [md|]; [| done].
    destruct (List.find _ _); [| done]. split; [apply assign_in_sync |].
    simpl. apply Forall_app. split; [done |]. by repeat constructor.
  - unfold navigateBack. destruct (navigationPath (state s)) as [|x l] eqn:Hpath;
      [by rewrite <- Hpath in IH |].
    split; [apply assign_in_sync |]. unfold assign, notify.
    cbn [state navigationPath]. rewrite Hpath. by apply Forall_removelast.
  - unfold navigateToIndex. destruct (i <? -1)%Z; [done |].
    split; [apply assign_in_sync |]. simpl.
    destruct (i =? -1)%Z; [constructor | by apply Forall_take].
Qed.

Lemma reachable_store_invariants_witness :
  InSync (navigateBack (navigateInto "Addresses" "c_Address"
            (setMetadata (Some sampleMetadata) initialStore))).
Proof.
  apply reachable_store_invariants. repeat constructor.
Defined.

Lemma pushToNamespace_keys (grouped : list (string * list ODataEntity)) (ns : string)
    (e : ODataEntity) :
  List.map fst (pushToNamespace grouped ns e)
  = if bool_decide (ns ∈ List.map fst grouped) then List.map fst grouped
    else (List.map fst grouped ++ [ns])%list.
Proof.
  induction grouped as [|[k members] others IH]; simpl; [done |].
  destruct (String.eqb_spec k ns) as [-> | Hne]; simpl.
  - rewrite bool_decide_eq_true_2; [done | by left].
  - rewrite IH. destruct (bool_decide (ns ∈ List.map fst others)) eqn:Hin.
    + apply bool_decide_eq_true in Hin. rewrite bool_decide_eq_true_2; [done | by right].
    + apply bool_decide_eq_false in Hin. rewrite bool_decide_eq_false_2; [done |].
      rewrite elem_of_cons. naive_solver.
Qed.

Lemma pushToNamespace_members (grouped : list (string * list ODataEntity)) (ns : string)
    (e : ODataEntity) (k : string) (members : list ODataEntity) :
  NoDup (List.map fst grouped) →
  (k, members) ∈ pushToNamespace grouped ns e ↔
    (k ≠ ns ∧ (k, members) ∈ grouped)
    ∨ (k = ns ∧ ∃ old, members = (old ++ [e])%list
                       ∧ ((ns, old) ∈ grouped ∨ (old = [] ∧ ns ∉ List.map fst grouped))).
Proof.
  induction grouped as [|[k' members'] others IH]; simpl; intros Hnodup.
  - rewrite list_elem_of_singleton. split.
    + intros [= -> ->]. right. split; [done |]. exists []. split; [done |]. right.
      split; [done | by apply not_elem_of_nil].
    + intros [[_ H] | [-> (old & -> & [H | [-> _]])]];
        [by apply not_elem_of_nil in H | by apply not_elem_of_nil in H | done].
  - apply NoDup_cons in Hnodup as [Hfresh Hnodup].
    assert (Hkey : ∀ ms, (k', ms) ∈ others → False).
    { intros ms Hin. apply Hfresh. apply list_elem_of_fmap. by exists (k', ms). }
    destruct (String.eqb_spec k' ns) as [-> | Hne].
    + rewrite !elem_of_cons. split.
      * intros [Heq | Hin].
        -- simplify_eq. right. split; [done |]. exists members'.
           split; [done |]. left. by left.
        -- left. split; [| by right]. intros ->. by eapply Hkey.
      * intros [[Hk [Heq | Hin]] | [-> (old & -> & [Hin | [-> Hnot]])]].
        -- by simplify_eq.
        -- by right.
        -- apply elem_of_cons in Hin as [Heq | Hin].
           ++ simplify_eq. by left.
           ++ exfalso. by eapply Hkey.
        -- exfalso. apply Hnot. by left.
    + rewrite !elem_of_cons, (IH Hnodup). split.
      * intros [Heq | [[Hk Hin] | [-> (old & -> & [Hin | [-> Hnot]])]]].
        -- simplify_eq. left. split; [done | by left].
        -- left. split; [done | by right].
        -- right. split; [done |]. exists old. split; [done |]. left. by right.
        -- right. split; [done |]. exists []. split; [done |]. right. split; [done |].
           intros [? | ?]%elem_of_cons; [by apply Hne | done].
      * intros [[Hk [Heq | Hin]] | [-> (old & -> & [Hin | [-> Hnot]])]].
        -- by left.
        -- right. left. by split.
        -- apply elem_of_cons in Hin as [Heq | Hin]; [by simplify_eq |].
           right. right. split; [done |]. exists old. split; [done |]. by left.
        -- right. right. split; [done |]. exists []. split; [done |]. right.
           split; [done |]. intros Hin. apply Hnot. by right.
Qed.

Lemma group_entities_spec (entities : list ODataEntity) :
  let grouped :=
    foldl (fun grouped entity => pushToNamespace grouped (namespaceKey entity) entity)
          [] entities in
  NoDup (List.map fst grouped)
  ∧ (∀ k, k ∈ List.map fst grouped ↔ ∃ e, e ∈ entities ∧ namespaceKey e = k)
  ∧ (∀ k members, (k, members) ∈ grouped →
       members = List.filter (fun e => String.eqb (namespaceKey e) k) entities
       ∧ members ≠ []).
Proof.
  induction entities as [|e entities IH] using rev_ind; simpl.
  - split; [constructor |]. split.
    + intros k. split; [by intros H%not_elem_of_nil |].
      by intros (e & H%not_elem_of_nil & _).
    + by intros k members H%not_elem_of_nil.
  - rewrite foldl_app. simpl. destruct IH as (Hnodup & Hkeys & Hmembers).
    set (grouped := foldl _ [] entities) in *.
    assert (Hk : ∀ k, k ∈ List.map fst (pushToNamespace grouped (namespaceKey e) e)
                      ↔ k ∈ List.map fst grouped ∨ k = namespaceKey e).
    { intros k. rewrite pushToNamespace_keys.
      destruct (bool_decide (namespaceKey e ∈ List.map fst grouped)) eqn:Hin.
      - apply bool_decide_eq_true in Hin. naive_solver.
      - rewrite elem_of_app, list_elem_of_singleton. naive_solver. }
    split; [| split].
    + rewrite pushToNamespace_keys.
      destruct (bool_decide (namespaceKey e ∈ List.map fst grouped)) eqn:Hin; [done |].
      apply bool_decide_eq_false in Hin. apply NoDup_app. split; [done |]. split.
      * intros x Hx ->%list_elem_of_singleton. done.
      * apply NoDup_singleton.
    + intros k. rewrite Hk, Hkeys. split.
      * intros [(e' & Hin & Hkey) | ->].
        -- exists e'. split; [| done]. apply elem_of_app. by left.
        -- exists e. split; [| done]. apply elem_of_app. right. by left.
      * intros (e' & [Hin | ->%list_elem_of_singleton]%elem_of_app & Hkey).
        -- left. by exists e'.
        -- by right.
    + intros k members Hin. rewrite List.filter_app. simpl.
      apply pushToNamespace_members in Hin; [| done].
      destruct Hin as [[Hne Hin] | [-> (old & -> & [Hin | [-> Hnot]])]].
      * destruct (Hmembers _ _ Hin) as [<- Hnon].
        destruct (String.eqb_spec (namespaceKey e) k); [done |].
        by rewrite app_nil_r.
      * destruct (Hmembers _ _ Hin) as [<- Hnon].
        rewrite String.eqb_refl. split; [done | by destruct old].
      * rewrite String.eqb_refl. split; [| done].
        destruct (List.filter _ entities) as [|x xs] eqn:Hfilter; [done |].
        exfalso. apply Hnot, Hkeys.
        assert (Hx : In x (List.filter
                            (fun e0 => String.eqb (namespaceKey e0) (namespaceKey e))
                            entities)) by (rewrite Hfilter; by left).
        apply List.filter_In in Hx as [Hx Hkey]. apply String.eqb_eq in Hkey.
        exists x. split; [by apply list_elem_of_In | done].
Qed.

(** Property X10.  [getEntitiesByNamespace] partitions the filtered entities:
    no namespace key occurs twice, the keys are the namespaces of the filtered
    entities ([Default] standing for the empty namespace, so the empty string
    is never a key), and the group of a key holds the filtered entities of that
    namespace, all of them, in their order, and is never empty. *)
Theorem entities_by_namespace_partition (st : AppState) :
  let grouped := getEntitiesByNamespace st in
  NoDup (List.map fst grouped)
  ∧ (∀ ns, ns ∈ List.map fst grouped
           ↔ ∃ e, e ∈ getFilteredEntities st ∧ namespaceKey e = ns)
  ∧ (∀ ns members, (ns, members) ∈ grouped →
       members ≠ []
       ∧ members = List.filter (fun e => String.eqb (namespaceKey e) ns)
                               (getFilteredEntities st))
  ∧ "" ∉ List.map fst grouped.
Proof.
  intros grouped. subst grouped. unfold getEntitiesByNamespace.
  destruct (group_entities_spec (getFilteredEntities st)) as (Hnodup & Hkeys & Hmembers).
  split; [done |]. split; [done |]. split.
  - intros ns members Hin. by destruct (Hmembers _ _ Hin).
  - intros Hin. apply Hkeys in Hin as (e & _ & Hkey). unfold namespaceKey in Hkey.
    by destruct (String.eqb_spec (ent_namespace e) "").
Qed.

Lemma entities_by_namespace_partition_witness :
  List.map (fun group => (fst group, List.map ent_name (snd group)))
           (getEntitiesByNamespace (state shopStore))
  = [("Shop", ["Customer"; "Order"])]
  ∧ NoDup (List.map fst (getEntitiesByNamespace (state shopStore))).
Proof.
  split; [reflexivity |].
  by destruct (entities_by_namespace_partition (state shopStore)) as (? & _).
Defined.

(** Property X11.  Whatever the input, [handleParse] ends with [loading]
    false and the search query untouched, and leaves no error exactly when the
    input is not blank and parses.  A blank input sets the message
    [Please provide XML content] and keeps metadata and selection.  A
    successful parse stores the new metadata with selection, root and expanded
    nodes cleared; of its four notifications only the first shows [loading]
    true, since [setError(null)] switches the flag off again. *)
Theorem handle_parse_outcomes (parseFromString : string → Dom.Document) (xml : string)
    (s : Store) :
  let s' := Input.handleParse parseFromString xml s in
  let st := state s in
  loading (state s') = false
  ∧ searchQuery (state s') = searchQuery st
  ∧ (error (state s') = None
     ↔ Js.trim xml ≠ "" ∧ ∃ md, Parser.parseODataMetadata (parseFromString xml) = Ok md)
  ∧ (Js.trim xml = "" →
       error (state s') = Some "Please provide XML content"
       ∧ metadata (state s') = metadata st
       ∧ selectedEntity (state s') = selectedEntity st
       ∧ notified s' = (notified s ++ [state s'])%list)
  ∧ (∀ md, Js.trim xml ≠ "" → Parser.parseODataMetadata (parseFromString xml) = Ok md →
       state s' = {| metadata := Some md;
                     selectedEntity := None;
                     searchQuery := searchQuery st;
                     error := None;
                     loading := false;
                     collapsedNamespaces := ∅;
                     diagramRootEntity := None;
                     diagramExpandedNodes := ∅;
                     navigationPath := navigationPath st |}
       ∧ ∃ busy cleared loaded,
           notified s' = (notified s ++ [busy; cleared; loaded; state s'])%list
           ∧ loading busy = true ∧ metadata busy = metadata st
           ∧ loading cleared = false ∧ metadata cleared = metadata st
           ∧ loading loaded = false ∧ metadata loaded = Some md).
Proof.
  intros s' st. subst s' st. unfold Input.handleParse.
  destruct (String.eqb_spec (Js.trim xml) "") as [Hblank | Hblank].
  - split; [done |]. split; [done |]. split; [| split].
    + split; [done | by intros [? _]].
    + intros _. unfold setError, assign, notify. by cbn.
    + by intros md Hne.
  - destruct (Parser.parseODataMetadata (parseFromString xml)) as [md | msg] eqn:Hparse.
    + split; [done |]. split; [done |]. split; [| split; [done |]].
      * split; [intros _ | done]. split; [done | by exists md].
      * intros md' _ [= <-]. split; [done |].
        eexists _, _, _. unfold setLoading, setError, setMetadata, assign, notify.
        cbn [state notified]. rewrite <- !app_assoc. cbn.
        split; [reflexivity | by cbn].
    + split; [done |]. split; [done |]. split; [| split; [done | done]].
      split; [| by intros [_ [md Hmd]]].
      unfold setError, assign, notify. by cbn.
Qed.

Lemma handle_parse_outcomes_witness :
  error (state (Input.handleParse sampleParseFromString "  " initialStore))
  = Some "Please provide XML content".
Proof.
  destruct (handle_parse_outcomes sampleParseFromString "  " initialStore)
    as (_ & _ & _ & Hblank & _).
  by destruct Hblank as [-> _].
Defined.

(** *** The parser *)

Lemma orDefault_nonempty (x : option string) (d : string) :
  d ≠ "" → Js.orDefault x d ≠ "".
Proof.
  intros Hd. unfold Js.orDefault. destruct x as [s|]; [| done].
  by destruct (String.eqb_spec s "").
Qed.

Lemma orUndefined_nonempty (x : option string) : Js.orUndefined x ≠ Some "".
Proof.
  unfold Js.orUndefined. destruct x as [s|]; [| done].
  destruct (String.eqb_spec s ""); [done | congruence].
Qed.

Lemma parseProperty_ok (el : Dom.Element) (keys : list string) :
  PropertyOk keys (Parser.parseProperty el keys).
Proof.
  unfold PropertyOk, Parser.parseProperty. cbn [prop_name prop_type prop_isKey].
  split; [by apply orDefault_nonempty |]. split; [by apply orDefault_nonempty |].
  apply bool_decide_eq_true.
Qed.

Lemma parseNavigationProperty_ok (el : Dom.Element) :
  NavigationOk (Parser.parseNavigationProperty el).
Proof.
  unfold NavigationOk, Parser.parseNavigationProperty.
  cbn [nav_name nav_partner nav_referentialConstraints nav_targetEntity].
  split; [by apply orDefault_nonempty |]. split; [apply orUndefined_nonempty |]. split.
  - by destruct (List.map _ (Parser.findElements el "ReferentialConstraint")).
  - unfold Parser.targetOfType. apply last_split_segment.
Qed.

Lemma Forall_map_intro {A B : Type} (P : B → Prop) (f : A → B) (l : list A) :
  (∀ x, P (f x)) → Forall P (List.map f l).
Proof. intros H. induction l; constructor; auto. Qed.

Lemma parseEntityType_ok (el : Dom.Element) (namespace : string) :
  namespace ≠ "" →
  EntityOk (Parser.parseEntityType el namespace)
  ∧ ent_namespace (Parser.parseEntityType el namespace) = namespace.
Proof.
  intros Hns. split; [| done]. unfold EntityOk, Parser.parseEntityType.
  cbn [ent_name ent_namespace ent_fullName ent_baseType ent_keyProperties ent_properties
       ent_navigationProperties].
  split; [by apply orDefault_nonempty |]. split; [done |]. split; [done |].
  split; [apply orUndefined_nonempty |]. split; [| split].
  - destruct (Parser.findElement el "Key") as [keyElement|]; [| constructor].
    induction (Parser.findElements keyElement "PropertyRef") as [|ref refs IH];
      [constructor |].
    simpl. pose proof (orUndefined_nonempty (Dom.getAttribute ref "Name")) as Hname.
    destruct (Js.orUndefined (Dom.getAttribute ref "Name")) as [keyName|]; [| done].
    simpl. constructor; [congruence | done].
  - apply Forall_map_intro. intros x. apply parseProperty_ok.
  - apply Forall_map_intro. intros x. apply parseNavigationProperty_ok.
Qed.

Lemma parseComplexType_ok (el : Dom.Element) (namespace : string) :
  namespace ≠ "" →
  ComplexTypeOk (Parser.parseComplexType el namespace)
  ∧ ct_namespace (Parser.parseComplexType el namespace) = namespace.
Proof.
  intros Hns. split; [| done]. unfold ComplexTypeOk, Parser.parseComplexType, keysOf.
  cbn [ct_name ct_namespace ct_fullName ct_baseType ct_keyProperty ct_properties
       ct_navigationProperties].
  split; [by apply orDefault_nonempty |]. split; [done |]. split; [done |].
  split; [apply orUndefined_nonempty |]. split; [| split].
  - pose proof (orUndefined_nonempty
                  (Dom.getAttributeNS el "https://www.elite.com/schemas" "Key")) as H1.
    destruct (Js.orUndefined (Dom.getAttributeNS el _ "Key")); [done |].
    apply orUndefined_nonempty.
  - apply Forall_map_intro. intros x. apply parseProperty_ok.
  - apply Forall_map_intro. intros x. apply parseNavigationProperty_ok.
Qed.

Lemma parseEnumType_ok (el : Dom.Element) (namespace : string) :
  namespace ≠ "" →
  EnumTypeOk (Parser.parseEnumType el namespace)
  ∧ enum_namespace (Parser.parseEnumType el namespace) = namespace.
Proof.
  intros Hns. split; [| done]. unfold EnumTypeOk, Parser.parseEnumType.
  cbn [enum_name enum_namespace enum_fullName enum_underlyingType enum_members].
  split; [by apply orDefault_nonempty |]. split; [done |]. split; [done |].
  split; [apply orUndefined_nonempty |].
  apply Forall_map_intro. intros x. cbn [mem_name mem_value].
  split; [by apply orDefault_nonempty | apply orUndefined_nonempty].
Qed.

Lemma parseSchema_ok (el : Dom.Element) : SchemaOk (Parser.parseSchema el).
Proof.
  unfold SchemaOk, Parser.parseSchema.
  cbn [schema_namespace schema_alias schema_entities schema_complexTypes schema_enumTypes].
  assert (Hns : Js.orDefault (Dom.getAttribute el "Namespace") "Default" ≠ "")
    by by apply orDefault_nonempty.
  split; [done |]. split; [apply orUndefined_nonempty |].
  split; [| split]; apply Forall_map_intro; intros x.
  - by apply parseEntityType_ok.
  - by apply parseComplexType_ok.
  - by apply parseEnumType_ok.
Qed.

Lemma Forall_flat_map_intro {A B : Type} (P : B → Prop) (Q : A → Prop) (f : A → list B)
    (l : list A) :
  Forall Q l → (∀ x, Q x → Forall P (f x)) → Forall P (List.flat_map f l).
Proof.
  intros Hl Hf. induction Hl as [|x l Hx Hl IH]; simpl; [constructor |].
  apply Forall_app. split; [by apply Hf | done].
Qed.

(** Property X12.  Whatever document parses, the result is well formed:
    version, names and namespaces are never empty ([4.0], [Unknown], [Default]
    and [Edm.String] stand in), a full name is namespace, dot, name, optional
    attributes are absent rather than empty, a property is flagged as key
    exactly when its name is among the key names of its owner, targets of
    navigation properties have no dot, and [allEntities], [allComplexTypes]
    and [allEnumTypes] are the concatenations over the schemas. *)
Theorem parsed_metadata_well_formed (doc : Dom.Document) (md : ODataMetadata) :
  Parser.parseODataMetadata doc = Ok md →
  version md ≠ ""
  ∧ Forall SchemaOk (schemas md)
  ∧ Forall EntityOk (allEntities md)
  ∧ Forall ComplexTypeOk (allComplexTypes md)
  ∧ Forall EnumTypeOk (allEnumTypes md)
  ∧ allEntities md = List.flat_map schema_entities (schemas md)
  ∧ allComplexTypes md = List.flat_map schema_complexTypes (schemas md)
  ∧ allEnumTypes md = List.flat_map schema_enumTypes (schemas md).
Proof.
  unfold Parser.parseODataMetadata.
  destruct (Dom.querySelector doc "parsererror"); [done |].
  destruct (Dom.documentElement doc) as [root|]; [| done].
  destruct (negb _); [done |].
  destruct (Parser.findElement root "DataServices") as [dataServices|]; [| done].
  intros [= <-]. cbn [version schemas allEntities allComplexTypes allEnumTypes].
  assert (Hschemas : Forall SchemaOk
            (List.map Parser.parseSchema (Parser.findElements dataServices "Schema"))).
  { apply Forall_map_intro. apply parseSchema_ok. }
  split; [by apply orDefault_nonempty |]. split; [done |].
  split; [| split; [| split; [| done]]].
  - eapply Forall_flat_map_intro; [exact Hschemas |].
    intros x (_ & _ & H & _). eapply Forall_impl; [exact H |]. by intros e [? _].
  - eapply Forall_flat_map_intro; [exact Hschemas |].
    intros x (_ & _ & _ & H & _). eapply Forall_impl; [exact H |]. by intros e [? _].
  - eapply Forall_flat_map_intro; [exact Hschemas |].
    intros x (_ & _ & _ & _ & H). eapply Forall_impl; [exact H |]. by intros e [? _].
Qed.

Lemma parsed_metadata_well_formed_witness :
  Parser.parseODataMetadata shopEdmx = Ok shopMetadata
  ∧ Forall EntityOk (allEntities shopMetadata)
  ∧ List.map ent_fullName (allEntities shopMetadata) = ["Shop.Customer"; "Shop.Order"].
Proof.
  split; [reflexivity |]. split; [| reflexivity].
  by destruct (parsed_metadata_well_formed shopEdmx shopMetadata eq_refl) as (_ & _ & ? & _).
Defined.

Lemma children_descendants (parent el : Dom.Element) :
  el ∈ Dom.children parent → el ∈ Dom.descendants parent.
Proof.
  destruct parent as [ns p l a kids]. unfold Dom.children. simpl.
  intros Hin. apply list_elem_of_In, in_flat_map in Hin as (k & Hk & Hin).
  apply list_elem_of_In, in_flat_map. exists k. split; [done |].
  destruct k as [c | t]; [| done]. destruct Hin as [-> | []]. by left.
Qed.

(** Property X13.  Every element that [findElements] returns is a descendant
    of the parent with the requested local name; what [findElement] returns is
    a descendant with that local name or that qualified name.  When
    [findElement] finds nothing, [findElements] finds nothing either, and when
    the EDM namespace has matches, [findElements] returns all of them and
    [findElement] the first. *)
Theorem found_elements_are_named_descendants (parent : Dom.Element) (name : string) :
  (∀ el, el ∈ Parser.findElements parent name →
         Dom.localName el = name ∧ el ∈ Dom.descendants parent)
  ∧ (∀ el, Parser.findElement parent name = Some el →
           el ∈ Dom.descendants parent
           ∧ (Dom.localName el = name ∨ Dom.tagName el = name))
  ∧ (Parser.findElement parent name = None → Parser.findElements parent name = [])
  ∧ (Parser.findElements parent name ≠ [] → Parser.findElement parent name ≠ None)
  ∧ (∀ first others,
       Dom.getElementsByTagNameNS parent Parser.EDM_NS name = first :: others →
       Parser.findElements parent name = first :: others
       ∧ Parser.findElement parent name = Some first).
Proof.
  assert (HNS : ∀ ns el, el ∈ Dom.getElementsByTagNameNS parent ns name →
                         Dom.localName el = name ∧ el ∈ Dom.descendants parent).
  { intros ns el Hin. unfold Dom.getElementsByTagNameNS in Hin.
    apply list_elem_of_In, List.filter_In in Hin as [Hin Hf].
    apply andb_true_iff in Hf as [_ Hl%String.eqb_eq]. split; [done | by apply list_elem_of_In]. }
  assert (Hnone : Parser.findElement parent name = None → Parser.findElements parent name = []).
  { unfold Parser.findElement, Parser.findElements.
    destruct (Dom.getElementsByTagNameNS parent Parser.EDM_NS name) as [|e1 l1]; [| done].
    destruct (Dom.getElementsByTagNameNS parent Parser.EDMX_NS name) as [|e2 l2]; [| done].
    simpl. destruct (head (Dom.getElementsByTagName parent name)); [done |].
    intros Hfind. destruct (List.filter _ _) as [|c cs] eqn:Hfilter; [done |].
    assert (Hc : In c (List.filter (fun c => String.eqb (Dom.localName c) name)
                                   (Dom.children parent)))
      by (rewrite Hfilter; by left).
    apply List.filter_In in Hc as [Hc Hn].
    by rewrite (find_none _ _ Hfind c Hc) in Hn. }
  split; [| split; [| split; [done | split]]].
  - intros el. unfold Parser.findElements.
    destruct (Dom.getElementsByTagNameNS parent Parser.EDM_NS name) as [|e1 l1] eqn:H1.
    2: { intros Hin. apply (HNS Parser.EDM_NS). by rewrite H1. }
    destruct (Dom.getElementsByTagNameNS parent Parser.EDMX_NS name) as [|e2 l2] eqn:H2.
    2: { intros Hin. apply (HNS Parser.EDMX_NS). by rewrite H2. }
    intros Hin. apply list_elem_of_In, List.filter_In in Hin as [Hin Hl%String.eqb_eq].
    split; [done |]. by apply children_descendants, list_elem_of_In.
  - intros el. unfold Parser.findElement.
    destruct (Dom.getElementsByTagNameNS parent Parser.EDM_NS name) as [|e1 l1] eqn:H1.
    2: { simpl. intros [= <-]. destruct (HNS Parser.EDM_NS e1) as [? ?];
           [rewrite H1; by left |]. split; [done | by left]. }
    destruct (Dom.getElementsByTagNameNS parent Parser.EDMX_NS name) as [|e2 l2] eqn:H2.
    2: { simpl. intros [= <-]. destruct (HNS Parser.EDMX_NS e2) as [? ?];
           [rewrite H2; by left |]. split; [done | by left]. }
    simpl. destruct (Dom.getElementsByTagName parent name) as [|e3 l3] eqn:H3.
    2: { simpl. intros [= <-].
         assert (Hin : In e3 (Dom.getElementsByTagName parent name)) by (rewrite H3; by left).
         unfold Dom.getElementsByTagName in Hin.
         apply List.filter_In in Hin as [Hin Ht%String.eqb_eq].
         split; [by apply list_elem_of_In | by right]. }
    simpl. intros Hfind. apply find_some in Hfind as [Hin Hl%String.eqb_eq].
    split; [by apply children_descendants, list_elem_of_In | by left].
  - intros Hne Hfind. by apply Hne, Hnone.
  - intros first others Hns. unfold Parser.findElements, Parser.findElement.
    by rewrite Hns.
Qed.

Lemma found_elements_are_named_descendants_witness :
  ∃ root, Dom.documentElement shopEdmx = Some root
    ∧ length (Parser.findElements root "EntityType") = 2%nat
    ∧ ∀ el, el ∈ Parser.findElements root "EntityType" → Dom.localName el = "EntityType".
Proof.
  eexists. split; [reflexivity |]. split; [reflexivity |]. intros el Hel.
  match goal with
  | H : el ∈ Parser.findElements ?r ?n |- _ =>
      destruct (found_elements_are_named_descendants r n) as (Hnamed & _)
  end.
  by destruct (Hnamed el Hel).
Defined.

(** *** Nested collections *)

Lemma split_noDot (s : string) : Property.noDot s → Js.split "." s = [s].
Proof.
  intros Hnd. destruct (split_unfold s) as [[_ Hs] | (seg & s2 & _ & Hs & _)]; [done |].
  exfalso. unfold Property.noDot in Hnd.
  assert (Js.includes "." s = true); [| congruence].
  apply includes_spec. by exists seg, s2.
Qed.

Lemma split_app_dot (a b : string) :
  ∃ seg rest, Js.split "." (a ++ "." ++ b) = seg :: (rest ++ Js.split "." b)%list.
Proof.
  induction a as [|c a (seg & rest & IH)].
  - exists "", []. reflexivity.
  - rewrite append_cons. cbn [Js.split]. rewrite IH.
    destruct (Ascii.eqb c "."); [by exists "", (seg :: rest) | by exists (String c seg), rest].
Qed.

Lemma last_split_app_dot (a b : string) :
  List.last (Js.split "." (a ++ "." ++ b)) "" = List.last (Js.split "." b) "".
Proof.
  destruct (split_app_dot a b) as (seg & rest & ->).
  pose proof (split_nonempty "." b) as Hne.
  change (seg :: (rest ++ Js.split "." b))%list with ((seg :: rest) ++ Js.split "." b)%list.
  generalize (seg :: rest). intros l. induction l as [|x l IH]; [done |].
  simpl. destruct (l ++ Js.split "." b)%list eqn:Hl; [| done].
  by destruct l, (Js.split "." b).
Qed.

Lemma last_segment_of_qualified (a t : string) :
  Property.noDot t → List.last (Js.split "." (a ++ "." ++ t)) "" = t.
Proof. intros Hnd. by rewrite last_split_app_dot, split_noDot. Qed.

Lemma drop_suffix (n : nat) (s : string) : ∃ a, s = a ++ Js.drop n s.
Proof.
  revert s. induction n as [|n IH]; intros s; [by exists "" |].
  destruct s as [|c s]; [by exists "" |]. simpl. destruct (IH s) as [a Ha].
  exists (String c a). by rewrite append_cons, <- Ha.
Qed.

Lemma endsWith_suffix (p s : string) : Js.endsWith p s = true → ∃ a, s = a ++ p.
Proof.
  unfold Js.endsWith. intros [_ Heq%String.eqb_eq]%andb_true_iff.
  destruct (drop_suffix (String.length s - String.length p) s) as [a Ha].
  exists a. by rewrite <- Heq.
Qed.

Lemma complexTypeNamed_name (typeName : string) (ct : ODataComplexType) :
  SimplyNamed ct → Property.noDot typeName →
  complexTypeNamed typeName ct = true ↔ ct_name ct = typeName.
Proof.
  intros (Hne & Hnd & Hfull) Htype. unfold complexTypeNamed. rewrite orb_true_iff. split.
  - intros [Heq%String.eqb_eq | Hends]; [done |].
    apply endsWith_suffix in Hends as [a Ha].
    rewrite <- (last_segment_of_qualified (ct_namespace ct) (ct_name ct) Hnd), <- Hfull, Ha.
    by apply last_segment_of_qualified.
  - intros ->. left. apply String.eqb_refl.
Qed.

Lemma navigateInto_view (propertyName typeName : string) (s : Store)
    (ct : ODataComplexType) :
  getComplexType (state s) typeName = Some ct →
  getCurrentViewType (state (navigateInto propertyName typeName s)) = Some (ComplexView ct)
  ∧ navigationPath (state (navigateInto propertyName typeName s))
    = (navigationPath (state s)
       ++ [{| step_kind := StepComplex;
              step_typeName := typeName;
              step_propertyName := propertyName;
              step_displayName := Js.stripComplexPrefix typeName |}])%list.
Proof.
  unfold getComplexType, navigateInto.
  destruct (metadata (state s)) as [md|] eqn:Hmd; [| done].
  fold (complexTypeNamed typeName). intros Hfind. rewrite Hfind.
  unfold assign, notify. cbn [state navigationPath]. split; [| done].
  unfold getCurrentViewType. cbn [metadata navigationPath selectedEntity].
  rewrite Hmd, last_snoc. cbn [step_typeName]. by rewrite Hfind.
Qed.

(** Property X14.  When the complex types of the loaded metadata have simple
    names (no dot, not empty, full name = namespace, dot, name), a type name
    that [isComplexTypeCollection] reports for a property type is never empty
    and is the name of a complex type that [getComplexType] finds;
    [navigateInto] with it succeeds and brings that complex type into
    view. *)
Theorem nested_collection_link_resolves (propertyName propertyType typeName : string)
    (s : Store) (md : ODataMetadata) :
  metadata (state s) = Some md →
  Forall SimplyNamed (allComplexTypes md) →
  isComplexTypeCollection (state s) propertyType = (true, Some typeName) →
  typeName ≠ ""
  ∧ ∃ ct, ct ∈ allComplexTypes md
          ∧ ct_name ct = typeName
          ∧ getComplexType (state s) typeName = Some ct
          ∧ getCurrentViewType (state (navigateInto propertyName typeName s))
            = Some (ComplexView ct).
Proof.
  intros Hmd Hall. unfold isComplexTypeCollection. rewrite Hmd.
  destruct (Js.matchCollectionAnchored propertyType) as [innerType|]; [| done].
  destruct (existsb _ _) eqn:Hexists; [| done]. intros [= Htype].
  rewrite Forall_forall in Hall.
  apply existsb_exists in Hexists as (ct0 & Hin0%list_elem_of_In & Hmatch).
  assert (Hname0 : ct_name ct0 = typeName).
  { destruct (Hall _ Hin0) as (Hne & Hnd & Hfull).
    apply orb_true_iff in Hmatch as [Heq%String.eqb_eq | Heq%String.eqb_eq].
    - by rewrite Heq.
    - subst innerType. rewrite Hfull, (last_segment_of_qualified _ _ Hnd) in Htype.
      by destruct (String.eqb_spec (ct_name ct0) ""). }
  destruct (Hall _ Hin0) as (Hne0 & Hnd0 & _). rewrite Hname0 in Hne0, Hnd0.
  split; [done |].
  destruct (List.find (complexTypeNamed typeName) (allComplexTypes md)) as [ct|] eqn:Hfind.
  - apply find_some in Hfind as Hfound. destruct Hfound as [Hin%list_elem_of_In Hnamed].
    exists ct. split; [done |]. split.
    { by apply (complexTypeNamed_name typeName ct (Hall _ Hin) Hnd0). }
    assert (Hget : getComplexType (state s) typeName = Some ct).
    { unfold getComplexType. by rewrite Hmd. }
    split; [done |]. by apply navigateInto_view.
  - exfalso. apply list_elem_of_In in Hin0.
    pose proof (find_none _ _ Hfind ct0 Hin0) as Hno.
    by rewrite (proj2 (complexTypeNamed_name typeName ct0 (Hall _ (proj2 (list_elem_of_In _ _) Hin0)) Hnd0) Hname0) in Hno.
Qed.

Lemma nested_collection_link_resolves_witness :
  ∃ ct, ct_fullName ct = "Shop.c_Address"
        ∧ getCurrentViewType
            (state (navigateInto "Addresses" "c_Address" shopDiagram))
          = Some (ComplexView ct).
Proof.
  destruct (nested_collection_link_resolves "Addresses" "Collection(Shop.c_Address)"
              "c_Address" shopDiagram shopMetadata eq_refl) as (_ & ct & Hin & _ & _ & Hview).
  - vm_compute. constructor; [| constructor].
    split; [by intros ? |]. split; reflexivity.
  - reflexivity.
  - exists ct. split; [| done].
    apply list_elem_of_In in Hin. by destruct Hin as [<- | []].
Defined.










(** *** Unique targets *)

Lemma collectTargets_spec (navProps : list ODataNavigationProperty) :
  let acc := Relationships.collectTargets navProps in
  NoDup (snd acc)
  ∧ (∀ name, name ∈ fst acc ↔ name ∈ snd acc)
  ∧ (∀ name, name ∈ snd acc ↔ ∃ nav, nav ∈ navProps ∧ nav_targetEntity nav = name).
Proof.
  unfold Relationships.collectTargets.
  induction navProps as [|nav navProps IH] using rev_ind.
  - simpl. split; [constructor |]. split.
    + intros name. split; [set_solver | by intros H%not_elem_of_nil].
    + intros name. split; [by intros H%not_elem_of_nil |].
      by intros (nav & H%not_elem_of_nil & _).
  - rewrite foldl_app. simpl. destruct IH as (Hnodup & Hseen & Hres).
    set (acc := foldl _ (∅, []) navProps) in *.
    destruct (decide (nav_targetEntity nav ∈ fst acc)) as [Hin | Hout].
    + split; [done |]. split; [done |]. intros name. rewrite Hres. split.
      * intros (n & Hn & Heq). exists n. split; [| done]. apply elem_of_app. by left.
      * intros (n & [Hn | ->%list_elem_of_singleton]%elem_of_app & Heq).
        -- by exists n.
        -- apply Hres. rewrite <- Heq. by apply Hseen.
    + simpl. split; [| split].
      * apply NoDup_app. split; [done |]. split; [| apply NoDup_singleton].
        intros x Hx ->%list_elem_of_singleton. apply Hout. by apply Hseen.
      * intros name. rewrite elem_of_union, elem_of_singleton, elem_of_app,
          list_elem_of_singleton, Hseen. tauto.
      * intros name. rewrite elem_of_app, list_elem_of_singleton, Hres. split.
        -- intros [(n & Hn & Heq) | ->].
           ++ exists n. split; [| done]. apply elem_of_app. by left.
           ++ exists nav. split; [| done]. apply elem_of_app. right. by left.
        -- intros (n & [Hn | ->%list_elem_of_singleton]%elem_of_app & Heq).
           ++ left. by exists n.
           ++ by right.
Qed.

(** Property X15.  [getUniqueTargetEntities] returns the target names of the
    navigation properties, each of them once, in ascending order of their code
    units; the result is never longer than the input. *)
Theorem unique_targets_sorted_without_repeats (navProps : list ODataNavigationProperty) :
  let result := Relationships.getUniqueTargetEntities navProps in
  StronglySorted String.le result
  ∧ NoDup result
  ∧ (∀ name, name ∈ result ↔ ∃ nav, nav ∈ navProps ∧ nav_targetEntity nav = name)
  ∧ (length result ≤ length navProps)%nat.
Proof.
  intros result. subst result. unfold Relationships.getUniqueTargetEntities.
  destruct (collectTargets_spec navProps) as (Hnodup & _ & Hres).
  pose proof (merge_sort_Permutation String.le
                (snd (Relationships.collectTargets navProps))) as Hperm.
  split; [apply (StronglySorted_merge_sort String.le); apply _ |].
  split; [by rewrite Hperm |]. split.
  - intros name. by rewrite Hperm.
  - rewrite Hperm. transitivity (length (List.map nav_targetEntity navProps));
      [| by rewrite length_map].
    apply submseteq_length, NoDup_submseteq; [done |].
    intros name (nav & Hnav & <-)%Hres. apply list_elem_of_fmap. by exists nav.
Qed.

Lemma unique_targets_sorted_without_repeats_witness :
  Relationships.getUniqueTargetEntities
    [sampleNav "Buyer" "Shop.Customer"; sampleNav "Orders" "Collection(Shop.Order)";
     sampleNav "Seller" "Shop.Customer"; sampleNav "Ship" "Address"]
  = ["Address"; "Customer"; "Order"]
  ∧ NoDup (Relationships.getUniqueTargetEntities
             [sampleNav "Buyer" "Shop.Customer"; sampleNav "Orders" "Collection(Shop.Order)";
              sampleNav "Seller" "Shop.Customer"; sampleNav "Ship" "Address"]).
Proof.
  split; [reflexivity |].
  by destruct (unique_targets_sorted_without_repeats
                 [sampleNav "Buyer" "Shop.Customer"; sampleNav "Orders" "Collection(Shop.Order)";
                  sampleNav "Seller" "Shop.Customer"; sampleNav "Ship" "Address"])
    as (_ & ? & _).
Defined.

(** *** The traversal, level by level *)

Section Exploration.
Variable store : AppState.
Variable rootEntity : ODataEntity.
Variable selectedEntity : option ODataEntity.
Variable expandedNodes : gset string.
Variable md : ODataMetadata.

Lemma pushNavigationTargets_items (visited : gset string) (depth maxChildren : nat)
    (navs : list ODataNavigationProperty) (acc : nat * list QueueItem) :
  ∃ added,
    snd (pushNavigationTargets (entityMapOf md) visited depth maxChildren navs acc)
    = (snd acc ++ added)%list
    ∧ fst (pushNavigationTargets (entityMapOf md) visited depth maxChildren navs acc)
      = (fst acc + length added)%nat
    ∧ ((fst acc ≤ maxChildren)%nat → (fst acc + length added ≤ maxChildren)%nat)
    ∧ Forall (fun item => itemDepth item = (depth + 1)%nat
                          ∧ itemName item ∈ List.map nav_targetEntity navs
                          ∧ ItemDeclared md rootEntity item) added.
Proof.
  revert acc. induction navs as [|nav navs IH]; intros acc; simpl.
  { exists []. rewrite app_nil_r. split; [done |]. split; [simpl; lia |].
    split; [simpl; lia | constructor]. }
  assert (Hweaken : ∀ acc',
    (∃ added,
       snd (pushNavigationTargets (entityMapOf md) visited depth maxChildren navs acc')
       = (snd acc' ++ added)%list
       ∧ fst (pushNavigationTargets (entityMapOf md) visited depth maxChildren navs acc')
         = (fst acc' + length added)%nat
       ∧ ((fst acc' ≤ maxChildren)%nat → (fst acc' + length added ≤ maxChildren)%nat)
       ∧ Forall (fun item => itemDepth item = (depth + 1)%nat
                             ∧ itemName item ∈ List.map nav_targetEntity navs
                             ∧ ItemDeclared md rootEntity item) added) →
    ∃ added,
       snd (pushNavigationTargets (entityMapOf md) visited depth maxChildren navs acc')
       = (snd acc' ++ added)%list
       ∧ fst (pushNavigationTargets (entityMapOf md) visited depth maxChildren navs acc')
         = (fst acc' + length added)%nat
       ∧ ((fst acc' ≤ maxChildren)%nat → (fst acc' + length added ≤ maxChildren)%nat)
       ∧ Forall (fun item => itemDepth item = (depth + 1)%nat
                             ∧ itemName item ∈ nav_targetEntity nav
                                               :: List.map nav_targetEntity navs
                             ∧ ItemDeclared md rootEntity item) added).
  { intros acc' (added & H1 & H2 & H3 & H4). exists added.
    split; [done |]. split; [done |]. split; [done |].
    eapply Forall_impl; [exact H4 |]. intros item (? & ? & ?).
    split; [done |]. split; [by right | done]. }
  destruct (Nat.leb_spec maxChildren (fst acc)) as [Hfull|Hroom].
  { exists []. rewrite app_nil_r. split; [done |]. split; [simpl; lia |].
    split; [simpl; lia | constructor]. }
  destruct (entityMapOf md !! nav_targetEntity nav) as [target|] eqn:Hlookup;
    [| apply Hweaken, IH].
  destruct (decide (nav_targetEntity nav ∈ visited)); [apply Hweaken, IH |].
  destruct (IH (S (fst acc), (snd acc ++ [EntityItem target (depth + 1)])%list))
    as (added & Hq & Hc & Hmax & Hitems).
  exists (EntityItem target (depth + 1) :: added). simpl in *.
  rewrite Hq, Hc, <- app_assoc. split; [done |]. split; [lia |]. split; [lia |].
  apply entityMapOf_lookup in Hlookup as [Hname Hin].
  constructor.
  - simpl. split; [done |]. split; [rewrite Hname; by left | by right].
  - eapply Forall_impl; [exact Hitems |]. intros item (? & ? & ?).
    split; [done |]. split; [by right | done].
Qed.

Lemma pushNestedCollections_items (visited : gset string) (depth maxChildren : nat)
    (nested : list (string * string)) (acc : nat * list QueueItem) :
  ∃ added,
    snd (pushNestedCollections md visited depth maxChildren nested acc)
    = (snd acc ++ added)%list
    ∧ fst (pushNestedCollections md visited depth maxChildren nested acc)
      = (fst acc + length added)%nat
    ∧ ((fst acc ≤ maxChildren)%nat → (fst acc + length added ≤ maxChildren)%nat)
    ∧ Forall (fun item => itemDepth item = (depth + 1)%nat
                          ∧ itemName item ∈ List.map snd nested
                          ∧ ItemDeclared md rootEntity item) added.
Proof.
  revert acc. induction nested as [|[propName typeName] nested IH]; intros acc; simpl.
  { exists []. rewrite app_nil_r. split; [done |]. split; [simpl; lia |].
    split; [simpl; lia | constructor]. }
  assert (Hweaken : ∀ acc',
    (∃ added,
       snd (pushNestedCollections md visited depth maxChildren nested acc')
       = (snd acc' ++ added)%list
       ∧ fst (pushNestedCollections md visited depth maxChildren nested acc')
         = (fst acc' + length added)%nat
       ∧ ((fst acc' ≤ maxChildren)%nat → (fst acc' + length added ≤ maxChildren)%nat)
       ∧ Forall (fun item => itemDepth item = (depth + 1)%nat
                             ∧ itemName item ∈ List.map snd nested
                             ∧ ItemDeclared md rootEntity item) added) →
    ∃ added,
       snd (pushNestedCollections md visited depth maxChildren nested acc')
       = (snd acc' ++ added)%list
       ∧ fst (pushNestedCollections md visited depth maxChildren nested acc')
         = (fst acc' + length added)%nat
       ∧ ((fst acc' ≤ maxChildren)%nat → (fst acc' + length added ≤ maxChildren)%nat)
       ∧ Forall (fun item => itemDepth item = (depth + 1)%nat
                             ∧ itemName item ∈ typeName :: List.map snd nested
                             ∧ ItemDeclared md rootEntity item) added).
  { intros acc' (added & H1 & H2 & H3 & H4). exists added.
    split; [done |]. split; [done |]. split; [done |].
    eapply Forall_impl; [exact H4 |]. intros item (? & ? & ?).
    split; [done |]. split; [by right | done]. }
  destruct (Nat.leb_spec maxChildren (fst acc)) as [Hfull|Hroom].
  { exists []. rewrite app_nil_r. split; [done |]. split; [simpl; lia |].
    split; [simpl; lia | constructor]. }
  destruct (complexTypeMap md !! typeName) as [ct|] eqn:Hlookup; [| apply Hweaken, IH].
  destruct (decide (typeName ∈ visited)); [apply Hweaken, IH |].
  destruct (IH (S (fst acc), (snd acc ++ [ComplexItem ct (depth + 1) propName])%list))
    as (added & Hq & Hc & Hmax & Hitems).
  exists (ComplexItem ct (depth + 1) propName :: added). simpl in *.
  rewrite Hq, Hc, <- app_assoc. split; [done |]. split; [lia |]. split; [lia |].
  apply complexTypeMapOf_lookup in Hlookup as [Hname Hin].
  constructor.
  - simpl. split; [done |]. split; [rewrite Hname; by left | done].
  - eapply Forall_impl; [exact Hitems |]. intros item (? & ? & ?).
    split; [done |]. split; [by right | done].
Qed.

Lemma entity_children_items (visited : gset string) (node : DiagramNode)
    (e : ODataEntity) (maxChildren : nat) (rest : list QueueItem) :
  node_data node = EntityData e → opens node = true →
  (maxChildren ≤ maxChildrenOf node)%nat →
  ChildrenOf store md rootEntity node rest
    (snd (pushNestedCollections md visited (node_depth node) maxChildren
            (getNestedCollections store (ent_properties e))
            (pushNavigationTargets (entityMapOf md) visited (node_depth node) maxChildren
               (ent_navigationProperties e) (0%nat, rest)))).
Proof.
  intros Hdata Hopens Hmax.
  destruct (pushNavigationTargets_items visited (node_depth node) maxChildren
              (ent_navigationProperties e) (0%nat, rest)) as (a1 & Hq1 & Hc1 & Hb1 & Hi1).
  destruct (pushNestedCollections_items visited (node_depth node) maxChildren
              (getNestedCollections store (ent_properties e))
              (pushNavigationTargets (entityMapOf md) visited (node_depth node) maxChildren
                 (ent_navigationProperties e) (0%nat, rest)))
    as (a2 & Hq2 & Hc2 & Hb2 & Hi2).
  exists (a1 ++ a2)%list. rewrite Hq2, Hq1, <- app_assoc. simpl in *.
  split; [done |]. split.
  - rewrite length_app. rewrite Hc1 in Hb2. lia.
  - unfold childNames, nodeNavigationProperties, nodeProperties. rewrite Hdata.
    apply Forall_app. split.
    + eapply Forall_impl; [exact Hi1 |]. intros item (Hd & Hn & Hdecl).
      split; [lia |]. split; [| done]. split; [done |]. apply elem_of_app. by left.
    + eapply Forall_impl; [exact Hi2 |]. intros item (Hd & Hn & Hdecl).
      split; [lia |]. split; [| done]. split; [done |]. apply elem_of_app. by right.
Qed.

Lemma complex_children_items (visited : gset string) (node : DiagramNode)
    (ct : ODataComplexType) (maxChildren : nat) (rest : list QueueItem) :
  node_data node = ComplexData ct → opens node = true →
  (maxChildren ≤ maxChildrenOf node)%nat →
  ChildrenOf store md rootEntity node rest
    (snd (pushNavigationTargets (entityMapOf md) visited (node_depth node) maxChildren
            (ct_navigationProperties ct)
            (pushNestedCollections md visited (node_depth node) maxChildren
               (getNestedCollections store (ct_properties ct)) (0%nat, rest)))).
Proof.
  intros Hdata Hopens Hmax.
  destruct (pushNestedCollections_items visited (node_depth node) maxChildren
              (getNestedCollections store (ct_properties ct)) (0%nat, rest))
    as (a1 & Hq1 & Hc1 & Hb1 & Hi1).
  destruct (pushNavigationTargets_items visited (node_depth node) maxChildren
              (ct_navigationProperties ct)
              (pushNestedCollections md visited (node_depth node) maxChildren
                 (getNestedCollections store (ct_properties ct)) (0%nat, rest)))
    as (a2 & Hq2 & Hc2 & Hb2 & Hi2).
  exists (a1 ++ a2)%list. rewrite Hq2, Hq1, <- app_assoc. simpl in *.
  split; [done |]. split.
  - rewrite length_app. rewrite Hc1 in Hb2. lia.
  - unfold childNames, nodeNavigationProperties, nodeProperties. rewrite Hdata.
    apply Forall_app. split.
    + eapply Forall_impl; [exact Hi1 |]. intros item (Hd & Hn & Hdecl).
      split; [lia |]. split; [| done]. split; [done |]. apply elem_of_app. by right.
    + eapply Forall_impl; [exact Hi2 |]. intros item (Hd & Hn & Hdecl).
      split; [lia |]. split; [| done]. split; [done |]. apply elem_of_app. by left.
Qed.

Lemma no_children (node : DiagramNode) (rest : list QueueItem) :
  ChildrenOf store md rootEntity node rest rest.
Proof.
  exists []. rewrite app_nil_r. split; [done |]. split; [simpl; lia | constructor].
Qed.

Lemma sum_list_snoc (l : list nat) (x : nat) :
  sum_list (l ++ [x]) = (sum_list l + x)%nat.
Proof. induction l as [|y l IH]; simpl; lia. Qed.

Abbreviation Inv := (Invariant (universe md rootEntity) rootEntity expandedNodes).
Abbreviation Exp := (Explored store md rootEntity selectedEntity).

Lemma explored_skip (t : Traversal) (item : QueueItem) (rest : list QueueItem) :
  Inv t → Exp t → t_queue t = item :: rest → itemName item ∈ t_visited t →
  Exp (shifted t rest).
Proof.
  intros Hinv [Hshows Hmap Hvis Hlev Hwin Hpar Hq Hcount] Hqueue Hseen.
  rewrite Hqueue in *. split; cbn [shifted t_nodes t_visited t_nodeMap t_queue]; try done.
  - simpl in Hlev. apply StronglySorted_app in Hlev as (Hcross & Hn & Hqs).
    apply StronglySorted_app. split; [| split; [done | by inversion Hqs]].
    intros x y Hx Hy. apply Hcross; [done | by right].
  - intros a b Ha Hb. apply Hwin; by right.
  - by inversion Hq.
  - simpl in Hcount. lia.
Qed.

Lemma explored_append (t : Traversal) (item : QueueItem) (rest queue : list QueueItem)
    (node : DiagramNode) :
  Inv t → Exp t → t_queue t = item :: rest → itemName item ∉ t_visited t →
  node_id node = itemName item → node_depth node = itemDepth item →
  NodeShows store md rootEntity selectedEntity node →
  ChildrenOf store md rootEntity node rest queue →
  Exp {| t_nodes := (t_nodes t ++ [node])%list;
         t_visited := {[ itemName item ]} ∪ t_visited t;
         t_nodeMap := <[itemName item := length (t_nodes t)]> (t_nodeMap t);
         t_queue := queue |}.
Proof.
  intros Hinv [Hshows Hmap Hvis Hlev Hwin Hpar Hq Hcount] Hqueue Hnew Hid Hdepth Hnode
    (added & -> & Hlen & Hadded).
  rewrite Hqueue in *. apply Forall_cons in Hq as [[Hdecl Hby] Hq].
  simpl in Hlev. apply StronglySorted_app in Hlev as (Hcross & Hsn & Hsq).
  apply StronglySorted_inv in Hsq as [Hsrest Hhead].
  rewrite Forall_forall in Hhead.
  split; cbn [t_nodes t_visited t_nodeMap t_queue].
  - apply Forall_app. split; [done |]. constructor; [done | constructor].
  - intros k i. destruct (decide (k = itemName item)) as [-> | Hne].
    + rewrite lookup_insert_eq. split.
      * intros [= <-]. exists node. split; [| done].
        by rewrite lookup_app_r, Nat.sub_diag by lia.
      * intros (n & Hn & Hk). destruct (decide (i < length (t_nodes t))%nat) as [Hlt|Hge].
        -- rewrite lookup_app_l in Hn by done. exfalso. apply Hnew, Hvis.
           rewrite <- Hk. apply list_elem_of_fmap. exists n. split; [done |].
           by eapply list_elem_of_lookup_2.
        -- apply lookup_lt_Some in Hn as Hi. rewrite length_app in Hi. simpl in Hi.
           f_equal. lia.
    + rewrite lookup_insert_ne by done. rewrite Hmap. split.
      * intros (n & Hn & Hk). exists n. split; [| done]. by apply lookup_app_l_Some.
      * intros (n & Hn & Hk). exists n. split; [| done].
        apply lookup_app_Some in Hn as [Hn | [_ Hn]]; [done |].
        apply list_lookup_singleton_Some in Hn as [_ <-]. congruence.
  - intros k. rewrite map_app, elem_of_union, elem_of_singleton, elem_of_app, Hvis. simpl.
    rewrite list_elem_of_singleton, Hid. tauto.
  - rewrite map_app, <- app_assoc. simpl. rewrite map_app.
    apply StronglySorted_app. split; [| split; [done |]].
    + intros x y Hx Hy. apply elem_of_cons in Hy as [-> | Hy].
      * rewrite Hdepth. apply Hcross; [done | by left].
      * apply elem_of_app in Hy as [Hy | Hy].
        -- apply Hcross; [done | by right].
        -- apply list_elem_of_fmap in Hy as (it & -> & Hit).
           rewrite Forall_forall in Hadded. destruct (Hadded _ Hit) as (-> & _).
           rewrite Hdepth. transitivity (itemDepth item); [| lia].
           apply Hcross; [done | by left].
    + constructor.
      * apply StronglySorted_app. split; [| split; [done |]].
        -- intros x y Hx Hy. apply list_elem_of_fmap in Hx as (a & -> & Ha).
           apply list_elem_of_fmap in Hy as (b & -> & Hb).
           rewrite Forall_forall in Hadded. destruct (Hadded _ Hb) as (-> & _).
           rewrite Hdepth. apply Hwin; [by left | by right].
        -- clear -Hadded. induction Hadded as [|x l (Hx & _) Hl IH]; [constructor |].
           simpl. constructor; [done |]. apply Forall_forall.
           intros y (b & -> & Hb)%list_elem_of_fmap. rewrite Forall_forall in Hl.
           destruct (Hl _ Hb) as (-> & _). lia.
      * apply Forall_app. split.
        -- rewrite Hdepth. by apply Forall_forall.
        -- apply Forall_forall. intros y (b & -> & Hb)%list_elem_of_fmap.
           rewrite Forall_forall in Hadded. destruct (Hadded _ Hb) as (-> & _). lia.
  - assert (Hdepth_added : ∀ b, b ∈ added → itemDepth b = S (itemDepth item)).
    { intros b Hb. rewrite Forall_forall in Hadded. destruct (Hadded _ Hb) as (-> & _).
      by rewrite Hdepth. }
    assert (Hrest_low : ∀ a, a ∈ rest → (itemDepth item ≤ itemDepth a)%nat).
    { intros a Ha. apply Hhead. apply list_elem_of_fmap. by exists a. }
    intros a b [Ha | Ha]%elem_of_app [Hb | Hb]%elem_of_app.
    + apply Hwin; by right.
    + rewrite (Hdepth_added _ Hb). pose proof (Hrest_low _ Ha). lia.
    + rewrite (Hdepth_added _ Ha).
      assert (itemDepth b ≤ S (itemDepth item))%nat by (apply Hwin; [by left | by right]).
      lia.
    + rewrite (Hdepth_added _ Ha), (Hdepth_added _ Hb). lia.
  - intros i c Hc Hpos. apply lookup_app_Some in Hc as [Hc | [Hge Hc]].
    + destruct (Hpar i c Hc Hpos) as (j & p & Hj & Hp & Hparent).
      exists j, p. split; [done |]. split; [by apply lookup_app_l_Some | done].
    + apply list_lookup_singleton_Some in Hc as [Hi <-].
      destruct Hby as [Hnil | (p & Hp & Hopens & Hname & Hd)].
      { rewrite Hnil in Hge, Hi. simpl in *. lia. }
      apply list_elem_of_lookup in Hp as [j Hj]. exists j, p.
      split; [apply lookup_lt_Some in Hj; lia |].
      split; [by apply lookup_app_l_Some |].
      split; [done |]. split; [by rewrite Hid | by rewrite Hdepth].
  - apply Forall_app. split.
    + destruct Hinv as [_ _ _ _ Hroot _]. unfold RootFirst in Hroot.
      destruct (t_nodes t) as [|r ns] eqn:Hnodes.
      * rewrite Hqueue in Hroot. destruct Hroot as [[= -> ->] _]. constructor.
      * eapply Forall_impl; [exact Hq |]. intros it [Hd [Hnil | (p & Hp & Hrest)]]; [done |].
        split; [done |]. right. exists p. split; [| done]. apply elem_of_app. by left.
    + eapply Forall_impl; [exact Hadded |]. intros it (Hd & [Hopens Hname] & Hdecl').
      split; [done |]. right. exists node. split; [| done].
      apply elem_of_app. right. by left.
  - rewrite !length_app, fmap_app.
    change (maxChildrenOf <$> [node]) with [maxChildrenOf node].
    rewrite sum_list_snoc. simpl in *. lia.
Qed.

Lemma visit_explored (t : Traversal) (item : QueueItem) (rest : list QueueItem) :
  Inv t → Exp t → t_queue t = item :: rest →
  Exp (visit store rootEntity selectedEntity expandedNodes (entityMapOf md) md item
             (shifted t rest)).
Proof.
  intros Hinv Hexp Hqueue.
  assert (Hdecl : ItemDeclared md rootEntity item).
  { destruct Hexp as [_ _ _ _ _ _ Hq _]. rewrite Hqueue in Hq.
    by apply Forall_cons in Hq as [[? _] _]. }
  destruct item as [e depth | ct depth parentProp]; unfold visit;
    cbn [shifted t_visited t_nodes t_queue t_nodeMap].
  - destruct (decide (ent_name e ∈ t_visited t)) as [Hseen|Hnew];
      [by eapply explored_skip |].
    match goal with
    | |- Exp {| t_nodes := (_ ++ [?n])%list; t_queue := ?q |} =>
        apply (explored_append t (EntityItem e depth) rest q n); try done
    end.
    + cbn [node_isExpanded node_isRoot node_depth].
      destruct (bool_decide (ent_name e ∈ expandedNodes) || _) eqn:Hopens;
        [| apply no_children].
      match goal with
      | |- ChildrenOf _ _ _ ?n _ _ =>
          apply (entity_children_items (_ ∪ _) n e); [done | done |]
      end.
      unfold maxChildrenOf. cbn [node_isRoot node_isExpanded node_data].
      destruct (String.eqb (ent_name e) (ent_name rootEntity)); [done |].
      rewrite orb_false_r in Hopens. by rewrite Hopens.
  - destruct (decide (ct_name ct ∈ t_visited t)) as [Hseen|Hnew];
      [by eapply explored_skip |].
    match goal with
    | |- Exp {| t_nodes := (_ ++ [?n])%list; t_queue := ?q |} =>
        apply (explored_append t (ComplexItem ct depth parentProp) rest q n); try done
    end.
    + cbn [node_isExpanded node_isRoot node_depth].
      destruct (bool_decide (ct_name ct ∈ expandedNodes)) eqn:Hopens;
        [| apply no_children].
      match goal with
      | |- ChildrenOf _ _ _ ?n _ _ =>
          apply (complex_children_items (_ ∪ _) n ct);
            [done | done |]
      end.
      done.
Qed.

Lemma traverse_explored (fuel : nat) (t t' : Traversal) :
  Inv t → Exp t →
  traverse store rootEntity selectedEntity expandedNodes (entityMapOf md) md fuel t = Some t' →
  Exp t'.
Proof.
  revert t. induction fuel as [|fuel IH]; intros t Hinv Hexp; simpl.
  - destruct (t_queue t) eqn:Hq; [| done]. by intros [= <-].
  - destruct (t_queue t) as [|item rest] eqn:Hq; [by intros [= <-] |].
    apply IH.
    + by apply (visit_invariant store rootEntity selectedEntity expandedNodes md t item rest).
    + by apply visit_explored.
Qed.

Lemma initial_explored : Exp (initialTraversal rootEntity).
Proof.
  split; simpl.
  - constructor.
  - intros k i. rewrite lookup_empty. split; [done |]. by intros (n & Hn & _).
  - intros k. split; [set_solver | by intros H%elem_of_nil].
  - repeat constructor.
  - intros a b ->%list_elem_of_singleton ->%list_elem_of_singleton. simpl. lia.
  - by intros i c Hc.
  - constructor; [| constructor]. split; [by left | by left].
  - lia.
Qed.
End Exploration.

Lemma buildGraph_explored (store : AppState) (rootEntity : ODataEntity)
    (selectedEntity : option ODataEntity) (expandedNodes : gset string)
    (md : ODataMetadata) (fuel : nat) (g : Graph) :
  buildGraph store rootEntity selectedEntity expandedNodes (entityMapOf md) md fuel = Some g →
  ∃ t, Invariant (universe md rootEntity) rootEntity expandedNodes t
       ∧ Explored store md rootEntity selectedEntity t
       ∧ t_queue t = [] ∧ nodes g = t_nodes t
       ∧ links g = buildLinks store (t_nodes t) (t_nodeMap t).
Proof.
  unfold buildGraph. destruct (traverse _ _ _ _ _ _ fuel _) as [t|] eqn:Hrun; [| done].
  intros [= <-]. exists t.
  pose proof (proj1 (initial_invariant rootEntity expandedNodes md)) as Hinit.
  destruct (traverse_invariant store rootEntity selectedEntity expandedNodes md fuel _ t
              Hinit Hrun) as [Hinv Hq].
  split; [done |]. split; [| by split].
  eapply traverse_explored; [exact Hinit | apply initial_explored | exact Hrun].
Qed.

(** *** The link pass, link by link *)

Section Links.
Variable store : AppState.
Variable nodes : list DiagramNode.
Variable nodeMap : gmap string nat.
Hypothesis HnodeMap : MapOk nodes nodeMap.

Lemma addLink_sound (ref : nat) (node : DiagramNode) (targetName label : string)
    (isCollection isNested : bool) (acc : gset string * list DiagramLink) :
  nodes !! ref = Some node → opens node = true →
  (if isNested
   then isCollection = true
        ∧ (label, targetName) ∈ getNestedCollections store (nodeProperties node)
   else ∃ nav, nav ∈ nodeNavigationProperties node ∧ nav_targetEntity nav = targetName
               ∧ isCollection = nav_isCollection nav ∧ label = nav_name nav) →
  LinksSound store nodes acc →
  LinksSound store nodes
    (addLink nodes nodeMap ref node targetName isCollection isNested label acc)
  ∧ fst acc ⊆ fst (addLink nodes nodeMap ref node targetName isCollection isNested label acc)
  ∧ (∀ key, keyFor nodes nodeMap ref node targetName = Some key →
            key ∈ fst (addLink nodes nodeMap ref node targetName isCollection isNested
                               label acc)).
Proof.
  intros Href Hopens Hwhy [Hlinks Hkeys]. unfold addLink, keyFor.
  destruct (nodeMap !! targetName) as [targetRef|] eqn:Hmap; [| by split].
  destruct (nodes !! targetRef) as [targetNode|] eqn:Htarget; [| by split].
  destruct (Nat.eqb_spec targetRef ref) as [|Hne]; [by split |].
  destruct (decide (_ ∈ fst acc)) as [Hold|Hfresh].
  { split; [done |]. split; [done |]. by intros key [= <-]. }
  set (l := mkLink ref targetRef isCollection isNested label).
  assert (Hkey : keyOfLink nodes l = linkKey (node_id node) (node_id targetNode)).
  { unfold keyOfLink, idOf, l. simpl. by rewrite Href, Htarget. }
  assert (Hid : node_id targetNode = targetName).
  { apply HnodeMap in Hmap as (n & Hn & Hk). congruence. }
  split; [split |]; simpl.
  - apply Forall_app. split; [done |]. constructor; [| constructor].
    exists node, targetNode. simpl. split; [done |]. split; [done |].
    split; [congruence |]. split; [done |].
    destruct isNested.
    + right. destruct Hwhy as [-> Hin]. by rewrite Hid.
    + left. split; [done |]. destruct Hwhy as (nav & Hin & Ht & Hc & Hl).
      exists nav. by rewrite Hid.
  - intros key [->%elem_of_singleton | Hin]%elem_of_union.
    + exists l. split; [| done]. apply elem_of_app. right. by left.
    + destruct (Hkeys _ Hin) as (l' & Hl' & Hk'). exists l'. split; [| done].
      apply elem_of_app. by left.
  - split; [set_solver |]. intros key [= <-]. set_solver.
Qed.

Lemma foldl_links {B : Type} (f : gset string * list DiagramLink → B →
                                  gset string * list DiagramLink)
    (K : B → option string) (items : list B) (acc : gset string * list DiagramLink) :
  (∀ acc b, b ∈ items → LinksSound store nodes acc →
            LinksSound store nodes (f acc b) ∧ fst acc ⊆ fst (f acc b)
            ∧ (∀ key, K b = Some key → key ∈ fst (f acc b))) →
  LinksSound store nodes acc →
  LinksSound store nodes (foldl f acc items)
  ∧ fst acc ⊆ fst (foldl f acc items)
  ∧ (∀ b key, b ∈ items → K b = Some key → key ∈ fst (foldl f acc items)).
Proof.
  revert acc. induction items as [|b items IH]; intros acc Hstep Hacc; simpl.
  { split; [done |]. split; [done |]. by intros b key H%elem_of_nil. }
  destruct (Hstep acc b) as (Hsound & Hmono & Hcover); [by left | done |].
  destruct (IH (f acc b)) as (Hsound' & Hmono' & Hcover'); [| done |].
  { intros acc' b' Hb'. apply Hstep. by right. }
  split; [done |]. split; [set_solver |].
  intros b' key [-> | Hin]%elem_of_cons Hkey.
  - apply Hmono'. by apply Hcover.
  - by eapply Hcover'.
Qed.

Lemma linksOfNode_sound (ref : nat) (node : DiagramNode)
    (acc : gset string * list DiagramLink) :
  nodes !! ref = Some node → LinksSound store nodes acc →
  LinksSound store nodes (linksOfNode store nodes nodeMap acc (ref, node))
  ∧ fst acc ⊆ fst (linksOfNode store nodes nodeMap acc (ref, node))
  ∧ (opens node = true →
     ∀ name key, name ∈ childNames store node →
                 keyFor nodes nodeMap ref node name = Some key →
                 key ∈ fst (linksOfNode store nodes nodeMap acc (ref, node))).
Proof.
  intros Href Hacc. unfold linksOfNode. fold (opens node).
  destruct (opens node) eqn:Hopens; [| by split].
  destruct (foldl_links
              (fun acc nav => addLink nodes nodeMap ref node (nav_targetEntity nav)
                                      (nav_isCollection nav) false (nav_name nav) acc)
              (fun nav => keyFor nodes nodeMap ref node (nav_targetEntity nav))
              (nodeNavigationProperties node) acc) as (Hs1 & Hm1 & Hc1); [| done |].
  { intros acc' nav Hnav Hacc'. apply addLink_sound; try done. by exists nav. }
  match goal with
  | |- context [foldl ?f ?a (getNestedCollections _ _)] =>
      destruct (foldl_links f
                  (fun nested => keyFor nodes nodeMap ref node (snd nested))
                  (getNestedCollections store (nodeProperties node)) a)
        as (Hs2 & Hm2 & Hc2); [| done |]
  end.
  { intros acc' [propName typeName] Hnested Hacc'. apply addLink_sound; try done. }
  split; [done |]. split; [set_solver |].
  intros _ name key [Hname | Hname]%elem_of_app Hkey.
  - apply list_elem_of_fmap in Hname as (nav & -> & Hnav). apply Hm2. by eapply Hc1.
  - apply list_elem_of_fmap in Hname as (nested & -> & Hnested). by eapply Hc2.
Qed.

Lemma buildLinks_sound :
  ∃ keys,
    LinksSound store nodes (keys, buildLinks store nodes nodeMap)
    ∧ (∀ i node name key, nodes !! i = Some node → opens node = true →
         name ∈ childNames store node → keyFor nodes nodeMap i node name = Some key →
         key ∈ keys).
Proof.
  unfold buildLinks.
  destruct (foldl_links (linksOfNode store nodes nodeMap)
              (fun entry => None) (imap pair nodes) (∅, [])) as (Hsound & _ & _).
  { intros acc [i n] (j & m & [= -> ->] & Hm)%elem_of_lookup_imap Hacc.
    destruct (linksOfNode_sound j m acc Hm Hacc) as (? & ? & _). by split. }
  { split; [constructor | set_solver]. }
  eexists (fst (foldl _ _ _)). rewrite <- surjective_pairing. split; [done |].
  intros i node name key Hi Hopens Hname Hkey.
  destruct (foldl_links (linksOfNode store nodes nodeMap)
              (fun entry => if (fst entry =? i)%nat then Some key else None)
              (imap pair nodes) (∅, [])) as (_ & _ & Hcover).
  { intros acc [j n] (j' & m & [= -> ->] & Hm)%elem_of_lookup_imap Hacc.
    destruct (linksOfNode_sound j' m acc Hm Hacc) as (Hs & Hmono & Hc).
    split; [done |]. split; [done |]. intros key'. cbn [fst].
    destruct (Nat.eqb_spec j' i) as [-> |]; [| done]. intros [= <-].
    rewrite Hi in Hm. injection Hm as <-. by eapply Hc. }
  { split; [constructor | set_solver]. }
  apply (Hcover (i, node)).
  - apply elem_of_lookup_imap. by exists i, node.
  - cbn [fst]. by rewrite Nat.eqb_refl.
Qed.
End Links.

(** *** The built graph *)

Lemma noPipe_cons (c : ascii) (s : string) :
  noPipe (String c s) ↔ c ≠ "|"%char ∧ noPipe s.
Proof.
  unfold noPipe. cbn [Js.includes Js.startsWith].
  destruct (Ascii.eqb_spec "|" c) as [<-|Hne]; simpl.
  - split; [done | by intros [? _]].
  - split; [intros H; split; [congruence | done] | by intros [_ ?]].
Qed.

Lemma pipe_split (a b c d : string) :
  noPipe a → noPipe c → a ++ "|" ++ b = c ++ "|" ++ d → a = c ∧ b = d.
Proof.
  revert c. induction a as [|x a IH]; intros [|y c] Ha Hc;
    rewrite ?append_cons, ?append_nil_l, ?append_cons, ?append_nil_l.
  - by intros [= ->].
  - apply noPipe_cons in Hc as [Hy _]. intros [= <- _]. done.
  - apply noPipe_cons in Ha as [Hx _]. intros [= -> _]. done.
  - apply noPipe_cons in Ha as [_ Ha]. apply noPipe_cons in Hc as [_ Hc].
    intros [= -> Heq]. destruct (IH c Ha Hc Heq) as [-> ->]. done.
Qed.

Lemma linkKey_inj (a b c d : string) :
  noPipe a → noPipe b → noPipe c → noPipe d →
  linkKey a b = linkKey c d → SamePair (a, b) (c, d).
Proof.
  intros Ha Hb Hc Hd. unfold linkKey, SamePair. simpl.
  destruct (String.ltb b a), (String.ltb d c); intros Heq;
    apply pipe_split in Heq as [-> ->]; auto.
Qed.

Lemma StronglySorted_lookup_lt {A : Type} (R : relation A) (l : list A) (i j : nat)
    (x y : A) :
  StronglySorted R l → (i < j)%nat → l !! i = Some x → l !! j = Some y → R x y.
Proof.
  intros Hsorted Hij Hi Hj. rewrite <- (take_drop j l) in Hsorted.
  apply (StronglySorted_app_1_elem_of R _ _ x y Hsorted).
  - apply (list_elem_of_lookup_2 _ i). by rewrite lookup_take_lt.
  - apply (list_elem_of_lookup_2 _ 0%nat). by rewrite lookup_drop, Nat.add_0_r.
Qed.

(** Property X16.  Every node of a built graph stands for a declared type: its
    name is its identifier, its height is [NODE_HEIGHT], its counts are those
    of the navigation properties and nested collections of its type, an entity
    node is the root entity or an entity of the metadata and is flagged root
    or selected by name, a complex-type node is a complex type of the metadata
    and is never root or selected, and [isExpanded] says whether the
    identifier is in the expanded set. *)
Theorem graph_nodes_show_declared_types (store : AppState) (rootEntity : ODataEntity)
    (selectedEntity : option ODataEntity) (expandedNodes : gset string)
    (md : ODataMetadata) (fuel : nat) (g : Graph) :
  buildGraph store rootEntity selectedEntity expandedNodes (entityMapOf md) md fuel = Some g →
  ∀ n, n ∈ nodes g →
    NodeShows store md rootEntity selectedEntity n
    ∧ node_isExpanded n = bool_decide (node_id n ∈ expandedNodes)
    ∧ (node_kind n = KindComplex → node_isRoot n = false ∧ node_isSelected n = false)
    ∧ (node_id n ≠ ent_name rootEntity →
       node_id n ∈ List.map ent_name (allEntities md)
                   ++ List.map ct_name (allComplexTypes md))%list.
Proof.
  intros Hg n Hn. apply buildGraph_explored in Hg as (t & Hinv & Hexp & _ & Hnodes & _).
  rewrite Hnodes in Hn. destruct Hinv as [_ _ _ _ _ Hok]. destruct Hexp as [Hshows _ _ _ _ _ _ _].
  rewrite Forall_forall in Hok, Hshows.
  destruct (Hok _ Hn) as [Hexpanded _ _]. pose proof (Hshows _ Hn) as Hshow.
  split; [done |]. split; [done |]. destruct Hshow as [_ _ _ _ Hdata].
  unfold node_kind. destruct (node_data n) as [e | ct].
  - split; [done |]. destruct Hdata as (Hid & _ & [-> | Hin] & _); [done |].
    intros _. apply elem_of_app. left. rewrite Hid. apply list_elem_of_fmap. by exists e.
  - destruct Hdata as (Hid & _ & Hin & Hroot & Hsel). split; [done |].
    intros _. apply elem_of_app. right. rewrite Hid. apply list_elem_of_fmap. by exists ct.
Qed.

Lemma graph_nodes_show_declared_types_witness :
  ∃ g, buildGraph (state shopDiagram) shopCustomer (Some shopCustomer) {[ "Customer" ]}
               (entityMapOf shopMetadata) shopMetadata 8 = Some g
       ∧ ∀ n, n ∈ nodes g → node_kind n = KindComplex → node_isRoot n = false.
Proof.
  destruct (buildGraph (state shopDiagram) shopCustomer (Some shopCustomer) {[ "Customer" ]}
               (entityMapOf shopMetadata) shopMetadata 8)
    as [g|] eqn:Hg; [| by vm_compute in Hg].
  exists g. split; [reflexivity |].
  intros n Hn Hkind.
  destruct (graph_nodes_show_declared_types (state shopDiagram) shopCustomer (Some shopCustomer) {[ "Customer" ]}
              shopMetadata 8 g Hg n Hn)
    as (_ & _ & Hcomplex & _).
  by destruct (Hcomplex Hkind).
Defined.

(** Property X17.  The node list of a built graph is in breadth-first order:
    depths never decrease along the list, only the first node has depth 0, and
    every other node has a parent earlier in the list, one level up, which is
    the root or expanded and names the node as the target of a navigation
    property or as the type of a nested collection. *)
Theorem graph_is_breadth_first (store : AppState) (rootEntity : ODataEntity)
    (selectedEntity : option ODataEntity) (expandedNodes : gset string)
    (md : ODataMetadata) (fuel : nat) (g : Graph) :
  buildGraph store rootEntity selectedEntity expandedNodes (entityMapOf md) md fuel = Some g →
  (∀ i j ni nj, (i ≤ j)%nat → nodes g !! i = Some ni → nodes g !! j = Some nj →
                (node_depth ni ≤ node_depth nj)%nat)
  ∧ (∀ i c, nodes g !! i = Some c → (0 < i)%nat →
       ∃ j p, (j < i)%nat ∧ nodes g !! j = Some p ∧ ParentOf store p c)
  ∧ (∀ i n, nodes g !! i = Some n → node_depth n = 0%nat ↔ i = 0%nat).
Proof.
  intros Hg. apply buildGraph_explored in Hg as (t & Hinv & Hexp & Hq & -> & _).
  destruct Hexp as [_ _ _ Hlev _ Hpar _ _]. rewrite Hq, app_nil_r in Hlev.
  assert (Hsorted : ∀ i j ni nj, (i ≤ j)%nat → t_nodes t !! i = Some ni →
                      t_nodes t !! j = Some nj → (node_depth ni ≤ node_depth nj)%nat).
  { intros i j ni nj Hij Hi Hj. destruct (decide (i = j)) as [-> | Hne].
    - rewrite Hi in Hj. by injection Hj as ->.
    - eapply (StronglySorted_lookup_lt le (List.map node_depth (t_nodes t)) i j);
        [done | lia | |].
      + by rewrite list_lookup_fmap, Hi.
      + by rewrite list_lookup_fmap, Hj. }
  split; [done |]. split; [done |].
  intros i n Hi. split.
  - intros Hzero. destruct (decide (i = 0)%nat) as [| Hne]; [done |].
    destruct (Hpar i n Hi) as (j & p & _ & _ & _ & _ & Hd); [lia |]. lia.
  - intros ->. destruct Hinv as [_ _ _ _ Hroot _]. unfold RootFirst in Hroot.
    destruct (t_nodes t) as [|r ns]; [done |]. injection Hi as <-. by destruct Hroot as (_ & ? & _).
Qed.

Lemma graph_is_breadth_first_witness :
  ∃ g, buildGraph (state shopDiagram) shopCustomer (Some shopCustomer) {[ "Customer" ]}
               (entityMapOf shopMetadata) shopMetadata 8 = Some g
       ∧ ∀ i n, nodes g !! i = Some n → node_depth n = 0%nat ↔ i = 0%nat.
Proof.
  destruct (buildGraph (state shopDiagram) shopCustomer (Some shopCustomer) {[ "Customer" ]}
               (entityMapOf shopMetadata) shopMetadata 8)
    as [g|] eqn:Hg; [| by vm_compute in Hg].
  exists g. split; [reflexivity |].
  by destruct (graph_is_breadth_first (state shopDiagram) shopCustomer (Some shopCustomer) {[ "Customer" ]}
              shopMetadata 8 g Hg)
    as (_ & _ & ?).
Defined.

Lemma explored_size (store : AppState) (rootEntity : ODataEntity)
    (selectedEntity : option ODataEntity) (expandedNodes : gset string)
    (md : ODataMetadata) (t : Traversal) :
  Invariant (universe md rootEntity) rootEntity expandedNodes t →
  Explored store md rootEntity selectedEntity t → t_queue t = [] →
  (length (t_nodes t) ≤ 1 + sum_list (maxChildrenOf <$> t_nodes t))%nat
  ∧ ((∀ n, n ∈ t_nodes t → node_isRoot n = false → node_isExpanded n = false) →
     (length (t_nodes t) ≤ 16)%nat).
Proof.
  intros Hinv Hexp Hq.
  destruct Hexp as [Hshows _ _ _ _ Hpar _ Hcount]. rewrite Hq in Hcount. simpl in Hcount.
  split; [lia |]. intros Hcollapsed.
  destruct Hinv as [_ _ Hnodup _ Hroot Hok]. unfold RootFirst in Hroot.
  destruct (t_nodes t) as [|r ns] eqn:Hnodes; [simpl; lia |].
  destruct Hroot as (Hrid & _ & _).
  assert (Hrest : Forall (fun n => maxChildrenOf n = 0%nat) ns).
  { apply Forall_forall. intros n Hn.
    assert (Hnotroot : node_isRoot n = false).
    { destruct (node_isRoot n) eqn:Hr; [| done]. exfalso.
      rewrite Forall_forall in Hok. destruct (Hok n) as [_ Hisroot _]; [by right |].
      simpl in Hnodup. apply NoDup_cons in Hnodup as [Hfresh _]. apply Hfresh.
      rewrite Hrid, <- (Hisroot Hr). apply list_elem_of_fmap. by exists n. }
    unfold maxChildrenOf. rewrite Hnotroot, (Hcollapsed n); [done | by right | done]. }
  rewrite fmap_cons in Hcount. simpl in Hcount.
  rewrite (sum_list_fmap_same 0 ns maxChildrenOf Hrest) in Hcount.
  assert (maxChildrenOf r ≤ 15)%nat.
  { unfold maxChildrenOf. destruct (node_isRoot r), (node_isExpanded r), (node_data r); lia. }
  simpl. lia.
Qed.

(** Property X18.  A built graph has at most one node more than the sum of
    the child limits of its nodes: 15 for the root, 8 for an expanded entity,
    6 for an expanded complex type, none for a collapsed node.  With nothing
    but the root expanded it has at most 16 nodes. *)
Theorem graph_size_bounded (store : AppState) (rootEntity : ODataEntity)
    (selectedEntity : option ODataEntity) (expandedNodes : gset string)
    (md : ODataMetadata) (fuel : nat) (g : Graph) :
  buildGraph store rootEntity selectedEntity expandedNodes (entityMapOf md) md fuel = Some g →
  (length (nodes g) ≤ 1 + sum_list (maxChildrenOf <$> nodes g))%nat
  ∧ ((∀ n, n ∈ nodes g → node_isRoot n = false → node_isExpanded n = false) →
     (length (nodes g) ≤ 16)%nat).
Proof.
  intros Hg. apply buildGraph_explored in Hg as (t & Hinv & Hexp & Hq & -> & _).
  by eapply explored_size.
Qed.

Lemma graph_size_bounded_witness :
  ∃ g, buildGraph (state shopDiagram) shopCustomer (Some shopCustomer) {[ "Customer" ]}
               (entityMapOf shopMetadata) shopMetadata 8 = Some g
       ∧ (length (nodes g) ≤ 1 + sum_list (maxChildrenOf <$> nodes g))%nat.
Proof.
  destruct (buildGraph (state shopDiagram) shopCustomer (Some shopCustomer) {[ "Customer" ]}
               (entityMapOf shopMetadata) shopMetadata 8)
    as [g|] eqn:Hg; [| by vm_compute in Hg].
  exists g. split; [reflexivity |].
  by destruct (graph_size_bounded (state shopDiagram) shopCustomer (Some shopCustomer) {[ "Customer" ]}
              shopMetadata 8 g Hg)
    as [? _].
Defined.

(** Property X19.  Every link of a built graph joins two different nodes of
    the graph, starts at a node that is the root or expanded, and comes from
    that node's type: either from a navigation property with the target's
    identifier, whose name and collection flag it carries, or, flagged nested
    and collection, from a nested collection of the target's type, whose
    property name it carries. *)
Theorem graph_links_are_justified (store : AppState) (rootEntity : ODataEntity)
    (selectedEntity : option ODataEntity) (expandedNodes : gset string)
    (md : ODataMetadata) (fuel : nat) (g : Graph) :
  buildGraph store rootEntity selectedEntity expandedNodes (entityMapOf md) md fuel = Some g →
  ∀ l, l ∈ links g → LinkJustified store (nodes g) l.
Proof.
  intros Hg l Hl. apply buildGraph_explored in Hg as (t & _ & Hexp & _ & Hnodes & Hlinks).
  destruct Hexp as [_ Hmap _ _ _ _ _ _].
  destruct (buildLinks_sound store (t_nodes t) (t_nodeMap t) Hmap) as (keys & [Hsound _] & _).
  rewrite Hnodes. rewrite Hlinks in Hl. simpl in Hsound. rewrite Forall_forall in Hsound.
  by apply Hsound.
Qed.

Lemma graph_links_are_justified_witness :
  ∃ g, buildGraph (state shopDiagram) shopCustomer (Some shopCustomer) {[ "Customer" ]}
               (entityMapOf shopMetadata) shopMetadata 8 = Some g
       ∧ ∀ l, l ∈ links g → LinkJustified (state shopDiagram) (nodes g) l.
Proof.
  destruct (buildGraph (state shopDiagram) shopCustomer (Some shopCustomer) {[ "Customer" ]}
               (entityMapOf shopMetadata) shopMetadata 8)
    as [g|] eqn:Hg; [| by vm_compute in Hg].
  exists g. split; [reflexivity |].
  exact (graph_links_are_justified (state shopDiagram) shopCustomer (Some shopCustomer) {[ "Customer" ]}
              shopMetadata 8 g Hg).
Defined.

(** Property X20.  When no node identifier contains [|], every node of a
    built graph but the first is joined by a link to an earlier node exactly
    one level up: the drawing is connected. *)
Theorem graph_nodes_are_linked_to_a_parent (store : AppState) (rootEntity : ODataEntity)
    (selectedEntity : option ODataEntity) (expandedNodes : gset string)
    (md : ODataMetadata) (fuel : nat) (g : Graph) :
  buildGraph store rootEntity selectedEntity expandedNodes (entityMapOf md) md fuel = Some g →
  (∀ n, n ∈ nodes g → noPipe (node_id n)) →
  ∀ i c, nodes g !! i = Some c → (0 < i)%nat →
    ∃ j p l, (j < i)%nat ∧ nodes g !! j = Some p
             ∧ node_depth c = S (node_depth p)
             ∧ l ∈ links g
             ∧ ((link_source l = j ∧ link_target l = i)
                ∨ (link_source l = i ∧ link_target l = j)).
Proof.
  intros Hg Hpipe i c Hi Hpos.
  apply buildGraph_explored in Hg as (t & Hinv & Hexp & _ & Hnodes & Hlinks).
  rewrite Hnodes in *. rewrite Hlinks. clear Hnodes Hlinks.
  destruct Hexp as [_ Hmap _ _ _ Hpar _ _].
  destruct (Hpar i c Hi Hpos) as (j & p & Hji & Hj & Hopens & Hchild & Hdepth).
  destruct (buildLinks_sound store (t_nodes t) (t_nodeMap t) Hmap)
    as (keys & [Hsound Hkeys] & Hcover).
  simpl in Hsound, Hkeys.
  assert (Hkey : keyFor (t_nodes t) (t_nodeMap t) j p (node_id c)
                 = Some (linkKey (node_id p) (node_id c))).
  { unfold keyFor. rewrite (proj2 (Hmap (node_id c) i)) by by exists c.
    rewrite Hi. destruct (Nat.eqb_spec i j); [lia | done]. }
  destruct (Hkeys _ (Hcover j p _ _ Hj Hopens Hchild Hkey)) as (l & Hl & Hlk).
  exists j, p, l. split; [done |]. split; [done |]. split; [done |]. split; [done |].
  rewrite Forall_forall in Hsound.
  destruct (Hsound l Hl) as (src & tgt & Hsrc & Htgt & _).
  unfold keyOfLink, idOf in Hlk. rewrite Hsrc, Htgt in Hlk.
  destruct Hinv as [_ _ Hnodup _ _ _].
  assert (Hsame : SamePair (node_id src, node_id tgt) (node_id p, node_id c)).
  { apply linkKey_inj; [| | | | done]; apply Hpipe; by eapply list_elem_of_lookup_2. }
  assert (Hidx : ∀ a b na nb, t_nodes t !! a = Some na → t_nodes t !! b = Some nb →
                              node_id na = node_id nb → a = b).
  { intros a b na nb Ha Hb Heq.
    apply (NoDup_lookup _ a b (node_id na) Hnodup); rewrite list_lookup_fmap.
    - by rewrite Ha.
    - by rewrite Hb, Heq. }
  destruct Hsame as [[H1 H2] | [H1 H2]]; simpl in H1, H2.
  - left. simpl. split; by eapply Hidx.
  - right. simpl. split; by eapply Hidx.
Qed.

Lemma graph_nodes_are_linked_to_a_parent_witness :
  ∃ g, buildGraph (state shopDiagram) shopCustomer (Some shopCustomer) {[ "Customer" ]}
               (entityMapOf shopMetadata) shopMetadata 8 = Some g
       ∧ ∀ i c, nodes g !! i = Some c → (0 < i)%nat →
           ∃ l, l ∈ links g ∧ (link_source l = i ∨ link_target l = i).
Proof.
  destruct (buildGraph (state shopDiagram) shopCustomer (Some shopCustomer) {[ "Customer" ]}
               (entityMapOf shopMetadata) shopMetadata 8)
    as [g|] eqn:Hg; [| by vm_compute in Hg].
  exists g. split; [reflexivity |]. intros i c Hi Hpos.
  destruct (graph_nodes_are_linked_to_a_parent (state shopDiagram) shopCustomer (Some shopCustomer) {[ "Customer" ]}
              shopMetadata 8 g Hg)
    with (i := i) (c := c) as (j & p & l & _ & _ & _ & Hl & Hends); [| done | done |].
  - vm_compute in Hg. injection Hg as <-. intros n Hn. simpl in Hn.
    apply list_elem_of_In in Hn. destruct Hn as [<- | [<- | [<- | []]]]; reflexivity.
  - exists l. split; [done |]. destruct Hends as [[_ ?] | [? _]]; [by right | by left].
Defined.

(** Property X21.  A click on a node of the graph drawn for the current state
    never changes the diagram root.  On a node that is not the root it flips
    whether the node is expanded (the node's flag being that of the state) and
    leaves other nodes and the navigation path alone; when the node is a
    collapsed entity, an entity of that name becomes the selection.  On the
    root it selects the root's entity and clears the navigation path, and
    leaves a non-empty expanded set as it is. *)
Theorem click_flips_expansion (s : Store) (fuel : nat) (g : Graph) (d : DiagramNode) :
  graphOfState (state s) fuel = Some g → d ∈ nodes g →
  let st := state s in
  let st' := state (clickNode d s) in
  diagramRootEntity st' = diagramRootEntity st
  ∧ (node_isRoot d = false →
       (node_id d ∈ diagramExpandedNodes st' ↔ node_id d ∉ diagramExpandedNodes st)
       ∧ (node_isExpanded d = true ↔ node_id d ∈ diagramExpandedNodes st)
       ∧ (∀ other, other ≠ node_id d →
            (other ∈ diagramExpandedNodes st' ↔ other ∈ diagramExpandedNodes st))
       ∧ navigationPath st' = navigationPath st)
  ∧ (node_isRoot d = false → node_isExpanded d = false → node_kind d = KindEntity →
       ∃ e, selectedEntity st' = Some e ∧ ent_name e = node_id d)
  ∧ (node_isRoot d = true →
       (∃ e, node_data d = EntityData e ∧ selectedEntity st' = Some e)
       ∧ navigationPath st' = []
       ∧ (diagramExpandedNodes st ≠ ∅ → diagramExpandedNodes st' = diagramExpandedNodes st)).
Proof.
  intros Hg Hd. cbv zeta. unfold graphOfState in Hg.
  destruct (metadata (state s)) as [md|] eqn:Hmd; [| done].
  destruct (diagramRootEntity (state s)) as [root|] eqn:Hroot; [| done].
  apply buildGraph_explored in Hg as (t & Hinv & Hexp & _ & Hnodes & _).
  rewrite Hnodes in Hd. destruct Hinv as [_ _ _ _ _ Hok]. destruct Hexp as [Hshows _ _ _ _ _ _ _].
  rewrite Forall_forall in Hok, Hshows.
  destruct (Hok _ Hd) as [Hexpanded _ _].
  destruct (Hshows _ Hd) as [Hname _ _ _ Hdata].
  unfold clickNode, node_kind. rewrite Hname.
  assert (Htoggle :
    let st' := state (toggleDiagramNode (node_id d) s) in
    diagramRootEntity st' = Some root
    ∧ (node_id d ∈ diagramExpandedNodes st' ↔ node_id d ∉ diagramExpandedNodes (state s))
    ∧ (∀ other, other ≠ node_id d →
         (other ∈ diagramExpandedNodes st' ↔ other ∈ diagramExpandedNodes (state s)))
    ∧ navigationPath st' = navigationPath (state s)).
  { unfold toggleDiagramNode, assign, notify. simpl. split; [done |].
    split; [| split; [| done]].
    - destruct (decide (node_id d ∈ _)); set_solver.
    - intros other Hne. destruct (decide (node_id d ∈ _)); set_solver. }
  assert (Hflag : node_isExpanded d = true ↔ node_id d ∈ diagramExpandedNodes (state s)).
  { rewrite Hexpanded. apply bool_decide_eq_true. }
  destruct (node_data d) as [e | ct].
  - destruct Hdata as (Hid & _ & Horigin & Hisroot & _).
    destruct (node_isRoot d) eqn:Hr.
    + unfold selectEntity, assign, notify. simpl. rewrite Hroot.
      split; [done |]. split; [done |]. split; [done |]. intros _.
      split; [by exists e |]. split; [done |]. intros Hne.
      destruct (Nat.ltb_spec 0 (size (diagramExpandedNodes (state s)))) as [| Hzero]; [done |].
      exfalso. apply Hne. apply leibniz_equiv, size_empty_inv. lia.
    + destruct (node_isExpanded d) eqn:Hx.
      * destruct Htoggle as (H1 & H2 & H3 & H4). split; [by rewrite H1 |].
        split; [done |]. split; [done | done].
      * assert (Hin : e ∈ allEntities md).
        { destruct Horigin as [-> | Hin]; [| done]. by rewrite String.eqb_refl in Hisroot. }
        unfold selectFromDiagram. rewrite Hmd.
        destruct (List.find _ (allEntities md)) as [found|] eqn:Hfind.
        2: { exfalso. apply list_elem_of_In in Hin.
             pose proof (find_none _ _ Hfind e Hin) as Hno. simpl in Hno.
             rewrite Hid, String.eqb_refl in Hno. done. }
        apply find_some in Hfind as [_ Hfound%String.eqb_eq].
        unfold assign, notify. simpl. rewrite Hroot.
        assert (Hout : node_id d ∉ diagramExpandedNodes (state s)).
        { intros Hmem. apply Hflag in Hmem. congruence. }
        split; [done |]. split; [| split; [| done]].
        -- intros _. split; [set_solver |]. split; [done |]. split; [set_solver | done].
        -- intros _ _ _. by exists found.
  - destruct Hdata as (Hid & _ & _ & Hr & _). rewrite Hr.
    destruct Htoggle as (H1 & H2 & H3 & H4). split; [by rewrite H1 |].
    split; [done |]. split; [done | done].
Qed.

Lemma click_flips_expansion_witness :
  ∃ g d, graphOfState (state shopDiagram) 8 = Some g ∧ nodes g !! 1%nat = Some d
    ∧ node_id d = "Order"
    ∧ "Order" ∈ diagramExpandedNodes (state (clickNode d shopDiagram)).
Proof.
  destruct (graphOfState (state shopDiagram) 8) as [g|] eqn:Hg; [| by vm_compute in Hg].
  destruct (nodes g !! 1%nat) as [d|] eqn:Hd;
    [| vm_compute in Hg; injection Hg as <-; by vm_compute in Hd].
  exists g, d. split; [reflexivity |]. split; [exact Hd |].
  assert (Hin : d ∈ nodes g) by by eapply list_elem_of_lookup_2.
  destruct (click_flips_expansion shopDiagram 8 g d Hg Hin) as (_ & Hflip & _).
  vm_compute in Hg. injection Hg as <-. injection Hd as <-.
  split; [reflexivity |].
  destruct (Hflip eq_refl) as (Hexpanded & _). apply Hexpanded.
  by vm_compute.
Defined.

Lemma buildGraph_returns (store : AppState) (rootEntity : ODataEntity)
    (selectedEntity : option ODataEntity) (expandedNodes : gset string)
    (md : ODataMetadata) (fuel : nat) :
  (enoughFuel md ≤ fuel)%nat →
  ∃ g, buildGraph store rootEntity selectedEntity expandedNodes (entityMapOf md) md fuel
       = Some g.
Proof.
  intros Hfuel.
  destruct (initial_invariant rootEntity expandedNodes md) as [Hinit Hmeasure].
  destruct (traverse_terminates store rootEntity selectedEntity expandedNodes md
              (enoughFuel md) _ Hinit Hmeasure) as [t Hrun].
  unfold buildGraph.
  rewrite (traverse_more_fuel _ _ _ _ _ _ _ _ _ Hrun Hfuel). by eexists.
Qed.

(** Property X22.  After [startDiagramFrom entity] on loaded metadata the
    diagram is drawn (with [enoughFuel] turns or more): at most 16 nodes, first
    the node of [entity], which is root, selected and expanded; every other
    node is at depth 1, collapsed, not selected, and named by a navigation
    property or a nested collection of the root; every link starts at the
    root. *)
Theorem fresh_diagram_shows_neighbours (md : ODataMetadata) (entity : ODataEntity)
    (s : Store) (fuel : nat) :
  metadata (state s) = Some md → (enoughFuel md ≤ fuel)%nat →
  let s1 := startDiagramFrom entity s in
  ∃ g r, graphOfState (state s1) fuel = Some g
       ∧ (length (nodes g) ≤ 16)%nat
       ∧ nodes g !! 0%nat = Some r ∧ node_id r = ent_name entity
       ∧ node_isRoot r = true ∧ node_isSelected r = true ∧ node_isExpanded r = true
       ∧ (∀ i n, nodes g !! i = Some n → (0 < i)%nat →
            node_depth n = 1%nat ∧ node_isExpanded n = false ∧ node_isRoot n = false
            ∧ node_isSelected n = false
            ∧ node_id n ∈ childNames (state s1) r)
       ∧ (∀ l, l ∈ links g → link_source l = 0%nat).
Proof.
  intros Hmeta Hfuel s1.
  set (st := state s1).
  assert (Hst : metadata st = Some md ∧ diagramRootEntity st = Some entity
                ∧ selectedEntity st = Some entity
                ∧ diagramExpandedNodes st = {[ ent_name entity ]}).
  { subst st s1. unfold startDiagramFrom, assign, notify.
    by cbn [state metadata diagramRootEntity selectedEntity diagramExpandedNodes]. }
  destruct Hst as (Hmd & Hroot & Hsel & Hexpanded).
  unfold graphOfState. rewrite Hmd, Hroot, Hsel, Hexpanded.
  destruct (buildGraph_returns st entity (Some entity) {[ ent_name entity ]} md fuel Hfuel)
    as [g Hg].
  exists g. rewrite Hg.
  apply buildGraph_explored in Hg as (t & Hinv & Hexp & Hq & Hnodes & Hlinks).
  rewrite Hnodes, Hlinks.
  pose proof Hinv as [_ _ Hnodup _ Hrootfirst Hok].
  pose proof Hexp as [Hshows Hmap _ _ _ Hpar _ _].
  rewrite Forall_forall in Hok, Hshows.
  assert (Hfirst : ∃ r, t_nodes t !! 0%nat = Some r ∧ node_id r = ent_name entity
                        ∧ node_isRoot r = true).
  { unfold RootFirst in Hrootfirst. destruct (t_nodes t) as [|r ns].
    - destruct Hrootfirst as [H0 _]. by rewrite Hq in H0.
    - exists r. by destruct Hrootfirst as (? & _ & ?). }
  destruct Hfirst as (r & Hr & Hrid & Hrroot). exists r.
  assert (Hidx : ∀ i n, t_nodes t !! i = Some n → node_id n = ent_name entity → i = 0%nat).
  { intros i n Hi Hid. apply (NoDup_lookup _ i 0%nat (ent_name entity) Hnodup);
      rewrite list_lookup_fmap.
    - by rewrite Hi, <- Hid.
    - by rewrite Hr, <- Hrid. }
  assert (Hopens : ∀ i n, t_nodes t !! i = Some n → opens n = true → i = 0%nat).
  { intros i n Hi Ho. apply (Hidx i n Hi).
    destruct (Hok n) as [Hexpd Hisroot _]; [by eapply list_elem_of_lookup_2 |].
    unfold opens in Ho. apply orb_true_iff in Ho as [Ho | Ho]; [| by apply Hisroot].
    rewrite Hexpd in Ho. apply bool_decide_eq_true in Ho. set_solver. }
  assert (Hcollapsed : ∀ i n, t_nodes t !! i = Some n → (0 < i)%nat →
                         node_isExpanded n = false ∧ node_isRoot n = false).
  { intros i n Hi Hpos.
    assert (Hno : opens n = false).
    { destruct (opens n) eqn:Ho; [| done]. pose proof (Hopens i n Hi Ho). lia. }
    unfold opens in Hno. by apply orb_false_iff in Hno. }
  split; [done |]. split.
  { destruct (explored_size st entity (Some entity) {[ ent_name entity ]} md t Hinv Hexp Hq)
      as [_ Hsize].
    apply Hsize. intros n Hn Hnr. apply list_elem_of_lookup in Hn as [i Hi].
    destruct (decide (i = 0)%nat) as [-> | Hne].
    - rewrite Hr in Hi. injection Hi as <-. congruence.
    - destruct (Hcollapsed i n Hi) as [? _]; [lia | done]. }
  split; [done |]. split; [done |]. split; [done |].
  assert (Hrdata : node_isSelected r = true ∧ node_isExpanded r = true).
  { destruct (Hok r) as [Hexpd _ _]; [by eapply list_elem_of_lookup_2 |].
    destruct (Hshows r) as [_ _ _ _ Hdata]; [by eapply list_elem_of_lookup_2 |].
    split.
    - destruct (node_data r) as [e | ct].
      + destruct Hdata as (Hid & _ & _ & _ & ->). rewrite <- Hid, Hrid. apply String.eqb_refl.
      + destruct Hdata as (_ & _ & _ & Hf & _). congruence.
    - rewrite Hexpd, Hrid. apply bool_decide_eq_true. set_solver. }
  split; [by destruct Hrdata |]. split; [by destruct Hrdata |]. split.
  - intros i n Hi Hpos. destruct (Hcollapsed i n Hi Hpos) as [Hx Hnr].
    destruct (Hpar i n Hi Hpos) as (j & p & Hji & Hj & Hpo & Hchild & Hd).
    pose proof (Hopens j p Hj Hpo) as ->. rewrite Hr in Hj. injection Hj as <-.
    assert (Hr0 : node_depth r = 0%nat).
    { unfold RootFirst in Hrootfirst. destruct (t_nodes t) as [|r0 ns]; [done |].
      injection Hr as <-. by destruct Hrootfirst as (_ & ? & _). }
    split; [lia |]. split; [done |]. split; [done |]. split; [| done].
    destruct (Hshows n) as [_ _ _ _ Hdata]; [by eapply list_elem_of_lookup_2 |].
    destruct (node_data n) as [e | ct].
    + destruct Hdata as (Hid & _ & _ & _ & ->). rewrite <- Hid.
      apply String.eqb_neq. intros Heq. symmetry in Heq. pose proof (Hidx i n Hi Heq). lia.
    + by destruct Hdata as (_ & _ & _ & _ & ?).
  - intros l Hl.
    destruct (buildLinks_sound st (t_nodes t) (t_nodeMap t) Hmap) as (keys & [Hsound _] & _).
    simpl in Hsound. rewrite Forall_forall in Hsound.
    destruct (Hsound l Hl) as (src & tgt & Hsrc & _ & _ & Ho & _).
    by apply (Hopens _ src).
Qed.

Lemma fresh_diagram_shows_neighbours_witness :
  ∃ g, graphOfState
         (state (startDiagramFrom sampleCustomer
                   (setMetadata (Some sampleMetadata) initialStore)))
         (enoughFuel sampleMetadata) = Some g
       ∧ (length (nodes g) ≤ 16)%nat.
Proof.
  destruct (fresh_diagram_shows_neighbours sampleMetadata sampleCustomer
              (setMetadata (Some sampleMetadata) initialStore)
              (enoughFuel sampleMetadata) eq_refl (le_n _))
    as (g & r & Hg & Hlen & _).
  by exists g.
Defined.

(** *** Bounds, rows and the divider *)

Local Open Scope Q_scope.

Lemma mathMin_least (f : DiagramNode → Q) (nodes : list DiagramNode) (n : DiagramNode)
    (b : option Q) :
  LeastOf f nodes b → LeastOf f (nodes ++ [n]) (mathMin b (f n)).
Proof.
  unfold LeastOf. destruct nodes as [|m nodes]; simpl.
  - intros ->. exists (f n). split; [done |]. split.
    + intros x ->%list_elem_of_singleton. apply Qle_refl.
    + exists n. split; [by left | done].
  - intros (v & -> & Hlow & (w & Hw & Hv)). simpl. exists (Qminmax.Qmin v (f n)).
    split; [done |]. split.
    + intros x Hx. change (m :: (nodes ++ [n])%list) with ((m :: nodes) ++ [n])%list in Hx.
      apply elem_of_app in Hx as [Hx | ->%list_elem_of_singleton].
      * eapply Qle_trans; [apply Qminmax.Q.le_min_l | by apply Hlow].
      * apply Qminmax.Q.le_min_r.
    + unfold Qminmax.Qmin, GenericMinMax.gmin. destruct (v ?= f n).
      * exists w. split; [| done]. apply elem_of_cons in Hw as [-> | Hw]; [by left |].
        right. apply elem_of_app. by left.
      * exists w. split; [| done]. apply elem_of_cons in Hw as [-> | Hw]; [by left |].
        right. apply elem_of_app. by left.
      * exists n. split; [| done]. right. apply elem_of_app. right. by left.
Qed.

Lemma mathMax_greatest (f : DiagramNode → Q) (nodes : list DiagramNode) (n : DiagramNode)
    (b : option Q) :
  GreatestOf f nodes b → GreatestOf f (nodes ++ [n]) (mathMax b (f n)).
Proof.
  unfold GreatestOf. destruct nodes as [|m nodes]; simpl.
  - intros ->. exists (f n). split; [done |]. split.
    + intros x ->%list_elem_of_singleton. apply Qle_refl.
    + exists n. split; [by left | done].
  - intros (v & -> & Hhigh & (w & Hw & Hv)). simpl. exists (Qminmax.Qmax v (f n)).
    split; [done |]. split.
    + intros x Hx. change (m :: (nodes ++ [n])%list) with ((m :: nodes) ++ [n])%list in Hx.
      apply elem_of_app in Hx as [Hx | ->%list_elem_of_singleton].
      * eapply Qle_trans; [by apply Hhigh | apply Qminmax.Q.le_max_l].
      * apply Qminmax.Q.le_max_r.
    + unfold Qminmax.Qmax, GenericMinMax.gmax. destruct (v ?= f n).
      * exists w. split; [| done]. apply elem_of_cons in Hw as [-> | Hw]; [by left |].
        right. apply elem_of_app. by left.
      * exists n. split; [| done]. right. apply elem_of_app. right. by left.
      * exists w. split; [| done]. apply elem_of_cons in Hw as [-> | Hw]; [by left |].
        right. apply elem_of_app. by left.
Qed.

(** Property X23.  [getBounds] of no nodes leaves the four bounds at their
    start values.  Otherwise [minX] is the least left edge, [maxX] the greatest
    right edge, [minY] the least top edge and [maxY] the greatest bottom edge
    of the nodes: every node lies inside the box, and each side of the box
    touches a node. *)
Theorem bounds_enclose_every_node (nodes : list DiagramNode) :
  let b := getBounds nodes in
  LeastOf leftEdge nodes (minX b)
  ∧ GreatestOf rightEdge nodes (maxX b)
  ∧ LeastOf topEdge nodes (minY b)
  ∧ GreatestOf bottomEdge nodes (maxY b).
Proof.
  unfold getBounds. induction nodes as [|n nodes IH] using rev_ind; [done |].
  rewrite foldl_app. cbn [foldl minX maxX minY maxY].
  destruct IH as (H1 & H2 & H3 & H4).
  split; [by apply (mathMin_least leftEdge) |].
  split; [by apply (mathMax_greatest rightEdge) |].
  split; [by apply (mathMin_least topEdge) | by apply (mathMax_greatest bottomEdge)].
Qed.

Lemma rowWidth_cons (nodes : list DiagramNode) (s : Q) (r : nat) (level : list nat) :
  rowWidth nodes s (r :: level)
  = rowWidth nodes (s + widthOf nodes r + NODE_SPACING) level.
Proof. reflexivity. Qed.

Lemma rowWidth_shift (nodes : list DiagramNode) (s : Q) (level : list nat) :
  rowWidth nodes s level == s + rowWidth nodes 0 level.
Proof.
  revert s. induction level as [|r level IH]; intros s; unfold rowWidth in *; simpl.
  - lra.
  - rewrite (IH (s + widthOf nodes r + NODE_SPACING)),
      (IH (0 + widthOf nodes r + NODE_SPACING)). lra.
Qed.

Lemma widthOf_shape (cur orig : list DiagramNode) (r : nat) :
  List.map shapeOf cur = List.map shapeOf orig → widthOf cur r = widthOf orig r.
Proof.
  intros Hshape. unfold widthOf.
  assert (Hr : List.map shapeOf cur !! r = List.map shapeOf orig !! r) by by rewrite Hshape.
  rewrite !list_lookup_fmap in Hr.
  destruct (cur !! r) as [n|], (orig !! r) as [n'|];
    cbn [fmap option_fmap option_map] in Hr; try done.
  assert (Hs : shapeOf n = shapeOf n') by congruence.
  by destruct (shape_fields _ _ Hs) as [-> _].
Qed.

Lemma rowWidth_shape (cur orig : list DiagramNode) (s : Q) (level : list nat) :
  List.map shapeOf cur = List.map shapeOf orig →
  rowWidth cur s level = rowWidth orig s level.
Proof.
  intros Hshape. revert s. induction level as [|r level IH]; intros s; [done |].
  unfold rowWidth in *. simpl. by rewrite (widthOf_shape cur orig r Hshape), IH.
Qed.

Lemma placeLevel_exact (y : Q) (level : list nat) (x : Q) (cur : list DiagramNode) :
  StronglySorted lt level →
  Forall (fun r => (r < length cur)%nat) level →
  Forall (fun n => 0 <= node_width n) cur →
  let out := placeLevel y level x cur in
  (∀ a na, head level = Some a → out !! a = Some na → leftEdge na == x)
  ∧ (∀ b nb, last level = Some b → out !! b = Some nb →
       rightEdge nb == x + rowWidth cur (- NODE_SPACING) level)
  ∧ (∀ k a b na nb, level !! k = Some a → level !! S k = Some b →
       out !! a = Some na → out !! b = Some nb →
       rightEdge na + NODE_SPACING == leftEdge nb).
Proof.
  revert x cur. induction level as [|r rest IH]; intros x cur Hsorted Hrange Hwidth.
  { simpl. split; [done |]. split; [done |]. by intros k a b na nb Hk. }
  cbn [placeLevel].
  apply StronglySorted_inv in Hsorted as [Hsorted Hlt].
  apply Forall_cons in Hrange as [Hr Hrange].
  destruct (lookup_lt_is_Some_2 cur r Hr) as [node Hnode]. rewrite Hnode.
  set (moved := setPosition node (x + node_width node / 2) y) in *.
  set (cur' := <[r := moved]> cur) in *.
  assert (Hshape : List.map shapeOf cur' = List.map shapeOf cur) by by apply shape_insert.
  assert (Hrange' : Forall (fun r => (r < length cur')%nat) rest).
  { subst cur'. by rewrite length_insert. }
  assert (Hwidth' : Forall (fun n => 0 <= node_width n) cur').
  { subst cur'. apply Forall_insert; [done |]. rewrite Forall_forall in Hwidth.
    apply (Hwidth node). by eapply list_elem_of_lookup_2. }
  destruct (placeLevel_spec y rest (x + node_width node + NODE_SPACING) cur'
              Hsorted Hrange' Hwidth') as (_ & IHframe & _ & _).
  destruct (IH (x + node_width node + NODE_SPACING) cur' Hsorted Hrange' Hwidth')
    as (IHhead & IHlast & IHgap).
  assert (Hnotin : r ∉ rest).
  { intros Hin. rewrite Forall_forall in Hlt. apply Hlt in Hin. lia. }
  assert (Hmoved : placeLevel y rest (x + node_width node + NODE_SPACING) cur' !! r
                   = Some moved).
  { rewrite (IHframe r Hnotin). subst cur'. by apply list_lookup_insert_eq. }
  assert (Hw : widthOf cur r = node_width node) by (unfold widthOf; by rewrite Hnode).
  split; [| split].
  - intros a na [= <-] Hna. rewrite Hmoved in Hna. injection Hna as <-.
    unfold leftEdge, moved. simpl. qlra.
  - intros b nb Hb Hnb. rewrite rowWidth_cons, Hw.
    pose proof (rowWidth_shift cur (- NODE_SPACING + node_width node + NODE_SPACING) rest)
      as Hshift.
    destruct rest as [|r2 rest2].
    + injection Hb as <-. rewrite Hmoved in Hnb. injection Hnb as <-.
      unfold rightEdge, moved, rowWidth. simpl. qlra.
    + assert (Hb' : last (r2 :: rest2) = Some b) by by rewrite last_cons_cons in Hb.
      pose proof (IHlast b nb Hb' Hnb) as Hlast.
      rewrite (rowWidth_shape cur' cur _ _ Hshape) in Hlast.
      pose proof (rowWidth_shift cur (- NODE_SPACING) (r2 :: rest2)) as Hshift'.
      lra.
  - intros k a b na nb Ha Hb Hna Hnb. destruct k as [|k].
    + injection Ha as <-. rewrite Hmoved in Hna. injection Hna as <-.
      assert (Hhead : head rest = Some b) by by destruct rest.
      rewrite (IHhead b nb Hhead Hnb). unfold rightEdge, moved. simpl. qlra.
    + by apply (IHgap k a b na nb).
Qed.

Lemma layout_rows (orig : list DiagramNode) (byDepth : list (nat * list nat))
    (cur : list DiagramNode) :
  NoDup (List.map fst byDepth) →
  (∀ d level, (d, level) ∈ byDepth → StronglySorted lt level) →
  (∀ d level r, (d, level) ∈ byDepth → r ∈ level →
                ∃ n, orig !! r = Some n ∧ node_depth n = d) →
  Forall (fun n => 0 <= node_width n) orig →
  List.map shapeOf cur = List.map shapeOf orig →
  ∀ d level, (d, level) ∈ byDepth → RowCentred level (foldl layoutLevel cur byDepth).
Proof.
  revert cur. induction byDepth as [|[d level] rest IH];
    intros cur Hkeys Hsorted Hdepth Hwidth Hshape d' level' Hin; simpl.
  { by apply elem_of_nil in Hin. }
  apply NoDup_cons in Hkeys as [Hfresh Hkeys].
  set (y := inject_Z (Z.of_nat d) * LEVEL_HEIGHT).
  set (x0 := - totalWidth cur level / 2).
  assert (Hlen : length cur = length orig).
  { by rewrite <- (length_map shapeOf cur), Hshape, length_map. }
  assert (Hrange : Forall (fun r => (r < length cur)%nat) level).
  { apply Forall_forall. intros r Hr.
    destruct (Hdepth d level r ltac:(by left) Hr) as (n & Hn & _).
    rewrite Hlen. by eapply lookup_lt_Some. }
  assert (Hwidth' : Forall (fun n => 0 <= node_width n) cur).
  { apply Forall_forall. intros n' Hn'. apply list_elem_of_lookup in Hn' as [i Hi].
    assert (Hlt : (i < length orig)%nat) by (rewrite <- Hlen; by eapply lookup_lt_Some).
    destruct (lookup_lt_is_Some_2 _ _ Hlt) as [n Hn].
    destruct (shape_lookup cur orig i n Hshape Hn) as (n'' & Hn'' & Hsh).
    rewrite Hi in Hn''. injection Hn'' as <-.
    destruct (shape_fields _ _ Hsh) as [-> _].
    rewrite Forall_forall in Hwidth. apply Hwidth. by eapply list_elem_of_lookup_2. }
  pose proof (Hsorted d level ltac:(by left)) as Hsl.
  destruct (placeLevel_spec y level x0 cur Hsl Hrange Hwidth') as (Pshape & _).
  destruct (placeLevel_exact y level x0 cur Hsl Hrange Hwidth') as (Phead & Plast & Pgap).
  set (cur' := placeLevel y level x0 cur) in *.
  assert (Hshape' : List.map shapeOf cur' = List.map shapeOf orig) by by rewrite Pshape.
  apply elem_of_cons in Hin as [Hin | Hin].
  2: { apply (IH cur' Hkeys) with (d := d'); try done.
       - intros d2 level2 Hin2. apply (Hsorted d2 level2). by right.
       - intros d2 level2 r Hin2. apply (Hdepth d2 level2 r). by right. }
  injection Hin as -> ->.
  destruct (layout_levels orig rest cur' Hkeys) as (_ & IHframe & _); try done.
  { intros d2 level2 Hin2. apply (Hsorted d2 level2). by right. }
  { intros d2 level2 r Hin2. apply (Hdepth d2 level2 r). by right. }
  assert (Hkept : ∀ r, r ∈ level → foldl layoutLevel cur' rest !! r = cur' !! r).
  { intros r Hr. apply IHframe. intros d2 level2 Hin2 Hr'.
    destruct (Hdepth d level r ltac:(by left) Hr) as (n & Hn & Hd).
    destruct (Hdepth d2 level2 r ltac:(by right) Hr') as (n' & Hn' & Hd').
    rewrite Hn in Hn'. injection Hn' as <-. apply Hfresh.
    apply list_elem_of_In, in_map_iff. exists (d2, level2).
    split; [simpl; congruence | by apply list_elem_of_In]. }
  split.
  - intros k a b na nb Ha Hb Hna Hnb.
    rewrite Hkept in Hna by by eapply list_elem_of_lookup_2.
    rewrite Hkept in Hnb by by eapply list_elem_of_lookup_2.
    by apply (Pgap k a b na nb).
  - intros a b na nb Ha Hb Hna Hnb.
    rewrite Hkept in Hna by (destruct level; [done | injection Ha as <-; by left]).
    rewrite Hkept in Hnb by (apply last_Some in Hb as [l' ->]; apply elem_of_app; right; by left).
    pose proof (Phead a na Ha Hna) as H1. pose proof (Plast b nb Hb Hnb) as H2.
    subst x0. unfold totalWidth in *. fold (rowWidth cur (- NODE_SPACING) level) in *.
    qlra.
Qed.

Lemma sorted_positions (level : list nat) (a b i j : nat) :
  StronglySorted lt level → level !! a = Some i → level !! b = Some j →
  (i < j)%nat → (a < b)%nat.
Proof.
  intros Hsorted Ha Hb Hij. destruct (decide (a < b)%nat) as [| Hge]; [done |].
  destruct (decide (a = b)) as [-> | Hne].
  - rewrite Ha in Hb. injection Hb as ->. lia.
  - assert (j < i)%nat; [| lia].
    apply (StronglySorted_lookup_lt lt level b a j i Hsorted); [lia | done | done].
Qed.

(** The rows that [layoutNodes] makes of any list of nodes. *)
Lemma layoutNodes_rows (orig : list DiagramNode) :
  Forall (fun n => 0 <= node_width n) orig →
  let placed := layoutNodes orig in
  (∀ i j ni nj, (i < j)%nat → placed !! i = Some ni → placed !! j = Some nj →
     node_depth ni = node_depth nj →
     (∀ k nk, (i < k < j)%nat → placed !! k = Some nk → node_depth nk ≠ node_depth ni) →
     rightEdge ni + NODE_SPACING == leftEdge nj)
  ∧ (∀ i j ni nj, placed !! i = Some ni → placed !! j = Some nj →
       node_depth ni = node_depth nj →
       (∀ k nk, placed !! k = Some nk → node_depth nk = node_depth ni → (i ≤ k ≤ j)%nat) →
       leftEdge ni + rightEdge nj == 0).
Proof.
  intros Hwidth placed. subst placed.
  destruct (groupByDepth_ok orig) as [Hkeys Hsorted Hdepth Hcover].
  destruct (layoutNodes_spec orig Hwidth) as (Hshape & _ & _).
  pose proof (layout_rows orig (groupByDepth orig) orig Hkeys Hsorted Hdepth Hwidth eq_refl)
    as Hrows.
  fold (layoutNodes orig) in Hrows.
  assert (Horig : ∀ i n, layoutNodes orig !! i = Some n →
                         ∃ n0, orig !! i = Some n0 ∧ node_depth n0 = node_depth n).
  { intros i n Hi.
    assert (Hlt : (i < length orig)%nat).
    { rewrite <- (length_map shapeOf orig), <- Hshape, length_map. by eapply lookup_lt_Some. }
    destruct (lookup_lt_is_Some_2 _ _ Hlt) as [n0 Hn0].
    destruct (shape_lookup _ orig i n0 Hshape Hn0) as (n' & Hn' & Hsh).
    rewrite Hi in Hn'. injection Hn' as <-.
    destruct (shape_fields _ _ Hsh) as (_ & Hd & _). by exists n0. }
  assert (Hlevel : ∀ i n, layoutNodes orig !! i = Some n →
                          ∃ level, (node_depth n, level) ∈ groupByDepth orig ∧ i ∈ level).
  { intros i n Hi. destruct (Horig i n Hi) as (n0 & Hn0 & <-). by apply Hcover. }
  assert (Hmember : ∀ d level r, (d, level) ∈ groupByDepth orig → r ∈ level →
                                 ∃ n, layoutNodes orig !! r = Some n ∧ node_depth n = d).
  { intros d level r Hin Hr. destruct (Hdepth d level r Hin Hr) as (n0 & Hn0 & Hd).
    destruct (shape_lookup _ orig r n0 Hshape Hn0) as (n' & Hn' & Hsh).
    exists n'. split; [done |]. destruct (shape_fields _ _ Hsh) as (_ & -> & _). done. }
  split.
  - intros i j ni nj Hij Hi Hj Hsame Hbetween.
    destruct (Hlevel i ni Hi) as (li & Hli & Hini).
    destruct (Hlevel j nj Hj) as (lj & Hlj & Hinj).
    rewrite <- Hsame in Hlj. assert (lj = li) as -> by by eapply unique_level.
    apply list_elem_of_lookup in Hini as [a Ha]. apply list_elem_of_lookup in Hinj as [b Hb].
    pose proof (Hsorted _ _ Hli) as Hsl.
    pose proof (sorted_positions li a b i j Hsl Ha Hb Hij) as Hab.
    assert (b = S a) as ->.
    { destruct (decide (b = S a)) as [| Hne]; [done |]. exfalso.
      assert (Hlt : (S a < length li)%nat) by (apply lookup_lt_Some in Hb; lia).
      destruct (lookup_lt_is_Some_2 _ _ Hlt) as [m Hm].
      assert (i < m)%nat by (apply (StronglySorted_lookup_lt lt li a (S a) i m Hsl); [lia | done | done]).
      assert (m < j)%nat by (apply (StronglySorted_lookup_lt lt li (S a) b m j Hsl); [lia | done | done]).
      destruct (Hmember _ li m Hli) as (nm & Hnm & Hd); [by eapply list_elem_of_lookup_2 |].
      by apply (Hbetween m nm). }
    destruct (Hrows _ _ Hli) as [Hgap _]. by apply (Hgap a i j ni nj).
  - intros i j ni nj Hi Hj Hsame Hall.
    destruct (Hlevel i ni Hi) as (li & Hli & Hini).
    destruct (Hlevel j nj Hj) as (lj & Hlj & Hinj).
    rewrite <- Hsame in Hlj. assert (lj = li) as -> by by eapply unique_level.
    pose proof (Hsorted _ _ Hli) as Hsl.
    destruct (Hrows _ _ Hli) as [_ Hends]. apply (Hends i j ni nj); [| | done | done].
    + apply list_elem_of_lookup in Hini as [a Ha]. destruct a as [|a]; [by destruct li |].
      exfalso. destruct li as [|m li']; [done |].
      assert (m < i)%nat
        by (apply (StronglySorted_lookup_lt lt (m :: li') 0 (S a) m i Hsl); [lia | done | done]).
      destruct (Hmember _ (m :: li') m Hli) as (nm & Hnm & Hd); [by left |].
      pose proof (Hall m nm Hnm Hd). lia.
    + apply list_elem_of_lookup in Hinj as [b Hb].
      destruct (last li) as [m|] eqn:Hlast; [| by destruct li using rev_ind; [| rewrite last_snoc in Hlast]].
      destruct (decide (m = j)) as [-> | Hne]; [done |]. exfalso.
      apply last_Some in Hlast as [l' ->].
      assert (Hm : (l' ++ [m])%list !! length l' = Some m)
        by by rewrite lookup_app_r, Nat.sub_diag by lia.
      assert (b < length l')%nat.
      { apply lookup_lt_Some in Hb as Hlt. rewrite length_app in Hlt. simpl in Hlt.
        destruct (decide (b = length l')) as [-> |]; [| lia]. rewrite Hm in Hb. congruence. }
      assert (j < m)%nat
        by (apply (StronglySorted_lookup_lt lt _ b (length l') j m Hsl); [lia | done | done]).
      destruct (Hmember _ _ m Hli) as (nm & Hnm & Hd);
        [apply elem_of_app; right; by left |].
      pose proof (Hall m nm Hnm Hd). lia.
Qed.

Lemma only_root_at_depth_zero (store : AppState) (rootEntity : ODataEntity)
    (selectedEntity : option ODataEntity) (expandedNodes : gset string)
    (md : ODataMetadata) (t : Traversal) (i : nat) (n : DiagramNode) :
  Invariant (universe md rootEntity) rootEntity expandedNodes t →
  Explored store md rootEntity selectedEntity t → t_queue t = [] →
  t_nodes t !! i = Some n → node_depth n = 0%nat ↔ i = 0%nat.
Proof.
  intros Hinv Hexp Hq Hi. destruct Hexp as [_ _ _ _ _ Hpar _ _]. split.
  - intros Hzero. destruct (decide (i = 0)%nat) as [| Hne]; [done |].
    destruct (Hpar i n Hi) as (j & p & _ & _ & _ & _ & Hd); lia.
  - intros ->. destruct Hinv as [_ _ _ _ Hroot _]. unfold RootFirst in Hroot.
    destruct (t_nodes t) as [|r ns]; [done |]. injection Hi as <-.
    by destruct Hroot as (_ & ? & _).
Qed.

(** Property X24.  After layout of a built graph, two nodes of the same depth
    with no node of that depth between them in the list lie exactly 20 apart,
    every row is centred (the left edge of its first node and the right edge
    of its last node add up to 0), and the root is at the origin. *)
Theorem layout_centres_rows (store : AppState) (rootEntity : ODataEntity)
    (selectedEntity : option ODataEntity) (expandedNodes : gset string)
    (md : ODataMetadata) (fuel : nat) (g : Graph) :
  buildGraph store rootEntity selectedEntity expandedNodes (entityMapOf md) md fuel = Some g →
  let placed := layoutNodes (nodes g) in
  (∀ i j ni nj, (i < j)%nat → placed !! i = Some ni → placed !! j = Some nj →
     node_depth ni = node_depth nj →
     (∀ k nk, (i < k < j)%nat → placed !! k = Some nk → node_depth nk ≠ node_depth ni) →
     node_x ni + node_width ni / 2 + 20 == node_x nj - node_width nj / 2)
  ∧ (∀ i j ni nj, placed !! i = Some ni → placed !! j = Some nj →
       node_depth ni = node_depth nj →
       (∀ k nk, placed !! k = Some nk → node_depth nk = node_depth ni → (i ≤ k ≤ j)%nat) →
       (node_x ni - node_width ni / 2) + (node_x nj + node_width nj / 2) == 0)
  ∧ (∃ r, placed !! 0%nat = Some r ∧ node_id r = ent_name rootEntity
          ∧ node_x r == 0 ∧ node_y r == 0).
Proof.
  intros Hg placed. apply buildGraph_explored in Hg as (t & Hinv & Hexp & Hq & Hnodes & _).
  assert (Hwidth : Forall (fun n => 0 <= node_width n) (nodes g)).
  { rewrite Hnodes. destruct Hinv as [_ _ _ _ _ Hok].
    eapply Forall_impl; [exact Hok |]. intros n [_ _ Hw]. rewrite Hw.
    pose proof (calculateNodeWidth_min (node_displayName n)). lra. }
  destruct (layoutNodes_rows (nodes g) Hwidth) as (Hgap & Hends).
  destruct (layoutNodes_spec (nodes g) Hwidth) as (Hshape & _ & Hy).
  fold placed in Hgap, Hends, Hshape, Hy.
  split; [| split].
  - intros i j ni nj Hij Hi Hj Hsame Hbetween.
    pose proof (Hgap i j ni nj Hij Hi Hj Hsame Hbetween) as H.
    unfold rightEdge, leftEdge, NODE_SPACING in H. exact H.
  - intros i j ni nj Hi Hj Hsame Hall.
    pose proof (Hends i j ni nj Hi Hj Hsame Hall) as H.
    unfold rightEdge, leftEdge in H. exact H.
  - assert (Hfirst : ∃ r0, nodes g !! 0%nat = Some r0 ∧ node_id r0 = ent_name rootEntity
                           ∧ node_depth r0 = 0%nat).
    { rewrite Hnodes. pose proof Hinv as [_ _ _ _ Hroot _]. unfold RootFirst in Hroot.
      destruct (t_nodes t) as [|r0 ns]; [destruct Hroot as [H0 _]; by rewrite Hq in H0 |].
      exists r0. by destruct Hroot as (? & ? & _). }
    destruct Hfirst as (r0 & Hr0 & Hid & Hd0).
    destruct (shape_lookup placed (nodes g) 0 r0 Hshape Hr0) as (r & Hr & Hsh).
    destruct (shape_fields _ _ Hsh) as (_ & Hd & _ & Hrid).
    exists r. split; [done |]. split; [congruence |].
    assert (Hrow : leftEdge r + rightEdge r == 0).
    { apply (Hends 0%nat 0%nat r r Hr Hr eq_refl). intros k nk Hk Hdk.
      assert (Hlt : (k < length (nodes g))%nat).
      { rewrite <- (length_map shapeOf (nodes g)), <- Hshape, length_map.
        by eapply lookup_lt_Some. }
      destruct (lookup_lt_is_Some_2 _ _ Hlt) as [n0 Hn0].
      destruct (shape_lookup placed (nodes g) k n0 Hshape Hn0) as (n' & Hn' & Hsh').
      rewrite Hk in Hn'. injection Hn' as <-.
      destruct (shape_fields _ _ Hsh') as (_ & Hdk' & _).
      rewrite Hnodes in Hn0.
      assert (k = 0)%nat; [| lia].
      apply (only_root_at_depth_zero store rootEntity selectedEntity expandedNodes md t k n0
               Hinv Hexp Hq Hn0). congruence. }
    split.
    + unfold leftEdge, rightEdge in Hrow. qlra.
    + rewrite (Hy 0%nat r Hr), Hd, Hd0. vm_compute. reflexivity.
Qed.

Lemma layout_centres_rows_witness :
  ∃ g, buildGraph (state shopDiagram) shopCustomer (Some shopCustomer) {[ "Customer" ]}
               (entityMapOf shopMetadata) shopMetadata 8 = Some g
       ∧ List.map (fun n => (node_id n, Qred (node_x n), Qred (node_y n)))
                  (layoutNodes (nodes g))
         = [("Customer", 0, 0); ("Order", - (93 # 2), 80); ("c_Address", 40, 80)]
       ∧ ∃ r, layoutNodes (nodes g) !! 0%nat = Some r ∧ node_x r == 0 ∧ node_y r == 0.
Proof.
  destruct (buildGraph (state shopDiagram) shopCustomer (Some shopCustomer) {[ "Customer" ]}
               (entityMapOf shopMetadata) shopMetadata 8)
    as [g|] eqn:Hg; [| by vm_compute in Hg].
  exists g. split; [reflexivity |].
  destruct (layout_centres_rows (state shopDiagram) shopCustomer (Some shopCustomer) {[ "Customer" ]}
              shopMetadata 8 g Hg)
    as (_ & _ & r & Hr & _ & Hx & Hy).
  split; [| by exists r].
  vm_compute in Hg. injection Hg as <-. vm_compute. reflexivity.
Defined.

(** Property X25.  The width that a drag gives the left pane never exceeds
    [maxLeftWidth], is never below [minLeftWidth] when the limits are in order,
    is the dragged width itself when that lies within the limits and the
    nearer limit when it does not; clamping twice is clamping once. *)
Theorem divider_stays_within_limits (minLeftWidth maxLeftWidth newPercent : Q) :
  let width := clampedPercent minLeftWidth maxLeftWidth newPercent in
  width <= maxLeftWidth
  ∧ (minLeftWidth <= maxLeftWidth → minLeftWidth <= width)
  ∧ (minLeftWidth <= newPercent → newPercent <= maxLeftWidth → width == newPercent)
  ∧ (newPercent <= minLeftWidth → minLeftWidth <= maxLeftWidth → width == minLeftWidth)
  ∧ (maxLeftWidth <= newPercent → width == maxLeftWidth)
  ∧ clampedPercent minLeftWidth maxLeftWidth width == width.
Proof.
  unfold clampedPercent. cbv zeta.
  set (inner := Qminmax.Qmax minLeftWidth newPercent).
  set (outer := Qminmax.Qmin maxLeftWidth inner).
  set (inner2 := Qminmax.Qmax minLeftWidth outer).
  set (outer2 := Qminmax.Qmin maxLeftWidth inner2).
  destruct (Qminmax.Q.max_spec minLeftWidth newPercent) as [[Ha Hb] | [Ha Hb]];
    fold inner in Hb;
    destruct (Qminmax.Q.min_spec maxLeftWidth inner) as [[Hc Hd] | [Hc Hd]];
    fold outer in Hd;
    destruct (Qminmax.Q.max_spec minLeftWidth outer) as [[He Hf] | [He Hf]];
    fold inner2 in Hf;
    destruct (Qminmax.Q.min_spec maxLeftWidth inner2) as [[Hg Hh] | [Hg Hh]];
    fold outer2 in Hh;
    repeat split; intros; lra.
Qed.

Lemma divider_stays_within_limits_witness :
  30 <= clampedPercent 30 70 12 ∧ clampedPercent 30 70 12 <= 70
  ∧ clampedPercent 30 70 55 == 55.
Proof.
  destruct (divider_stays_within_limits 30 70 12) as (Hmax & Hmin & _).
  destruct (divider_stays_within_limits 30 70 55) as (_ & _ & Hin & _).
  split; [apply Hmin; by vm_compute |]. split; [done |].
  apply Hin; by vm_compute.
Defined.
